(** * Session synchronisation and change detection of claude-subconscious

    A shallow embedding of the hook scripts [scripts/sync_letta_memory.ts],
    [scripts/pretool_sync.ts] and of the shared [scripts/conversation_utils.ts]:
    the message cursor tracker, the memory diff engine, the conversation
    resolver and the two [main] orchestrators, followed by the properties
    of the specification that are settled on them.

    Conventions of the embedding.
    - A JavaScript string is a [string]: a sequence of code units, here
      those below 256.
    - A value of type [string | null | undefined] is an [option string];
      the scripts never tell [null] from [undefined] from the empty string
      where they test such a value ([if (x)], [x || y], [!x]), which is
      [truthy_opt].
    - An object used as a dictionary ([lastBlockValues], the conversations
      map) is a [gmap] over its own properties. Reading [lastBlockValues]
      at a label that is no own property but names a property of
      [Object.prototype] gives the inherited value, on which the
      formatters fail ([reads_inherited]); assigning a string to
      [__proto__] stores nothing ([block_values]).
    - File paths are built as [path.join] of [node:path] builds them on a
      POSIX system ([Path.join]).
    - Effects (files, HTTP requests, stdout, process exit) are threaded
      through the monad [M], which records them in order in a trace. *)

From Stdlib Require Import ZArith Ascii.
From stdpp Require Import base option list gmap strings.

Local Open Scope Z_scope.
Local Open Scope nat_scope.

(** ** JavaScript primitives used by the scripts *)

Module Js.

(** [if (s)] on a string: every string but the empty one is truthy. *)
Definition truthy (s : string) : bool :=
  match s with
  | EmptyString => false
  | String _ _ => true
  end.

(** [if (x)] on a [string | null | undefined]. *)
Definition truthy_opt (o : option string) : bool :=
  match o with
  | Some s => truthy s
  | None => false
  end.

(** [a || b] *)
Definition or_else (a b : option string) : option string :=
  if truthy_opt a then a else b.

(** [a || null] *)
Definition or_null (a : option string) : option string :=
  or_else a None.

(** [a || d] with a string default *)
Definition or_default (a : option string) (d : string) : string :=
  match a with
  | Some s => if truthy s then s else d
  | None => d
  end.

Definition newline : ascii := ascii_of_nat 10.

(** [s.split('\n')]: never empty, one more piece than there are
    separators. *)
Fixpoint split_lines (s : string) : list string :=
  match s with
  | EmptyString => [EmptyString]
  | String c r =>
      if decide (c = newline) then EmptyString :: split_lines r
      else match split_lines r with
           | h :: t => String c h :: t
           | [] => [String c EmptyString]
           end
  end.

(** The white space and line terminators of ECMAScript among the code
    units below 256: TAB, LF, VT, FF, CR, SP and NBSP. *)
Definition is_white_space (c : ascii) : bool :=
  let n := nat_of_ascii c in
  (9 <=? n) && (n <=? 13) || (n =? 32) || (n =? 160).

Fixpoint trimStart (s : string) : string :=
  match s with
  | EmptyString => EmptyString
  | String c r => if is_white_space c then trimStart r else s
  end.

Fixpoint trimEnd (s : string) : string :=
  match s with
  | EmptyString => EmptyString
  | String c r =>
      match trimEnd r with
      | EmptyString => if is_white_space c then EmptyString else String c EmptyString
      | r' => String c r'
      end
  end.

(** [s.trim()] *)
Definition trim (s : string) : string := trimEnd (trimStart s).

(** [arr.findIndex(p)], with [None] for the [-1] of a failed search. *)
Definition findIndex {A} (p : A → bool) (l : list A) : option nat :=
  fst <$> list_find (λ x, p x = true) l.

(** [Array.from(new Set(l))]: the elements in order of first insertion. *)
Fixpoint set_to_array (l : list string) : list string :=
  match l with
  | [] => []
  | x :: r => x :: filter (λ y, y ≠ x) (set_to_array r)
  end.

(** The properties a plain object inherits from [Object.prototype]. *)
Definition object_prototype_properties : list string :=
  ["constructor"; "__defineGetter__"; "__defineSetter__"; "hasOwnProperty";
   "__lookupGetter__"; "__lookupSetter__"; "isPrototypeOf"; "propertyIsEnumerable";
   "toString"; "valueOf"; "__proto__"; "toLocaleString"].

(** [obj[k]] reads through the prototype chain: for a [k] that is no own
    property of a plain object [obj] but one of these, it gives a
    function or an object instead of [undefined]. *)
Definition inherited (k : string) : bool := bool_decide (k ∈ object_prototype_properties).

End Js.

(** ** Wire and record types *)

(** [LettaMessage]: one entry of the remote message feed. *)
Record LettaMessage := {
  id : string;
  message_type : string;
  content : option string;
  text : option string;
  date : option string;
}.

(** [MessageInfo]: a message as handed to the consumer. *)
Record MessageInfo := {
  mi_id : string;
  mi_text : string;
  mi_date : option string;
}.

(** [MemoryBlock] ([pretool_sync.ts] declares the same shape without the
    description). *)
Record MemoryBlock := {
  label : string;
  description : string;
  value : string;
}.

(** [Agent]; [blocks] may be missing from the reply, which the callers
    guard with [agent.blocks || []]. *)
Record Agent := {
  agent_id : string;
  agent_name : string;
  agent_description : option string;
  blocks : option (list MemoryBlock);
}.

(** [SyncState], the per-session record on disk. *)
Record SyncState := {
  lastProcessedIndex : Z;
  sessionId : string;
  conversationId : option string;
  lastBlockValues : option (gmap string string);
  lastSeenMessageId : option string;
}.

(** [ConversationEntry] *)
Record ConversationEntry := {
  ce_conversationId : string;
  ce_agentId : string;
}.

(** A value of the conversations map: [string | ConversationEntry]. *)
Inductive ConversationsMapValue :=
  | Legacy (conversationId : string)
  | Current (entry : ConversationEntry).

Global Instance LettaMessage_eq_dec : EqDecision LettaMessage.
Proof. solve_decision. Defined.
Global Instance MessageInfo_eq_dec : EqDecision MessageInfo.
Proof. solve_decision. Defined.
Global Instance MemoryBlock_eq_dec : EqDecision MemoryBlock.
Proof. solve_decision. Defined.
Global Instance ConversationEntry_eq_dec : EqDecision ConversationEntry.
Proof. solve_decision. Defined.
Global Instance ConversationsMapValue_eq_dec : EqDecision ConversationsMapValue.
Proof. solve_decision. Defined.

(** ** The world the scripts run in *)

(** What [fetch] yields: a rejected promise, a reply that is not [ok], or
    a 2xx reply with its decoded JSON body. *)
Inductive response (A : Type) : Type :=
  | NetworkError
  | HttpError (status : nat)
  | HttpOk (body : A).
Arguments NetworkError {A}.
Arguments HttpError {A} status.
Arguments HttpOk {A} body.

(** The remote agent service, as far as the scripts talk to it. *)
Record Remote := {
  get_agent : string → response Agent;
  get_messages : string → response (list LettaMessage);
  post_conversation : string → response string;
}.

(** A file, by what reading and decoding it gives. [Garbage] is content
    that [JSON.parse] rejects. *)
Inductive file :=
  | StateFile (s : SyncState)
  | ConversationsFile (m : gmap string ConversationsMapValue)
  | TextFile (content : string)
  | Garbage.

(** Status attribute of a reported block. *)
Inductive BlockStatus := StatusNew | StatusModified.

(** Body of a reported block, as the hook writes it between the tags of
    the block: the full value, or the removed and added lines. *)
Inductive BlockBody :=
  | FullValue (v : string)
  | DiffLines (removed added : list string).

Record BlockReport := {
  br_label : string;
  br_status : BlockStatus;
  br_body : BlockBody;
}.

(** The delta handed to the consumer on stdout, before it is rendered as
    text: the messages and the reported blocks. *)
Record Delta := {
  delta_messages : list MessageInfo;
  delta_blocks : list BlockReport;
}.

(** The payload file written for the background worker. *)
Record WorkerPayload := {
  wp_conversationId : string;
  wp_sessionId : string;
  wp_prompt : string;
  wp_stateFile : string;
  wp_newLastProcessedIndex : Z;
}.

(** Observable effects, in the order they happen. *)
Inductive event :=
  | GetAgent (agentId : string)
  | GetMessages (conversationId : string)
  | PostConversation (agentId : string)
  | SaveSyncState (path : string) (s : SyncState)
  | SaveConversationsMap (path : string) (m : gmap string ConversationsMapValue)
  | UpdateClaudeMd (projectDir : string) (a : Agent) (conversationId : option string)
  | ConsoleLog (d : Delta)
  | ConsoleError (msg : string)
  | SpawnWorker (p : WorkerPayload).

Record World := {
  remote : Remote;
  disk : gmap string file;
  trace : list event;
}.

(** How a computation ends: with a value, with a thrown error (a rejected
    promise), or with [process.exit]. *)
Inductive outcome (A : Type) : Type :=
  | Return (a : A)
  | Throw (msg : string)
  | Exit (code : Z).
Arguments Return {A} a.
Arguments Throw {A} msg.
Arguments Exit {A} code.

Definition M (A : Type) : Type := World → outcome A * World.

Global Instance M_ret : MRet M := λ A a w, (Return a, w).

Global Instance M_bind : MBind M := λ A B f m w,
  match m w with
  | (Return a, w') => f a w'
  | (Throw e, w') => (Throw e, w')
  | (Exit c, w') => (Exit c, w')
  end.

Global Instance M_fmap : FMap M := λ A B f m, a ← m; mret (f a).

Definition throw {A} (msg : string) : M A := λ w, (Throw msg, w).

(** [process.exit(code)] *)
Definition process_exit {A} (code : Z) : M A := λ w, (Exit code, w).

(** [try { m } catch (e) { h e }]; [process.exit] is not catchable. *)
Definition try_catch {A} (m : M A) (h : string → M A) : M A := λ w,
  match m w with
  | (Throw e, w') => h e w'
  | r => r
  end.

Definition emit (e : event) : M unit := λ w,
  (Return (), {| remote := remote w; disk := disk w; trace := trace w ++ [e] |}).

Definition read_file (path : string) : M (option file) := λ w,
  (Return (disk w !! path), w).

Definition write_file (path : string) (f : file) : M unit := λ w,
  (Return (), {| remote := remote w; disk := <[path := f]> (disk w); trace := trace w |}).

Definition ask_remote : M Remote := λ w, (Return (remote w), w).

(** [Promise.all([a, b])]: both computations are started, in order, and
    the pair is delivered when neither failed; the first failure is the
    one reported. *)
Definition promise_all {A B} (a : M A) (b : M B) : M (A * B) := λ w,
  match a w with
  | (Exit c, w') => (Exit c, w')
  | (Return x, w') =>
      match b w' with
      | (Return y, w'') => (Return (x, y), w'')
      | (Throw e, w'') => (Throw e, w'')
      | (Exit c, w'') => (Exit c, w'')
      end
  | (Throw e, w') =>
      match b w' with
      | (Exit c, w'') => (Exit c, w'')
      | (_, w'') => (Throw e, w'')
      end
  end.

Definition run_result {A} (m : M A) (w : World) : outcome A := fst (m w).
Definition run_trace {A} (m : M A) (w : World) : list event := trace (snd (m w)).

(** [await fetch(url, ...)] followed by the test of [response.ok]: the
    request is recorded, a rejected promise is thrown on, and the caller
    gets the status of a failed reply or the body of a good one. *)
Definition fetch {A} (request : event) (reply : Remote → response A) : M (nat + A) :=
  _ ← emit request;
  r ← ask_remote;
  match reply r with
  | NetworkError => throw "fetch failed"
  | HttpError status => mret (inl status)
  | HttpOk body => mret (inr body)
  end.

Definition set_conversationId (c : option string) (s : SyncState) : SyncState :=
  {| lastProcessedIndex := lastProcessedIndex s; sessionId := sessionId s;
     conversationId := c; lastBlockValues := lastBlockValues s;
     lastSeenMessageId := lastSeenMessageId s |}.

Definition set_lastBlockValues (v : option (gmap string string)) (s : SyncState) : SyncState :=
  {| lastProcessedIndex := lastProcessedIndex s; sessionId := sessionId s;
     conversationId := conversationId s; lastBlockValues := v;
     lastSeenMessageId := lastSeenMessageId s |}.

Definition set_lastSeenMessageId (m : option string) (s : SyncState) : SyncState :=
  {| lastProcessedIndex := lastProcessedIndex s; sessionId := sessionId s;
     conversationId := conversationId s; lastBlockValues := lastBlockValues s;
     lastSeenMessageId := m |}.

(** ** scripts/conversation_utils.ts *)

(** ** [node:path], as on POSIX systems *)

Module Path.

(** [path.split('/')] *)
Fixpoint split (path : string) : list string :=
  match path with
  | EmptyString => [EmptyString]
  | String c r =>
      if decide (c = "/"%char) then EmptyString :: split r
      else match split r with
           | h :: t => String c h :: t
           | [] => [String c EmptyString]
           end
  end.

(** [segments.join('/')] *)
Fixpoint unsplit (segments : list string) : string :=
  match segments with
  | [] => EmptyString
  | [segment] => segment
  | segment :: rest => segment +:+ "/" +:+ unsplit rest
  end.

(** One segment of [normalizeString], [res] being the segments kept so
    far, the last one first: an empty segment and [.] are dropped, [..]
    removes the segment before it, or is kept when there is none to
    remove and the path is relative. *)
Definition normalize_segment (allowAboveRoot : bool) (res : list string) (segment : string)
  : list string :=
  if decide (segment = "") then res
  else if decide (segment = ".") then res
  else if decide (segment = "..") then
    match res with
    | last :: rest =>
        if decide (last = "..") then (if allowAboveRoot then segment :: res else res)
        else rest
    | [] => if allowAboveRoot then [segment] else []
    end
  else segment :: res.

Definition is_absolute (path : string) : bool :=
  match path with
  | String c _ => bool_decide (c = "/"%char)
  | EmptyString => false
  end.

Fixpoint has_trailing_separator (path : string) : bool :=
  match path with
  | EmptyString => false
  | String c EmptyString => bool_decide (c = "/"%char)
  | String _ r => has_trailing_separator r
  end.

(** [path.normalize(path)] *)
Definition normalize (path : string) : string :=
  if decide (path = "") then "."
  else
    let isAbsolute := is_absolute path in
    let trailingSeparator := has_trailing_separator path in
    let path :=
      unsplit (reverse (foldl (normalize_segment (negb isAbsolute)) [] (split path))) in
    if decide (path = "") then
      if isAbsolute then "/" else if trailingSeparator then "./" else "."
    else
      (if isAbsolute then "/" else "") +:+ path +:+ (if trailingSeparator then "/" else "").

(** [path.join(...paths)]: the arguments that are not empty, joined by
    [/] and normalized. *)
Definition join (paths : list string) : string :=
  match filter (λ p, p ≠ "") paths with
  | [] => "."
  | parts => normalize (unsplit parts)
  end.

End Path.

Module ConversationUtils.

(** [path.join(a, b)] *)
Definition path_join (a b : string) : string := Path.join [a; b].

Definition getDurableStateDir (cwd : string) : string :=
  Path.join [cwd; ".letta"; "claude"].

Definition getConversationsFile (cwd : string) : string :=
  path_join (getDurableStateDir cwd) "conversations.json".

Definition getSyncStateFile (cwd sessionId : string) : string :=
  path_join (getDurableStateDir cwd) ("session-" +:+ sessionId +:+ ".json").

(** [loadSyncState]: the decoded file when there is one, a fresh record
    otherwise. A file that does not decode to a [SyncState] is treated as
    one that does not parse. *)
Definition loadSyncState (cwd sessionId : string) : M SyncState :=
  let statePath := getSyncStateFile cwd sessionId in
  f ← read_file statePath;
  match f with
  | Some (StateFile state) => mret state
  | _ => mret {| lastProcessedIndex := (-1)%Z; sessionId := sessionId;
                 conversationId := None; lastBlockValues := None;
                 lastSeenMessageId := None |}
  end.

(** [saveSyncState]: a full overwrite of the session's file. *)
Definition saveSyncState (cwd : string) (state : SyncState) : M unit :=
  let statePath := getSyncStateFile cwd (sessionId state) in
  _ ← write_file statePath (StateFile state);
  emit (SaveSyncState statePath state).

Definition loadConversationsMap (cwd : string) : M (gmap string ConversationsMapValue) :=
  f ← read_file (getConversationsFile cwd);
  match f with
  | Some (ConversationsFile m) => mret m
  | _ => mret ∅
  end.

Definition saveConversationsMap (cwd : string) (map : gmap string ConversationsMapValue) : M unit :=
  _ ← write_file (getConversationsFile cwd) (ConversationsFile map);
  emit (SaveConversationsMap (getConversationsFile cwd) map).

(** [createConversation]: a reply that is not [ok] is thrown. *)
Definition createConversation (apiKey agentId : string) : M string :=
  r ← fetch (PostConversation agentId) (λ rm, post_conversation rm agentId);
  match r with
  | inl _ => throw "Failed to create conversation"
  | inr conversation_id => mret conversation_id
  end.

(** [if (cached)] on a value of the conversations map. *)
Definition cached_truthy (cached : option ConversationsMapValue) : bool :=
  match cached with
  | None => false
  | Some (Legacy c) => Js.truthy c
  | Some (Current _) => true
  end.

(** The view [{conversationId, agentId}] taken of a cached value, with
    [agentId: null] for the old format. *)
Definition entry_of (cached : ConversationsMapValue) : string * option string :=
  match cached with
  | Legacy c => (c, None)
  | Current e => (ce_conversationId e, Some (ce_agentId e))
  end.

(** [getOrCreateConversation]; the record [state] is updated in place by
    the script, so the updated record is returned with the identifier. *)
Definition getOrCreateConversation
    (apiKey agentId sessionId cwd : string) (state : SyncState) : M (string * SyncState) :=
  match Js.or_null (conversationId state) with
  | Some c => mret (c, state)
  | None =>
      conversationsMap ← loadConversationsMap cwd;
      let cached := conversationsMap !! sessionId in
      let recreate (conversationsMap : gmap string ConversationsMapValue) :=
        conversationId ← createConversation apiKey agentId;
        let conversationsMap :=
          <[sessionId := Current {| ce_conversationId := conversationId;
                                    ce_agentId := agentId |}]> conversationsMap in
        _ ← saveConversationsMap cwd conversationsMap;
        mret (conversationId, set_conversationId (Some conversationId) state) in
      match cached with
      | Some c =>
          if cached_truthy cached then
            let entry := entry_of c in
            if Js.truthy_opt (snd entry) && negb (bool_decide (snd entry = Some agentId)) then
              recreate (delete sessionId conversationsMap)
            else if negb (Js.truthy_opt (snd entry)) then
              recreate (delete sessionId conversationsMap)
            else
              mret (fst entry, set_conversationId (Some (fst entry)) state)
          else recreate conversationsMap
      | None => recreate conversationsMap
      end
  end.

(** [lookupConversation]: the lookup-only variant. *)
Definition lookupConversation (cwd sessionId : string) : M (option string) :=
  f ← read_file (getConversationsFile cwd);
  match f with
  | Some (ConversationsFile conversationsMap) =>
      let cached := conversationsMap !! sessionId in
      match cached with
      | Some c => if cached_truthy cached then mret (Some (fst (entry_of c))) else mret None
      | None => mret None
      end
  | _ => mret None
  end.

(** [fetchAgent]: a reply that is not [ok] is thrown. *)
Definition fetchAgent (apiKey agentId : string) : M Agent :=
  r ← fetch (GetAgent agentId) (λ rm, get_agent rm agentId);
  match r with
  | inl _ => throw "Letta API error"
  | inr agent => mret agent
  end.

End ConversationUtils.

(** ** scripts/conversation_utils.ts: XML escaping *)

Module Xml.

(** [s.replace(/c/g, by)] for a pattern that is the single character
    [c]. *)
Fixpoint replace_all (c : ascii) (by_ : string) (s : string) : string :=
  match s with
  | EmptyString => EmptyString
  | String d r =>
      if decide (d = c) then by_ +:+ replace_all c by_ r
      else String d (replace_all c by_ r)
  end.

Definition quote : ascii := ascii_of_nat 34.

Definition escapeXmlAttribute (str : string) : string :=
  replace_all Js.newline " "
    (replace_all ">" "&gt;"
       (replace_all "<" "&lt;"
          (replace_all "'" "&apos;"
             (replace_all quote "&quot;"
                (replace_all "&" "&amp;" str))))).

Definition escapeXmlContent (str : string) : string :=
  replace_all ">" "&gt;" (replace_all "<" "&lt;" (replace_all "&" "&amp;" str)).

End Xml.

(** What a hook script reads from stdin; every field may be missing. *)
Record HookInput := {
  session_id : option string;
  cwd : option string;
  prompt : option string;
  transcript_path : option string;
}.

(** The process environment of one invocation. [getAgentId] lives in
    [agent_config.js], which is not part of the scripts embedded here: it
    is taken as the outcome it has, a value or a failure. *)
Record Env := {
  LETTA_API_KEY : option string;
  projectDir : string;
  getAgentId : string → outcome string;
  readHookInput : option HookInput;
}.

Definition lift_outcome {A} (o : outcome A) : M A := λ w, (o, w).

(** [obj[block.label] = block.value] for every block, starting from [{}].
    The mapping holds the own properties of the object. An assignment to
    [__proto__] goes to the setter the object inherits, which ignores a
    string: nothing is stored for a block of that label. *)
Definition block_values (blocks : list MemoryBlock) : gmap string string :=
  foldl (λ (m : gmap string string) block,
           if decide (label block = "__proto__") then m
           else <[label block := value block]> m) ∅ blocks.

(** The lines a diff compares:
    [v.split('\n').map(l => l.trim()).filter(l => l)]. *)
Definition diff_lines (v : string) : list string :=
  filter (λ l, Js.truthy l) (Js.trim <$> Js.split_lines v).

(** [lastBlockValues?.[block.label]] gives something that is not a string
    and not [undefined]: the label is no key of the mapping but names a
    property of [Object.prototype]. The block is then not taken for a new
    one, and the [split] the diff of its values starts with fails with a
    TypeError. *)
Definition reads_inherited
    (lastBlockValues : option (gmap string string)) (block : MemoryBlock) : bool :=
  match lastBlockValues with
  | Some m => bool_decide (m !! label block = None) && Js.inherited (label block)
  | None => false
  end.

(** ** scripts/sync_letta_memory.ts *)

Module SyncLettaMemory.

(** [countTranscriptLines]; only text files are given a content. *)
Definition countTranscriptLines (transcriptPath : string) : M nat :=
  f ← read_file transcriptPath;
  match f with
  | Some (TextFile content) =>
      mret (length (filter (λ line, Js.truthy (Js.trim line)) (Js.split_lines content)))
  | _ => mret 0
  end.

Definition detectChangedBlocks
    (currentBlocks : list MemoryBlock) (lastBlockValues : option (gmap string string))
  : list MemoryBlock :=
  match lastBlockValues with
  | None => []
  | Some lastBlockValues =>
      filter (λ block,
                Is_true match lastBlockValues !! label block with
                        | None => true
                        | Some previousValue => negb (bool_decide (previousValue = value block))
                        end) currentBlocks
  end.

Record Diff := { added : list string; removed : list string }.

Definition computeDiff (oldValue newValue : string) : Diff :=
  let oldLines := diff_lines oldValue in
  let newLines := diff_lines newValue in
  let oldSet : gset string := list_to_set oldLines in
  let newSet : gset string := list_to_set newLines in
  let added := filter (λ line, line ∉ oldSet) newLines in
  let removed := filter (λ line, line ∉ newSet) oldLines in
  {| added := added; removed := removed |}.

(** [formatChangedBlocksForStdout] fails with a TypeError when the lookup
    of the previous value of a changed block gives an inherited
    property. *)
Definition formatChangedBlocksForStdout_throws
    (changedBlocks : list MemoryBlock) (lastBlockValues : option (gmap string string))
  : bool :=
  existsb (reads_inherited lastBlockValues) changedBlocks.

(** What [formatChangedBlocksForStdout] returns when it does not fail: for
    every changed block the label, the status and the text put between
    the tags, which is the escaped value or the escaped lines of the
    diff. The tags and the [-] and [+] marks of the lines are left to
    the rendering. *)
Definition formatChangedBlocksForStdout
    (changedBlocks : list MemoryBlock) (lastBlockValues : option (gmap string string))
  : list BlockReport :=
  (λ block,
     match lastBlockValues ≫= (λ m, m !! label block) with
     | None =>
         let escapedContent := Xml.escapeXmlContent (value block) in
         {| br_label := label block; br_status := StatusNew;
            br_body := FullValue escapedContent |}
     | Some previousValue =>
         let diff := computeDiff previousValue (value block) in
         match added diff, removed diff with
         | [], [] =>
             let escapedContent := Xml.escapeXmlContent (value block) in
             {| br_label := label block; br_status := StatusModified;
                br_body := FullValue escapedContent |}
         | _, _ =>
             {| br_label := label block; br_status := StatusModified;
                br_body := DiffLines (Xml.escapeXmlContent <$> removed diff)
                                     (Xml.escapeXmlContent <$> added diff) |}
         end
     end) <$> changedBlocks.

(** The message handed on for a feed entry, when it carries a text:
    the body of the loop that fills [newMessages]. *)
Definition toMessageInfo (msg : LettaMessage) : option MessageInfo :=
  let text := Js.or_else (content msg) (text msg) in
  match Js.or_null text with
  | Some text => Some {| mi_id := id msg; mi_text := text; mi_date := Js.or_null (date msg) |}
  | None => None
  end.

(** The part of [fetchAssistantMessages] that follows
    [await response.json()]. *)
Definition newSince (allMessages : list LettaMessage) (lastSeenMessageId : option string)
  : list MessageInfo * option string :=
  let assistantMessages :=
    filter (λ msg, message_type msg = "assistant_message") allMessages in
  let endIndex := length assistantMessages in
  let endIndex :=
    if Js.truthy_opt lastSeenMessageId then
      match Js.findIndex (λ msg, bool_decide (Some (id msg) = lastSeenMessageId))
                         assistantMessages with
      | Some lastSeenIndex => lastSeenIndex
      | None => endIndex
      end
    else endIndex in
  let newMessages := omap toMessageInfo (take endIndex assistantMessages) in
  let lastMessageId :=
    match assistantMessages with
    | msg :: _ => Some (id msg)
    | [] => lastSeenMessageId
    end in
  (newMessages, lastMessageId).

Definition fetchAssistantMessages
    (apiKey : string) (conversationId lastSeenMessageId : option string)
  : M (list MessageInfo * option string) :=
  match Js.or_null conversationId with
  | None => mret ([], None)
  | Some conversationId =>
      r ← fetch (GetMessages conversationId) (λ rm, get_messages rm conversationId);
      match r with
      | inl _ => mret ([], lastSeenMessageId)
      | inr allMessages => mret (newSince allMessages lastSeenMessageId)
      end
  end.

(** [main] of the UserPromptSubmit hook. *)
Definition main (env : Env) : M unit :=
  match Js.or_null (LETTA_API_KEY env) with
  | None =>
      _ ← emit (ConsoleError "Error: LETTA_API_KEY environment variable is not set");
      process_exit 1
  | Some apiKey =>
      try_catch
        (agentId ← lift_outcome (getAgentId env apiKey);
         let hookInput := readHookInput env in
         let cwd := Js.or_default (hookInput ≫= cwd) (projectDir env) in
         let sessionId := Js.or_null (hookInput ≫= session_id) in
         (* Load state using shared utility *)
         state ← match sessionId with
                 | Some sessionId => Some <$> ConversationUtils.loadSyncState cwd sessionId
                 | None => mret None
                 end;
         (* Recover conversationId from conversations.json *)
         let conversationId := Js.or_null (state ≫= conversationId) in
         '(conversationId, state) ←
           match Js.or_null conversationId, sessionId with
           | None, Some sessionId =>
               conversationId ← ConversationUtils.lookupConversation cwd sessionId;
               mret (conversationId,
                     match Js.or_null conversationId, state with
                     | Some _, Some st => Some (set_conversationId conversationId st)
                     | _, _ => state
                     end)
           | _, _ => mret (conversationId, state)
           end;
         let lastBlockValues := state ≫= lastBlockValues in
         let lastSeenMessageId := Js.or_null (state ≫= lastSeenMessageId) in
         (* Fetch agent data and messages in parallel *)
         '(agent, messagesResult) ←
           promise_all (ConversationUtils.fetchAgent apiKey agentId)
                       (fetchAssistantMessages apiKey conversationId lastSeenMessageId);
         let '(newMessages, lastMessageId) := messagesResult in
         let changedBlocks := detectChangedBlocks (default [] (blocks agent)) lastBlockValues in
         (* Update CLAUDE.md with full memory blocks *)
         _ ← emit (UpdateClaudeMd cwd agent conversationId);
         (* Update state with block values and last seen message ID *)
         let state :=
           match state with
           | Some st =>
               let st := set_lastBlockValues
                           (Some (block_values (default [] (blocks agent)))) st in
               Some (if Js.truthy_opt lastMessageId
                     then set_lastSeenMessageId lastMessageId st else st)
           | None => None
           end in
         (* Output to stdout *)
         _ ← (if formatChangedBlocksForStdout_throws changedBlocks lastBlockValues
              then throw "oldValue.split is not a function" else mret ());
         let changedBlocksOutput := formatChangedBlocksForStdout changedBlocks lastBlockValues in
         _ ← emit (ConsoleLog {| delta_messages := newMessages;
                                 delta_blocks := changedBlocksOutput |});
         (* Send user prompt to Letta early; the only step of the inner
            [try] that can fail here is the resolution of the conversation,
            which fails before it touches [state] *)
         state ←
           match sessionId, Js.or_null (hookInput ≫= prompt), state with
           | Some sessionId, Some prompt, Some st =>
               try_catch
                 ('(convId, st) ←
                    ConversationUtils.getOrCreateConversation apiKey agentId sessionId cwd st;
                  transcriptLength ←
                    match Js.or_null (hookInput ≫= transcript_path) with
                    | Some transcript_path => countTranscriptLines transcript_path
                    | None => mret 0
                    end;
                  _ ← emit (SpawnWorker
                        {| wp_conversationId := convId;
                           wp_sessionId := sessionId;
                           wp_prompt := prompt;
                           wp_stateFile := ConversationUtils.getSyncStateFile cwd sessionId;
                           wp_newLastProcessedIndex :=
                             if 0 <? transcriptLength
                             then (Z.of_nat transcriptLength - 1)%Z else 0%Z |});
                  mret (Some st))
                 (λ promptError,
                    _ ← emit (ConsoleError ("Warning: Failed to send prompt to Letta: "
                                            +:+ promptError));
                    mret (Some st))
           | _, _, _ => mret state
           end;
         (* Save state *)
         match state, sessionId with
         | Some st, Some _ => ConversationUtils.saveSyncState cwd st
         | _, _ => mret ()
         end)
        (λ error,
           _ ← emit (ConsoleError ("Error syncing Letta memory: " +:+ error));
           process_exit 1)
  end.

End SyncLettaMemory.

(** ** scripts/pretool_sync.ts *)

Module PretoolSync.

Definition fetchAgent (apiKey agentId : string) : M Agent :=
  r ← fetch (GetAgent agentId) (λ rm, get_agent rm agentId);
  match r with
  | inl _ => throw "Letta API error"
  | inr agent => mret agent
  end.

(** The body of the loop that fills [newMessages]. *)
Definition toMessageInfo (msg : LettaMessage) : option MessageInfo :=
  let text := Js.or_else (content msg) (text msg) in
  match Js.or_null text with
  | Some text => Some {| mi_id := id msg; mi_text := text; mi_date := Js.or_null (date msg) |}
  | None => None
  end.

(** The part of [fetchNewMessages] that follows [await response.json()]. *)
Definition newSince (allMessages : list LettaMessage) (lastSeenMessageId : option string)
  : list MessageInfo * option string :=
  let assistantMessages :=
    filter (λ msg, message_type msg = "assistant_message") allMessages in
  let endIndex := length assistantMessages in
  let endIndex :=
    if Js.truthy_opt lastSeenMessageId then
      match Js.findIndex (λ msg, bool_decide (Some (id msg) = lastSeenMessageId))
                         assistantMessages with
      | Some lastSeenIndex => lastSeenIndex
      | None => endIndex
      end
    else endIndex in
  let newMessages := omap toMessageInfo (take endIndex assistantMessages) in
  let lastMessageId :=
    match assistantMessages with
    | msg :: _ => Some (id msg)
    | [] => lastSeenMessageId
    end in
  (newMessages, lastMessageId).

Definition fetchNewMessages
    (apiKey : string) (conversationId lastSeenMessageId : option string)
  : M (list MessageInfo * option string) :=
  match Js.or_null conversationId with
  | None => mret ([], None)
  | Some conversationId =>
      r ← fetch (GetMessages conversationId) (λ rm, get_messages rm conversationId);
      match r with
      | inl _ => mret ([], lastSeenMessageId)
      | inr allMessages => mret (newSince allMessages lastSeenMessageId)
      end
  end.

Definition detectChangedBlocks
    (currentBlocks : list MemoryBlock) (lastBlockValues : option (gmap string string))
  : list MemoryBlock :=
  match lastBlockValues with
  | None => []
  | Some lastBlockValues =>
      filter (λ block,
                Is_true match lastBlockValues !! label block with
                        | None => true
                        | Some previousValue => negb (bool_decide (previousValue = value block))
                        end) currentBlocks
  end.

(** [formatOutput] fails with a TypeError when the lookup of the previous
    value of a changed block gives an inherited property. *)
Definition formatOutput_throws
    (changedBlocks : list MemoryBlock) (lastBlockValues : option (gmap string string))
  : bool :=
  existsb (reads_inherited lastBlockValues) changedBlocks.

(** What [formatOutput] returns when it does not fail: the messages as
    they are, and for every changed block the label, the status and the
    text put between the tags, which is the value or the lines of the
    diff as they are, not escaped. The tags and the [-] and [+] marks of
    the lines are left to the rendering. *)
Definition formatOutput
    (messages : list MessageInfo) (changedBlocks : list MemoryBlock)
    (lastBlockValues : option (gmap string string)) : Delta :=
  let blockParts :=
    (λ block,
       match lastBlockValues ≫= (λ m, m !! label block) with
       | None =>
           {| br_label := label block; br_status := StatusNew;
              br_body := FullValue (value block) |}
       | Some previousValue =>
           let oldLines : gset string := list_to_set (diff_lines previousValue) in
           let newLines := diff_lines (value block) in
           let added := filter (λ line, line ∉ oldLines) newLines in
           let removed :=
             filter (λ line, line ∉ newLines)
                    (Js.set_to_array (diff_lines previousValue)) in
           match added, removed with
           | [], [] =>
               {| br_label := label block; br_status := StatusModified;
                  br_body := FullValue (value block) |}
           | _, _ =>
               {| br_label := label block; br_status := StatusModified;
                  br_body := DiffLines removed added |}
           end
       end) <$> changedBlocks in
  {| delta_messages := messages; delta_blocks := blockParts |}.

(** [main] of the PreToolUse hook. *)
Definition main (env : Env) : M unit :=
  match Js.or_null (LETTA_API_KEY env) with
  | None => process_exit 0
  | Some apiKey =>
      try_catch
        (let hookInput := readHookInput env in
         match Js.or_null (hookInput ≫= session_id), Js.or_null (hookInput ≫= cwd) with
         | Some session_id, Some cwd =>
             (* Load state *)
             state ← ConversationUtils.loadSyncState cwd session_id;
             (* Need existing state to detect changes *)
             if negb (bool_decide (is_Some (lastBlockValues state)))
                && negb (Js.truthy_opt (lastSeenMessageId state))
             then process_exit 0
             else
               agentId ← lift_outcome (getAgentId env apiKey);
               (* Get conversation ID *)
               conversationId ←
                 match Js.or_null (conversationId state) with
                 | Some c => mret (Some c)
                 | None => ConversationUtils.lookupConversation cwd session_id
                 end;
               (* Fetch current state from Letta *)
               '(agent, messagesResult) ←
                 promise_all (fetchAgent apiKey agentId)
                             (fetchNewMessages apiKey conversationId
                                               (Js.or_null (lastSeenMessageId state)));
               let '(newMessages, lastMessageId) := messagesResult in
               let changedBlocks :=
                 detectChangedBlocks (default [] (blocks agent)) (lastBlockValues state) in
               (* If nothing changed, exit silently *)
               match newMessages, changedBlocks with
               | [], [] => process_exit 0
               | _, _ =>
                   (* Format and output *)
                   _ ← (if formatOutput_throws changedBlocks (lastBlockValues state)
                        then throw "previousValue.split is not a function"
                        else mret ());
                   let additionalContext :=
                     formatOutput newMessages changedBlocks (lastBlockValues state) in
                   (* Update state *)
                   let state :=
                     if Js.truthy_opt lastMessageId
                     then set_lastSeenMessageId lastMessageId state else state in
                   let state :=
                     match blocks agent with
                     | Some blocks => set_lastBlockValues (Some (block_values blocks)) state
                     | None => state
                     end in
                   _ ← ConversationUtils.saveSyncState cwd state;
                   (* Output JSON for PreToolUse *)
                   emit (ConsoleLog additionalContext)
               end
         | _, _ => process_exit 0
         end)
        (λ error, process_exit 0)
  end.

End PretoolSync.

(** ** Reading a trace *)

(** A fresh invocation: nothing has happened yet. *)
Definition init_world (r : Remote) (d : gmap string file) : World :=
  {| remote := r; disk := d; trace := [] |}.

Definition is_ConsoleLog (e : event) : bool :=
  match e with ConsoleLog _ => true | _ => false end.

Definition is_SaveSyncState (e : event) : bool :=
  match e with SaveSyncState _ _ => true | _ => false end.

Definition is_PostConversation (e : event) : bool :=
  match e with PostConversation _ => true | _ => false end.

(** [before p q tr]: every event of [tr] that satisfies [q] comes after
    an event that satisfies [p]. *)
Fixpoint before (p q : event → bool) (tr : list event) : bool :=
  match tr with
  | [] => true
  | e :: tr' => if p e then true else negb (q e) && before p q tr'
  end.

(** Persist-after-emit: the session record is only saved once the delta
    is on stdout. *)
Definition emit_before_persist (tr : list event) : bool :=
  before is_ConsoleLog is_SaveSyncState tr.

(** Persist-before-emit: the delta only reaches stdout once the session
    record is saved. *)
Definition persist_before_emit (tr : list event) : bool :=
  before is_SaveSyncState is_ConsoleLog tr.

(** ** Sample data *)

Module Sample.

Definition nl : string := String Js.newline EmptyString.

Definition msg (i : string) : LettaMessage :=
  {| id := i; message_type := "assistant_message";
     content := Some ("text of " +:+ i); text := None; date := None |}.

Definition info (i : string) : MessageInfo :=
  {| mi_id := i; mi_text := "text of " +:+ i; mi_date := None |}.

(** The feed [m5, m4, m3, m2, m1], newest first. *)
Definition feed5 : list LettaMessage :=
  [msg "m5"; msg "m4"; msg "m3"; msg "m2"; msg "m1"].

(** An assistant message whose content is not a text. *)
Definition textless (i : string) : LettaMessage :=
  {| id := i; message_type := "assistant_message";
     content := None; text := None; date := None |}.

(** A feed whose newest message has the empty string for an id. *)
Definition feed_empty_id : list LettaMessage := [msg ""; msg "m1"].

Definition persona (v : string) : MemoryBlock :=
  {| label := "persona"; description := "who the user is"; value := v |}.

Definition agent (bs : list MemoryBlock) : Agent :=
  {| agent_id := "agent-B"; agent_name := "Sub"; agent_description := None;
     blocks := Some bs |}.

Definition remote_of (a : Agent) (feed : response (list LettaMessage)) : Remote :=
  {| get_agent := λ _, HttpOk a;
     get_messages := λ _, feed;
     post_conversation := λ _, HttpOk "conv-new" |}.

Definition state (c : option string) (vs : option (gmap string string))
    (seen : option string) : SyncState :=
  {| lastProcessedIndex := 3; sessionId := "s1"; conversationId := c;
     lastBlockValues := vs; lastSeenMessageId := seen |}.

Definition hook : HookInput :=
  {| session_id := Some "s1"; cwd := Some "/proj"; prompt := None;
     transcript_path := None |}.

Definition env : Env :=
  {| LETTA_API_KEY := Some "key"; projectDir := "/proj";
     getAgentId := λ _, Return "agent-B"; readHookInput := Some hook |}.

Definition state_path : string := ConversationUtils.getSyncStateFile "/proj" "s1".
Definition conversations_path : string := ConversationUtils.getConversationsFile "/proj".

(** A session that has been synced once: bound to [conv-A], one block
    known, message [m3] seen. *)
Definition synced : SyncState :=
  state (Some "conv-A") (Some {[ "persona" := "likes cats" ]}) (Some "m3").

Definition disk_synced : gmap string file := {[ state_path := StateFile synced ]}.

(** The remote now holds a longer block and two newer messages. *)
Definition remote_news : Remote :=
  remote_of (agent [persona ("likes cats" +:+ nl +:+ "likes dogs")]) (HttpOk feed5).

(** The remote answers the message fetch with a server error. *)
Definition remote_down : Remote :=
  remote_of (agent [persona ("likes cats" +:+ nl +:+ "likes dogs")]) (HttpError 500).

(** The remote refuses to create conversations. *)
Definition remote_failing_create : Remote :=
  {| get_agent := λ _, HttpOk (agent []);
     get_messages := λ _, HttpOk [];
     post_conversation := λ _, HttpError 503 |}.

(** The session is bound to [conv-A] under agent [agent-A]; the configured
    agent is now [agent-B]. *)
Definition table_A : gmap string ConversationsMapValue :=
  {[ "s1" := Current {| ce_conversationId := "conv-A"; ce_agentId := "agent-A" |} ]}.

Definition table_B : gmap string ConversationsMapValue :=
  {[ "s1" := Current {| ce_conversationId := "conv-B"; ce_agentId := "agent-B" |} ]}.


Definition disk_table (t : gmap string ConversationsMapValue) : gmap string file :=
  {[ conversations_path := ConversationsFile t ]}.

(** The previous snapshot held the blocks [persona] and [scratch]; the
    current one holds [persona] only. *)
Definition previous_two : gmap string string :=
  {[ "persona" := "likes cats"; "scratch" := "to do" ]}.

Definition current_one : list MemoryBlock := [persona "likes cats and dogs"].

Definition scratch (v : string) : MemoryBlock :=
  {| label := "scratch"; description := "working notes"; value := v |}.

(** A snapshot of two blocks with distinct labels. *)
Definition current_two : list MemoryBlock := [persona "likes cats"; scratch "to do"].

(** A session record that carries no conversation yet. *)
Definition unbound : SyncState := state None None None.

(** A session record bound to [conv-A]. *)
Definition bound_A : SyncState := state (Some "conv-A") None None.

End Sample.

(** ** Reading strings *)

(** [ls.join('\n')] *)
Fixpoint join_lines (ls : list string) : string :=
  match ls with
  | [] => EmptyString
  | [l] => l
  | l :: ls' => l +:+ String Js.newline (join_lines ls')
  end.

Fixpoint has_char (c : ascii) (s : string) : bool :=
  match s with
  | EmptyString => false
  | String d r => bool_decide (d = c) || has_char c r
  end.

Definition starts_with_space (s : string) : bool :=
  match s with
  | EmptyString => false
  | String c _ => Js.is_white_space c
  end.

Fixpoint ends_with_space (s : string) : bool :=
  match s with
  | EmptyString => false
  | String c EmptyString => Js.is_white_space c
  | String _ r => ends_with_space r
  end.

(** ** Reading a feed *)

(** The visible part of a feed: its assistant messages, in feed order. *)
Definition visible (feed : list LettaMessage) : list LettaMessage :=
  filter (λ msg, message_type msg = "assistant_message") feed.

(** The message carries a text: [msg.content || msg.text] is a non-empty
    string. *)
Definition has_text (msg : LettaMessage) : bool :=
  Js.truthy_opt (Js.or_else (content msg) (text msg)).

(** The world after one more event. *)
Definition after (w : World) (evs : list event) : World :=
  {| remote := remote w; disk := disk w; trace := trace w ++ evs |}.

(** ** Reasoning about what a computation adds to the trace *)

(** [appends m P]: whatever the world, [m] leaves the earlier trace in
    place and the events it adds satisfy [P]. *)
Definition appends {A} (m : M A) (P : list event → Prop) : Prop :=
  ∀ w, ∃ evs, trace (snd (m w)) = trace w ++ evs ∧ P evs.

(** No event of kind [q]. *)
Definition quiet (q : event → bool) (evs : list event) : Prop :=
  Forall (λ e, q e = false) evs.

(** Every [q] comes after a [p], and there is a [p]. *)
Definition fired (p q : event → bool) (evs : list event) : Prop :=
  before p q evs = true ∧ existsb p evs = true.

Definition anything : event → bool := λ _, false.

(** [m] adds no [q]. *)
Definition silent (q : event → bool) {A} (m : M A) : Prop := appends m (quiet q).

(** In what [m] adds, every [q] comes after a [p]. *)
Definition ordered (p q : event → bool) {A} (m : M A) : Prop :=
  appends m (λ evs, before p q evs = true).

(** ** Comparing a failed message fetch with an empty feed *)




(** ** Reading the binding table *)

(** The conversations map as [loadConversationsMap] finds it. *)
Definition conversations_of (w : World) (cwd : string) : gmap string ConversationsMapValue :=
  match disk w !! ConversationUtils.getConversationsFile cwd with
  | Some (ConversationsFile m) => m
  | _ => ∅
  end.


(** The conversation a session is already bound to, if any: the one its
    record carries, else the one of a binding whose recorded agent is the
    configured one. *)
Definition existing_conversation
    (agentId sessionId cwd : string) (state : SyncState) (w : World) : option string :=
  match Js.or_null (conversationId state) with
  | Some c => Some c
  | None =>
      match conversations_of w cwd !! sessionId with
      | Some (Current e) =>
          if Js.truthy (ce_agentId e) && bool_decide (ce_agentId e = agentId)
          then Some (ce_conversationId e) else None
      | _ => None
      end
  end.

(** ** Comparing the reports of the two hooks *)

(** A report in which every removed line is listed once, at its first
    occurrence. *)
Definition removed_once (r : BlockReport) : BlockReport :=
  match br_body r with
  | DiffLines removed added =>
      {| br_label := br_label r; br_status := br_status r;
         br_body := DiffLines (Js.set_to_array removed) added |}
  | FullValue _ => r
  end.

(** What [escapeXmlContent] makes of one character. *)
Definition content_entity (c : ascii) : string :=
  if decide (c = "&"%char) then "&amp;"
  else if decide (c = "<"%char) then "&lt;"
  else if decide (c = ">"%char) then "&gt;"
  else String c EmptyString.

(** What [escapeXmlAttribute] makes of one character. *)
Definition attribute_entity (c : ascii) : string :=
  if decide (c = "&"%char) then "&amp;"
  else if decide (c = Xml.quote) then "&quot;"
  else if decide (c = "'"%char) then "&apos;"
  else if decide (c = "<"%char) then "&lt;"
  else if decide (c = ">"%char) then "&gt;"
  else if decide (c = Js.newline) then " "
  else String c EmptyString.

Fixpoint concat_map (f : ascii → string) (s : string) : string :=
  match s with
  | EmptyString => EmptyString
  | String c r => f c +:+ concat_map f r
  end.

(** Reading escaped content back: the three entities of
    [escapeXmlContent] are replaced by the characters they stand for. The
    scripts have no such function; it serves to state that escaping loses
    nothing. *)
Fixpoint unescapeXmlContent (s : string) : string :=
  match s with
  | EmptyString => EmptyString
  | String c r =>
      if decide (c = "&"%char) then
        match r with
        | String "a" (String "m" (String "p" (String ";" r'))) =>
            String "&" (unescapeXmlContent r')
        | String "l" (String "t" (String ";" r')) => String "<" (unescapeXmlContent r')
        | String "g" (String "t" (String ";" r')) => String ">" (unescapeXmlContent r')
        | _ => String c (unescapeXmlContent r)
        end
      else String c (unescapeXmlContent r)
  end.

(** ** The earlier UserPromptSubmit script *)

(** The version of [sync_letta_memory.ts] that showed one message only. *)
Module SyncLettaMemoryEarlier.

Record LastMessageInfo := {
  lm_text : string;
  lm_date : option string;
}.

(** The loop of [fetchLastAssistantMessage], over the messages taken from
    the end of the array. *)
Fixpoint search_from_end (messages_from_end : list LettaMessage) : option LastMessageInfo :=
  match messages_from_end with
  | [] => None
  | msg :: earlier =>
      if decide (message_type msg = "assistant_message") then
        match Js.or_null (Js.or_else (content msg) (text msg)) with
        | Some text => Some {| lm_text := text; lm_date := Js.or_null (date msg) |}
        | None => search_from_end earlier
        end
      else search_from_end earlier
  end.

Definition fetchLastAssistantMessage (apiKey : string) (conversationId : option string)
  : M (option LastMessageInfo) :=
  match Js.or_null conversationId with
  | None => mret None
  | Some conversationId =>
      r ← fetch (GetMessages conversationId) (λ rm, get_messages rm conversationId);
      match r with
      | inl _ => mret None
      | inr messages => mret (search_from_end (reverse messages))
      end
  end.

End SyncLettaMemoryEarlier.

(** ** Reading how a script ends *)

(** [m] ends the process, if it does, with a code in [P]. *)
Definition exits_with (P : Z → Prop) {A} (m : M A) : Prop :=
  ∀ w c, fst (m w) = Exit c → P c.

(** From [w] to [w'] the remote is the same, the files outside [files]
    are the same, and the trace has grown by events that are not [q]. *)
Definition touches_only (files : string → Prop) (q : event → bool) (w w' : World) : Prop :=
  remote w' = remote w ∧
  (∀ path, ¬ files path → disk w' !! path = disk w !! path) ∧
  ∃ evs, trace w' = trace w ++ evs ∧ quiet q evs.

(** Against a remote in [R], that is all [m] does. *)
Definition confined (R : Remote → Prop) (files : string → Prop) (q : event → bool)
    {A} (m : M A) : Prop :=
  ∀ w, R (remote w) → touches_only files q w (snd (m w)).

Definition any_remote : Remote → Prop := λ _, True.
Definition no_file : string → Prop := λ _, False.

(** The session records of a project. *)
Definition session_records (cwd : string) (path : string) : Prop :=
  ∃ sessionId, path = ConversationUtils.getSyncStateFile cwd sessionId.

(** Against a remote in [R], [m] does not return. *)
Definition stuck_if (R : Remote → Prop) {A} (m : M A) : Prop :=
  ∀ w, R (remote w) → ∀ a, fst (m w) ≠ Return a.

(** The remote answers no agent fetch with a 2xx reply. *)
Definition agent_down (r : Remote) : Prop :=
  ∀ a agent, get_agent r a ≠ HttpOk agent.

(** The events that come after the remote has been read. *)
Definition is_output (e : event) : bool :=
  match e with
  | GetAgent _ | GetMessages _ | ConsoleError _ => false
  | _ => true
  end.

(** The events the PreToolUse hook is not meant to cause: creating a
    conversation, rewriting the conversations map or [CLAUDE.md], and
    starting a worker. *)
Definition is_foreign_to_pretool (e : event) : bool :=
  match e with
  | PostConversation _ | SaveConversationsMap _ _ | UpdateClaudeMd _ _ _ | SpawnWorker _ => true
  | _ => false
  end.

(** The trace starts with [e]. *)
Definition opens_with (e : event) (evs : list event) : Prop := ∃ evs', evs = e :: evs'.

(** The session has a record on disk that carries block values or a
    cursor: an earlier run has synced it. *)
Definition has_synced (w : World) (cwd sessionId : string) : bool :=
  match disk w !! ConversationUtils.getSyncStateFile cwd sessionId with
  | Some (StateFile state) =>
      bool_decide (is_Some (lastBlockValues state)) || Js.truthy_opt (lastSeenMessageId state)
  | _ => false
  end.

Definition is_save_or_log (e : event) : bool := is_SaveSyncState e || is_ConsoleLog e.

(** What the PreToolUse hook adds to the trace: nothing that is saved or
    printed, or else, at the very end, one save of the session record
    directly followed by one delta that is not empty. *)
Definition saved_then_printed (evs : list event) : Prop :=
  quiet is_save_or_log evs ∨
  ∃ pre path st d,
    evs = pre ++ [SaveSyncState path st; ConsoleLog d] ∧
    quiet is_save_or_log pre ∧
    (delta_messages d ≠ [] ∨ delta_blocks d ≠ []).

(** [m] adds to the trace events that, with the way it ends, satisfy
    [Q]. *)
Definition ends_with {A} (m : M A) (Q : outcome A → list event → Prop) : Prop :=
  ∀ w, ∃ evs, trace (snd (m w)) = trace w ++ evs ∧ Q (fst (m w)) evs.

(** Nothing is saved or printed, except for one save of the session
    record at the very end. *)
Definition saved_last (evs : list event) : Prop :=
  quiet is_save_or_log evs ∨
  ∃ mid path st, evs = mid ++ [SaveSyncState path st] ∧ quiet is_save_or_log mid.

(** What is left to do once the delta is printed. *)
Definition after_the_delta {A} (o : outcome A) (evs : list event) : Prop :=
  match o with
  | Return _ => saved_last evs
  | _ => quiet is_SaveSyncState evs
  end.

(** What the UserPromptSubmit hook adds to the trace. When it returns:
    one delta, and after it at most the save of the session record, as
    the last event. When it does not return: no save. *)
Definition printed_then_saved {A} (o : outcome A) (evs : list event) : Prop :=
  match o with
  | Return _ =>
      ∃ pre d mid,
        evs = pre ++ ConsoleLog d :: mid ∧ quiet is_save_or_log pre ∧ saved_last mid
  | _ => quiet is_SaveSyncState evs
  end.

(** A remote that does not know the agent. *)
Definition remote_without_agent : Remote :=
  {| get_agent := λ _, HttpError 404;
     get_messages := λ _, HttpOk [];
     post_conversation := λ _, HttpOk "conv-new" |}.

(** A remote whose message endpoint cannot be reached. *)
Definition remote_unreachable_feed : Remote :=
  {| get_agent := λ _, HttpOk (Sample.agent []);
     get_messages := λ _, NetworkError;
     post_conversation := λ _, HttpOk "conv-new" |}.

(** A report read back: the entities in its body replaced by the
    characters they stand for. *)
Definition unescaped (r : BlockReport) : BlockReport :=
  {| br_label := br_label r; br_status := br_status r;
     br_body :=
       match br_body r with
       | FullValue v => FullValue (unescapeXmlContent v)
       | DiffLines removed added =>
           DiffLines (unescapeXmlContent <$> removed) (unescapeXmlContent <$> added)
       end |}.


(** * Properties *)

(** ** The JavaScript primitives *)

Section Primitives.

Lemma truthy_opt_or_null (o : option string) :
  Js.or_null o = None ↔ Js.truthy_opt o = false.
Proof.
  unfold Js.or_null, Js.or_else. destruct (Js.truthy_opt o) eqn:E; [|done].
  split; [|done]. intros ->. done.
Qed.

Lemma or_null_Some (o : option string) (s : string) :
  Js.or_null o = Some s ↔ o = Some s ∧ Js.truthy s = true.
Proof.
  unfold Js.or_null, Js.or_else. destruct o as [t|]; simpl.
  - destruct (Js.truthy t) eqn:E.
    + split; [intros [= ->]; done|intros [[= ->] _]; done].
    + split; [done|]. intros [[= ->] Ht]. congruence.
  - split; [done|]. by intros [? _].
Qed.

Lemma or_null_truthy (s : string) :
  Js.truthy s = true → Js.or_null (Some s) = Some s.
Proof. intros H. by apply or_null_Some. Qed.

Lemma split_lines_nonempty (s : string) : Js.split_lines s ≠ [].
Proof.
  induction s as [|c r IH]; simpl; [done|].
  case_decide; [done|]. by destruct (Js.split_lines r).
Qed.

Lemma join_lines_cons (l : string) (ls : list string) :
  ls ≠ [] → join_lines (l :: ls) = l +:+ String Js.newline (join_lines ls).
Proof. by destruct ls. Qed.

Lemma join_split_lines (s : string) : join_lines (Js.split_lines s) = s.
Proof.
  induction s as [|c r IH]; [done|].
  pose proof (split_lines_nonempty r) as Hne.
  cbn [Js.split_lines]. case_decide as Hc.
  - subst c. rewrite join_lines_cons by done. by rewrite IH.
  - destruct (Js.split_lines r) as [|h t]; [done|].
    destruct t as [|h' t].
    + simpl in *. by rewrite IH.
    + rewrite join_lines_cons by done. rewrite join_lines_cons in IH by done.
      by rewrite <- IH.
Qed.

Lemma split_lines_no_newline (s l : string) :
  l ∈ Js.split_lines s → has_char Js.newline l = false.
Proof.
  revert l. induction s as [|c r IH]; simpl; intros l Hl.
  - apply list_elem_of_singleton in Hl. by subst.
  - pose proof (split_lines_nonempty r) as Hne.
    case_decide as Hc.
    + apply elem_of_cons in Hl as [->|Hl]; [done|]. by apply IH.
    + destruct (Js.split_lines r) as [|h t]; [done|].
      apply elem_of_cons in Hl as [->|Hl].
      * simpl. rewrite bool_decide_eq_false_2 by done. apply IH. by left.
      * apply IH. by right.
Qed.

Lemma trimStart_no_leading_space (s : string) :
  starts_with_space (Js.trimStart s) = false.
Proof.
  induction s as [|c r IH]; simpl; [done|].
  destruct (Js.is_white_space c) eqn:E; [done|]. simpl. done.
Qed.

Lemma trimEnd_no_trailing_space (s : string) :
  ends_with_space (Js.trimEnd s) = false.
Proof.
  induction s as [|c r IH]; simpl; [done|].
  destruct (Js.trimEnd r) as [|d r'] eqn:E.
  - destruct (Js.is_white_space c) eqn:Ec; simpl; done.
  - simpl in *. done.
Qed.

Lemma trimEnd_keeps_start (s : string) :
  starts_with_space s = false → starts_with_space (Js.trimEnd s) = false.
Proof.
  destruct s as [|c r]; simpl; [done|]. intros Hc.
  destruct (Js.trimEnd r); [by rewrite Hc|done].
Qed.

Lemma trimStart_no_newline (s : string) :
  has_char Js.newline s = false → has_char Js.newline (Js.trimStart s) = false.
Proof.
  induction s as [|c r IH]; simpl; [done|]. intros H.
  apply orb_false_iff in H as [Hc Hr].
  destruct (Js.is_white_space c); [by apply IH|]. simpl. by rewrite Hc, Hr.
Qed.

Lemma trimEnd_no_newline (s : string) :
  has_char Js.newline s = false → has_char Js.newline (Js.trimEnd s) = false.
Proof.
  induction s as [|c r IH]; simpl; [done|]. intros H.
  apply orb_false_iff in H as [Hc Hr]. specialize (IH Hr).
  destruct (Js.trimEnd r) as [|d r'].
  - destruct (Js.is_white_space c); simpl; [done|]. by rewrite Hc.
  - simpl in *. by rewrite Hc, IH.
Qed.

Lemma trim_no_newline (s : string) :
  has_char Js.newline s = false → has_char Js.newline (Js.trim s) = false.
Proof. intros H. by apply trimEnd_no_newline, trimStart_no_newline. Qed.

Lemma trim_no_surrounding_space (s : string) :
  starts_with_space (Js.trim s) = false ∧ ends_with_space (Js.trim s) = false.
Proof.
  unfold Js.trim. split.
  - apply trimEnd_keeps_start, trimStart_no_leading_space.
  - apply trimEnd_no_trailing_space.
Qed.

End Primitives.

(** ** The message cursor tracker *)

Section Tracker.

(** The two scripts carry the same tracker. *)
Lemma newSince_same feed cursor :
  PretoolSync.newSince feed cursor = SyncLettaMemory.newSince feed cursor.
Proof. reflexivity. Qed.


Lemma fetch_ok {A} (ev : event) (reply : Remote → response A) (w : World) (body : A) :
  reply (remote w) = HttpOk body →
  fetch ev reply w = (Return (inr body), after w [ev]).
Proof. intros H. unfold fetch, mbind, M_bind. simpl. by rewrite H. Qed.

Lemma fetch_error {A} (ev : event) (reply : Remote → response A) (w : World) status :
  reply (remote w) = HttpError status →
  fetch ev reply w = (Return (inl status), after w [ev]).
Proof. intros H. unfold fetch, mbind, M_bind. simpl. by rewrite H. Qed.

Lemma fetch_network_error {A} (ev : event) (reply : Remote → response A) (w : World) :
  reply (remote w) = NetworkError →
  fetch ev reply w = (Throw "fetch failed", after w [ev]).
Proof. intros H. unfold fetch, mbind, M_bind. simpl. by rewrite H. Qed.

(** With a conversation and a 2xx reply the tracker is [newSince] of the
    feed. *)
Lemma fetchAssistantMessages_ok k c cursor feed w :
  Js.truthy c = true →
  get_messages (remote w) c = HttpOk feed →
  SyncLettaMemory.fetchAssistantMessages k (Some c) cursor w
  = (Return (SyncLettaMemory.newSince feed cursor), after w [GetMessages c]).
Proof.
  intros Hc Hfeed. unfold SyncLettaMemory.fetchAssistantMessages.
  rewrite or_null_truthy by done.
  unfold mbind, M_bind. rewrite (fetch_ok _ _ _ feed) by done. done.
Qed.


Lemma findIndex_None {A} (p : A → bool) (l : list A) :
  Js.findIndex p l = None ↔ Forall (λ x, p x = false) l.
Proof.
  unfold Js.findIndex. rewrite fmap_None, list_find_None.
  apply Forall_iff. intros x. by destruct (p x).
Qed.

Lemma findIndex_head {A} (p : A → bool) (x : A) (l : list A) :
  p x = true → Js.findIndex p (x :: l) = Some 0.
Proof. intros H. unfold Js.findIndex. simpl. by rewrite decide_True. Qed.

Lemma findIndex_Some_lt {A} (p : A → bool) (l : list A) (i : nat) :
  Js.findIndex p l = Some i → i < length l.
Proof.
  unfold Js.findIndex. intros ([j x] & H & ->)%fmap_Some.
  apply list_find_Some in H as (H & _). by eapply lookup_lt_Some.
Qed.

(** The messages handed on are those of a prefix of the visible feed
    that carry a text, in feed order. *)
Lemma newSince_prefix feed cursor :
  ∃ n, fst (SyncLettaMemory.newSince feed cursor)
       = omap SyncLettaMemory.toMessageInfo (take n (visible feed)).
Proof. unfold SyncLettaMemory.newSince. simpl. eauto. Qed.

Lemma toMessageInfo_id msg info :
  SyncLettaMemory.toMessageInfo msg = Some info → mi_id info = id msg.
Proof.
  unfold SyncLettaMemory.toMessageInfo.
  destruct (Js.or_null _); [|done]. by intros [= <-].
Qed.

Lemma toMessageInfo_has_text msg :
  is_Some (SyncLettaMemory.toMessageInfo msg) ↔ has_text msg = true.
Proof.
  unfold SyncLettaMemory.toMessageInfo, has_text.
  destruct (Js.or_null _) as [t|] eqn:E.
  - apply or_null_Some in E as [E Ht]. rewrite E. simpl. rewrite Ht. by split; eauto.
  - apply truthy_opt_or_null in E. rewrite E. split; [by intros [? ?]|done].
Qed.

Lemma omap_toMessageInfo_sublist (l : list LettaMessage) :
  sublist (mi_id <$> omap SyncLettaMemory.toMessageInfo l) (id <$> l).
Proof.
  induction l as [|msg l IH]; [constructor|].
  cbn [omap list_omap]. rewrite fmap_cons.
  destruct (SyncLettaMemory.toMessageInfo msg) as [info|] eqn:E.
  - rewrite fmap_cons, (toMessageInfo_id _ _ E). by constructor.
  - by constructor.
Qed.

Lemma omap_toMessageInfo_all (l : list LettaMessage) :
  Forall (λ msg, has_text msg = true) l →
  mi_id <$> omap SyncLettaMemory.toMessageInfo l = id <$> l.
Proof.
  induction 1 as [|msg l Hmsg _ IH]; [done|].
  apply toMessageInfo_has_text in Hmsg as [info E].
  cbn [omap list_omap]. rewrite E. rewrite !fmap_cons.
  by rewrite (toMessageInfo_id _ _ E), IH.
Qed.

Lemma visible_sublist feed : sublist (visible feed) feed.
Proof. apply sublist_filter. Qed.

Lemma newSince_sublist feed cursor :
  sublist (mi_id <$> fst (SyncLettaMemory.newSince feed cursor)) (id <$> feed).
Proof.
  destruct (newSince_prefix feed cursor) as [n ->].
  etrans; [apply omap_toMessageInfo_sublist|].
  apply fmap_sublist. etrans; [apply sublist_take|]. apply visible_sublist.
Qed.

(** The cursor handed back. *)
Lemma newSince_cursor feed cursor :
  snd (SyncLettaMemory.newSince feed cursor)
  = match visible feed with
    | msg :: _ => Some (id msg)
    | [] => cursor
    end.
Proof. reflexivity. Qed.

(** A cursor found at the head of the visible feed leaves nothing new. *)
Lemma newSince_at_head feed msg rest :
  visible feed = msg :: rest →
  Js.truthy (id msg) = true →
  fst (SyncLettaMemory.newSince feed (Some (id msg))) = [].
Proof.
  intros Hv Hid. unfold SyncLettaMemory.newSince. fold (visible feed). rewrite Hv.
  simpl Js.truthy_opt. rewrite Hid.
  rewrite findIndex_head by (by apply bool_decide_eq_true). done.
Qed.

(** A cursor that is absent, empty or not found leaves the whole visible
    feed. *)
Lemma newSince_whole feed cursor :
  (∀ c, cursor = Some c → Js.truthy c = true → c ∉ id <$> visible feed) →
  fst (SyncLettaMemory.newSince feed cursor)
  = omap SyncLettaMemory.toMessageInfo (visible feed).
Proof.
  intros Hmiss. unfold SyncLettaMemory.newSince. fold (visible feed). simpl.
  destruct (Js.truthy_opt cursor) eqn:Ht; [|by rewrite firstn_all].
  destruct cursor as [c|]; [|done]. simpl in Ht.
  destruct (Js.findIndex _ _) as [i|] eqn:E; [|by rewrite firstn_all].
  exfalso. unfold Js.findIndex in E.
  apply fmap_Some in E as ([j x] & E & _).
  apply list_find_Some in E as (Hl & Hp & _).
  apply bool_decide_eq_true in Hp as [= <-].
  apply (Hmiss _ eq_refl Ht). apply list_elem_of_fmap. exists x. split; [done|].
  by eapply list_elem_of_lookup_2.
Qed.

End Tracker.

Section TrackerClaims.

(** C1, as amended. For every newest-first feed and every cursor, the new
    messages returned by the tracker ([fetchAssistantMessages] and
    [fetchNewMessages] alike) keep the order of the feed, newest first:
    they are the messages with a text of a prefix of the visible feed, so
    their ids are a subsequence of the ids of the feed. In particular for
    the feed [m5, m4, m3, m2, m1] and the cursor [m3] the new messages are
    [m5, m4], in that order. *)
Theorem C1_new_messages_keep_feed_order
    (k c : string) (cursor : option string) (feed : list LettaMessage) (w : World) :
  Js.truthy c = true →
  get_messages (remote w) c = HttpOk feed →
  ∃ msgs last n,
    run_result (SyncLettaMemory.fetchAssistantMessages k (Some c) cursor) w
      = Return (msgs, last) ∧
    run_result (PretoolSync.fetchNewMessages k (Some c) cursor) w
      = Return (msgs, last) ∧
    msgs = omap SyncLettaMemory.toMessageInfo (take n (visible feed)) ∧
    sublist (mi_id <$> msgs) (id <$> feed) ∧
    (feed = Sample.feed5 → cursor = Some "m3" →
     msgs = [Sample.info "m5"; Sample.info "m4"]).
Proof.
  intros Hc Hfeed.
  destruct (newSince_prefix feed cursor) as [n Hn].
  pose proof (newSince_sublist feed cursor) as Hsub.
  destruct (SyncLettaMemory.newSince feed cursor) as [msgs last] eqn:E.
  exists msgs, last, n.
  change (PretoolSync.fetchNewMessages k (Some c) cursor)
    with (SyncLettaMemory.fetchAssistantMessages k (Some c) cursor).
  unfold run_result.
  rewrite (fetchAssistantMessages_ok k c cursor feed w Hc Hfeed), E.
  split_and!; [done|done|exact Hn|exact Hsub|].
  intros -> ->. vm_compute in E. by injection E as <- _.
Qed.

Lemma C1_new_messages_keep_feed_order_witness :
  ∃ msgs last n,
    run_result (SyncLettaMemory.fetchAssistantMessages "key" (Some "conv-A") (Some "m3"))
               (init_world Sample.remote_news ∅) = Return (msgs, last) ∧
    run_result (PretoolSync.fetchNewMessages "key" (Some "conv-A") (Some "m3"))
               (init_world Sample.remote_news ∅) = Return (msgs, last) ∧
    msgs = omap SyncLettaMemory.toMessageInfo (take n (visible Sample.feed5)) ∧
    sublist (mi_id <$> msgs) (id <$> Sample.feed5) ∧
    (Sample.feed5 = Sample.feed5 → Some "m3" = Some "m3" →
     msgs = [Sample.info "m5"; Sample.info "m4"]).
Proof.
  apply (C1_new_messages_keep_feed_order
           "key" "conv-A" (Some "m3") Sample.feed5 (init_world Sample.remote_news ∅));
    reflexivity.
Defined.

(** C1, as stated, fails: on the feed [m5, m4, m3, m2, m1] with the cursor
    [m3] both trackers return [m5, m4], not the chronological [m4, m5]. *)
Lemma C1_oldest_first_refuted :
  run_result (SyncLettaMemory.fetchAssistantMessages "key" (Some "conv-A") (Some "m3"))
             (init_world Sample.remote_news ∅)
    = Return ([Sample.info "m5"; Sample.info "m4"], Some "m5") ∧
  run_result (PretoolSync.fetchNewMessages "key" (Some "conv-A") (Some "m3"))
             (init_world Sample.remote_news ∅)
    = Return ([Sample.info "m5"; Sample.info "m4"], Some "m5") ∧
  [Sample.info "m5"; Sample.info "m4"] ≠ [Sample.info "m4"; Sample.info "m5"].
Proof. split_and!; [reflexivity|reflexivity|discriminate]. Qed.

(** C3, as amended. When the visible (assistant) part of the feed is not
    empty, the cursor returned is the id of its first, newest message;
    when it is empty, the previous cursor is returned unchanged with no
    new messages; and running the tracker again on the same feed with the
    cursor it returned yields no new message and the same cursor, provided
    that cursor is a non-empty string. *)
Theorem C3_cursor_is_newest_and_idempotent
    (k c : string) (cursor : option string) (feed : list LettaMessage) (w : World) :
  Js.truthy c = true →
  get_messages (remote w) c = HttpOk feed →
  ∃ msgs last,
    run_result (SyncLettaMemory.fetchAssistantMessages k (Some c) cursor) w
      = Return (msgs, last) ∧
    (∀ msg rest, visible feed = msg :: rest → last = Some (id msg)) ∧
    (visible feed = [] → msgs = [] ∧ last = cursor) ∧
    (Js.truthy_opt last = true →
     run_result (SyncLettaMemory.fetchAssistantMessages k (Some c) last) w
       = Return ([], last)).
Proof.
  intros Hc Hfeed.
  pose proof (newSince_cursor feed cursor) as Hlast.
  destruct (newSince_prefix feed cursor) as [n Hn].
  destruct (SyncLettaMemory.newSince feed cursor) as [msgs last] eqn:E.
  cbn [fst snd] in Hlast, Hn.
  exists msgs, last. unfold run_result.
  rewrite !(fetchAssistantMessages_ok k c _ feed w Hc Hfeed), E.
  split_and!.
  - done.
  - intros msg rest Hv. by rewrite Hv in Hlast.
  - intros Hv. rewrite Hv in Hlast, Hn. split; [|done]. by rewrite take_nil in Hn.
  - intros Ht. cbn [fst]. f_equal.
    pose proof (newSince_cursor feed last) as Hlast'.
    destruct (newSince_prefix feed last) as [n' Hn'].
    destruct (visible feed) as [|msg rest] eqn:Hv.
    + destruct (SyncLettaMemory.newSince feed last) as [msgs' last'].
      cbn [fst snd] in *. subst. by rewrite take_nil.
    + subst last. simpl in Ht.
      pose proof (newSince_at_head feed msg rest Hv Ht) as Hnil.
      destruct (SyncLettaMemory.newSince feed (Some (id msg))) as [msgs' last'].
      cbn [fst snd] in *. by rewrite Hnil, Hlast'.
Qed.

Lemma C3_cursor_is_newest_and_idempotent_witness :
  ∃ msgs last,
    run_result (SyncLettaMemory.fetchAssistantMessages "key" (Some "conv-A") (Some "m3"))
               (init_world Sample.remote_news ∅) = Return (msgs, last) ∧
    (∀ msg rest, visible Sample.feed5 = msg :: rest → last = Some (id msg)) ∧
    (visible Sample.feed5 = [] → msgs = [] ∧ last = Some "m3") ∧
    (Js.truthy_opt last = true →
     run_result (SyncLettaMemory.fetchAssistantMessages "key" (Some "conv-A") last)
                (init_world Sample.remote_news ∅) = Return ([], last)).
Proof.
  apply (C3_cursor_is_newest_and_idempotent
           "key" "conv-A" (Some "m3") Sample.feed5 (init_world Sample.remote_news ∅));
    reflexivity.
Defined.

(** C3, as stated, fails on a feed whose newest message has the empty
    string for an id: the cursor returned is that empty id, and the
    tracker run again with it on the same feed returns the whole window
    once more instead of nothing. *)
Lemma C3_idempotence_refuted :
  let w := init_world (Sample.remote_of (Sample.agent []) (HttpOk Sample.feed_empty_id)) ∅ in
  run_result (SyncLettaMemory.fetchAssistantMessages "key" (Some "conv-A") None) w
    = Return ([Sample.info ""; Sample.info "m1"], Some "") ∧
  run_result (SyncLettaMemory.fetchAssistantMessages "key" (Some "conv-A") (Some "")) w
    = Return ([Sample.info ""; Sample.info "m1"], Some "") ∧
  [Sample.info ""; Sample.info "m1"] ≠ [].
Proof. split_and!; [reflexivity|reflexivity|discriminate]. Qed.

(** C6, as amended. When the cursor is an id that does not occur among
    the visible (assistant) messages of the fetched window, the tracker
    does not fail and cuts nothing off: it returns, in feed order, every
    visible message that carries a text (messages without one are
    skipped), which is the entire visible window when all its messages
    carry a text. *)
Theorem C6_cursor_miss_returns_window
    (k c x : string) (feed : list LettaMessage) (w : World) :
  Js.truthy c = true →
  get_messages (remote w) c = HttpOk feed →
  x ∉ id <$> visible feed →
  ∃ msgs last,
    run_result (SyncLettaMemory.fetchAssistantMessages k (Some c) (Some x)) w
      = Return (msgs, last) ∧
    run_result (PretoolSync.fetchNewMessages k (Some c) (Some x)) w
      = Return (msgs, last) ∧
    msgs = omap SyncLettaMemory.toMessageInfo (visible feed) ∧
    (Forall (λ msg, has_text msg = true) (visible feed) →
     mi_id <$> msgs = id <$> visible feed).
Proof.
  intros Hc Hfeed Hmiss.
  assert (fst (SyncLettaMemory.newSince feed (Some x))
          = omap SyncLettaMemory.toMessageInfo (visible feed)) as Hwhole.
  { apply newSince_whole. by intros ? [= <-] _. }
  destruct (SyncLettaMemory.newSince feed (Some x)) as [msgs last] eqn:E.
  cbn [fst] in Hwhole.
  exists msgs, last.
  change (PretoolSync.fetchNewMessages k (Some c) (Some x))
    with (SyncLettaMemory.fetchAssistantMessages k (Some c) (Some x)).
  unfold run_result.
  rewrite (fetchAssistantMessages_ok k c _ feed w Hc Hfeed), E.
  split_and!; [done|done|exact Hwhole|].
  intros Hall. rewrite Hwhole. by apply omap_toMessageInfo_all.
Qed.

Lemma C6_cursor_miss_returns_window_witness :
  ∃ msgs last,
    run_result (SyncLettaMemory.fetchAssistantMessages "key" (Some "conv-A") (Some "m0"))
               (init_world Sample.remote_news ∅) = Return (msgs, last) ∧
    run_result (PretoolSync.fetchNewMessages "key" (Some "conv-A") (Some "m0"))
               (init_world Sample.remote_news ∅) = Return (msgs, last) ∧
    msgs = omap SyncLettaMemory.toMessageInfo (visible Sample.feed5) ∧
    (Forall (λ msg, has_text msg = true) (visible Sample.feed5) →
     mi_id <$> msgs = id <$> visible Sample.feed5).
Proof.
  apply (C6_cursor_miss_returns_window
           "key" "conv-A" "m0" Sample.feed5 (init_world Sample.remote_news ∅));
    [reflexivity|reflexivity|].
  vm_compute. intros H. repeat (apply elem_of_cons in H as [H|H]; [discriminate H|]).
  by apply elem_of_nil in H.
Defined.

(** C6, as stated, fails on a window whose only assistant message has no
    text: the cursor [m0] is not in the window, yet the tracker returns
    no message at all, not the visible window. *)
Lemma C6_entire_window_refuted :
  let feed := [Sample.textless "m9"] in
  let w := init_world (Sample.remote_of (Sample.agent []) (HttpOk feed)) ∅ in
  visible feed = [Sample.textless "m9"] ∧
  ("m0" ∉ id <$> visible feed) ∧
  run_result (SyncLettaMemory.fetchAssistantMessages "key" (Some "conv-A") (Some "m0")) w
    = Return ([], Some "m9") ∧
  run_result (PretoolSync.fetchNewMessages "key" (Some "conv-A") (Some "m0")) w
    = Return ([], Some "m9").
Proof.
  split_and!; [reflexivity| |reflexivity|reflexivity].
  vm_compute. intros H. apply elem_of_cons in H as [H|H]; [discriminate H|].
  by apply elem_of_nil in H.
Qed.

End TrackerClaims.

(** ** A small logic of traces *)

Section TraceLogic.

Context (p q : event → bool).

Lemma quiet_nil : quiet q [].
Proof. constructor. Qed.

Lemma quiet_app evs1 evs2 : quiet q evs1 → quiet q evs2 → quiet q (evs1 ++ evs2).
Proof. apply Forall_app_2. Qed.

Lemma quiet_before evs : quiet q evs → before p q evs = true.
Proof.
  induction 1 as [|e evs He _ IH]; simpl; [done|].
  destruct (p e); [done|]. by rewrite He, IH.
Qed.

Lemma before_quiet_l evs1 evs2 :
  quiet q evs1 → before p q evs2 = true → before p q (evs1 ++ evs2) = true.
Proof.
  induction 1 as [|e evs1 He _ IH]; simpl; [done|]. intros H.
  destruct (p e); [done|]. by rewrite He, IH.
Qed.

Lemma before_quiet_r evs1 evs2 :
  before p q evs1 = true → quiet q evs2 → before p q (evs1 ++ evs2) = true.
Proof.
  induction evs1 as [|e evs1 IH]; simpl; intros H1 H2.
  - by apply quiet_before.
  - destruct (p e); [done|]. apply andb_true_iff in H1 as [-> H1]. simpl. by apply IH.
Qed.

Lemma fired_app_r evs1 evs2 : fired p q evs1 → before p q (evs1 ++ evs2) = true.
Proof.
  intros [H1 H2]. induction evs1 as [|e evs1 IH]; simpl in *; [done|].
  destruct (p e); [done|]. apply andb_true_iff in H1 as [-> H1]. simpl. by apply IH.
Qed.

Lemma fired_singleton e : p e = true → fired p q [e].
Proof. intros H. unfold fired. simpl. by rewrite H. Qed.

Lemma bind_run {A B} (m : M A) (f : A → M B) (w : World) :
  (m ≫= f) w = match m w with
               | (Return a, w') => f a w'
               | (Throw e, w') => (Throw e, w')
               | (Exit c, w') => (Exit c, w')
               end.
Proof. reflexivity. Qed.

(** Sequencing: the events of [m ≫= f] are those of [m], followed by
    those of [f] when [m] returns. *)
Lemma appends_bind {A B} (m : M A) (f : A → M B) (P Q R : list event → Prop) :
  appends m P →
  (∀ a, appends (f a) Q) →
  (∀ evs, P evs → R evs) →
  (∀ evs1 evs2, P evs1 → Q evs2 → R (evs1 ++ evs2)) →
  appends (m ≫= f) R.
Proof.
  intros Hm Hf HP HPQ w. rewrite bind_run.
  destruct (Hm w) as (evs1 & E1 & H1).
  destruct (m w) as [[a|e|c] w1]; simpl in *.
  - destruct (Hf a w1) as (evs2 & E2 & H2).
    exists (evs1 ++ evs2). rewrite E2, E1, (assoc_L (++)). eauto.
  - exists evs1. eauto.
  - exists evs1. eauto.
Qed.

Lemma appends_try_catch {A} (m : M A) (h : string → M A) (P Q R : list event → Prop) :
  appends m P →
  (∀ e, appends (h e) Q) →
  (∀ evs, P evs → R evs) →
  (∀ evs1 evs2, P evs1 → Q evs2 → R (evs1 ++ evs2)) →
  appends (try_catch m h) R.
Proof.
  intros Hm Hh HP HPQ w. unfold try_catch.
  destruct (Hm w) as (evs1 & E1 & H1).
  destruct (m w) as [[a|e|c] w1]; simpl in *.
  - exists evs1. eauto.
  - destruct (Hh e w1) as (evs2 & E2 & H2).
    exists (evs1 ++ evs2). rewrite E2, E1, (assoc_L (++)). eauto.
  - exists evs1. eauto.
Qed.

Lemma appends_promise_all {A B} (a : M A) (b : M B) (P : list event → Prop) :
  appends a P → appends b P → P [] →
  (∀ evs1 evs2, P evs1 → P evs2 → P (evs1 ++ evs2)) →
  appends (promise_all a b) P.
Proof.
  intros Ha Hb Hnil Happ w. unfold promise_all.
  destruct (Ha w) as (evs1 & E1 & H1).
  destruct (a w) as [ra w1]. simpl in *.
  destruct (Hb w1) as (evs2 & E2 & H2).
  destruct ra as [x|e|c].
  - destruct (b w1) as [[y|e'|c'] w2]; simpl in *;
      exists (evs1 ++ evs2); rewrite E2, E1, (assoc_L (++)); eauto.
  - destruct (b w1) as [[y|e'|c'] w2]; simpl in *;
      exists (evs1 ++ evs2); rewrite E2, E1, (assoc_L (++)); eauto.
  - exists evs1. eauto.
Qed.

(** *** Computations that add no [q] *)

Lemma silent_pure {A} (m : M A) : (∀ w, trace (snd (m w)) = trace w) → silent q m.
Proof.
  intros H w. exists []. split; [by rewrite H, app_nil_r|apply quiet_nil].
Qed.

Lemma silent_ret {A} (a : A) : silent q (mret a).
Proof. by apply silent_pure. Qed.

Lemma silent_throw {A} msg : silent q (@throw A msg).
Proof. by apply silent_pure. Qed.

Lemma silent_process_exit {A} c : silent q (@process_exit A c).
Proof. by apply silent_pure. Qed.

Lemma silent_lift_outcome {A} (o : outcome A) : silent q (lift_outcome o).
Proof. by apply silent_pure. Qed.

Lemma silent_read_file path : silent q (read_file path).
Proof. by apply silent_pure. Qed.

Lemma silent_write_file path f : silent q (write_file path f).
Proof. by apply silent_pure. Qed.

Lemma silent_ask_remote : silent q ask_remote.
Proof. by apply silent_pure. Qed.

Lemma silent_emit e : q e = false → silent q (emit e).
Proof. intros H w. exists [e]. split; [done|]. by constructor. Qed.

Lemma silent_bind {A B} (m : M A) (f : A → M B) :
  silent q m → (∀ a, silent q (f a)) → silent q (m ≫= f).
Proof.
  intros Hm Hf. eapply appends_bind; [exact Hm|exact Hf|done|]. apply quiet_app.
Qed.

Lemma silent_fmap {A B} (g : A → B) (m : M A) : silent q m → silent q (g <$> m).
Proof. intros Hm. apply silent_bind; [done|]. intros a. apply silent_ret. Qed.

Lemma silent_try_catch {A} (m : M A) (h : string → M A) :
  silent q m → (∀ e, silent q (h e)) → silent q (try_catch m h).
Proof.
  intros Hm Hh. eapply appends_try_catch; [exact Hm|exact Hh|done|]. apply quiet_app.
Qed.

Lemma silent_promise_all {A B} (a : M A) (b : M B) :
  silent q a → silent q b → silent q (promise_all a b).
Proof.
  intros Ha Hb. apply appends_promise_all; [done|done|apply quiet_nil|apply quiet_app].
Qed.

(** *** Computations in which every [q] comes after a [p] *)

Lemma silent_ordered {A} (m : M A) : silent q m → ordered p q m.
Proof.
  intros Hm w. destruct (Hm w) as (evs & E & H). exists evs. split; [done|].
  by apply quiet_before.
Qed.

Lemma ordered_bind {A B} (m : M A) (f : A → M B) :
  silent q m → (∀ a, ordered p q (f a)) → ordered p q (m ≫= f).
Proof.
  intros Hm Hf. eapply appends_bind; [exact Hm|exact Hf|apply quiet_before|].
  apply before_quiet_l.
Qed.

Lemma ordered_try_catch {A} (m : M A) (h : string → M A) :
  ordered p q m → (∀ e, silent q (h e)) → ordered p q (try_catch m h).
Proof.
  intros Hm Hh. eapply appends_try_catch; [exact Hm|exact Hh|done|].
  apply before_quiet_r.
Qed.

Lemma ordered_emit e : q e = false ∨ p e = true → ordered p q (emit e).
Proof.
  intros H w. exists [e]. split; [done|]. simpl.
  destruct (p e); [done|]. by destruct H as [->|?].
Qed.

End TraceLogic.

(** Once a [p] has happened, anything may follow. *)
Lemma ordered_fired_bind (p q : event → bool) {A B} (m : M A) (f : A → M B) :
  appends m (fired p q) → (∀ a, silent anything (f a)) → ordered p q (m ≫= f).
Proof.
  intros Hm Hf. eapply appends_bind; [exact Hm|exact Hf|by intros ? [? _]|].
  intros evs1 evs2 H1 _. by apply fired_app_r.
Qed.

Lemma fired_emit (p q : event → bool) e : p e = true → appends (emit e) (fired p q).
Proof. intros H w. exists [e]. split; [done|]. by apply fired_singleton. Qed.

Ltac unfold_scripts :=
  unfold ConversationUtils.loadSyncState, ConversationUtils.saveSyncState,
    ConversationUtils.loadConversationsMap, ConversationUtils.saveConversationsMap,
    ConversationUtils.createConversation, ConversationUtils.getOrCreateConversation,
    ConversationUtils.lookupConversation, ConversationUtils.fetchAgent,
    SyncLettaMemory.fetchAssistantMessages, SyncLettaMemory.countTranscriptLines,
    PretoolSync.fetchAgent, PretoolSync.fetchNewMessages, fetch.

(** One step of a proof that a script adds no event of some kind,
    following the structure of the script. *)
Ltac silent_step :=
  lazymatch goal with
  | |- silent _ (mret _) => apply silent_ret
  | |- silent _ (mbind _ _) => apply silent_bind; [|intros ?]
  | |- silent _ (fmap _ _) => apply silent_fmap
  | |- silent _ (try_catch _ _) => apply silent_try_catch; [|intros ?]
  | |- silent _ (promise_all _ _) => apply silent_promise_all
  | |- silent _ (emit _) => apply silent_emit; reflexivity
  | |- silent _ (throw _) => apply silent_throw
  | |- silent _ (process_exit _) => apply silent_process_exit
  | |- silent _ (lift_outcome _) => apply silent_lift_outcome
  | |- silent _ (read_file _) => apply silent_read_file
  | |- silent _ (write_file _ _) => apply silent_write_file
  | |- silent _ ask_remote => apply silent_ask_remote
  | |- silent _ (match ?x with _ => _ end) => destruct x
  | |- silent _ _ => first [progress cbv beta zeta | progress unfold_scripts]
  end.

Ltac silent := repeat silent_step.

Section Orchestrators.

Lemma fired_saveSyncState (q : event → bool) cwd st :
  appends (ConversationUtils.saveSyncState cwd st) (fired is_SaveSyncState q).
Proof. intros w. eexists [_]. split; [reflexivity|]. by apply fired_singleton. Qed.

(** In the UserPromptSubmit hook the session record is saved only after
    the delta has been written to stdout. *)
Lemma sync_main_ordered env :
  ordered is_ConsoleLog is_SaveSyncState (SyncLettaMemory.main env).
Proof.
  unfold SyncLettaMemory.main.
  destruct (Js.or_null (LETTA_API_KEY env)) as [apiKey|]; [|apply silent_ordered; silent].
  apply ordered_try_catch; [|intros ?; silent].
  apply ordered_bind; [silent|intros agentId]. cbv beta zeta.
  apply ordered_bind; [silent|intros state].
  apply ordered_bind; [silent|intros [conversationId state']].
  apply ordered_bind; [silent|intros [agent [newMessages lastMessageId]]].
  apply ordered_bind; [silent|intros _].
  apply ordered_bind; [silent|intros _].
  apply ordered_fired_bind; [by apply fired_emit|intros _; silent].
Qed.

(** In the PreToolUse hook the delta is written to stdout only after the
    session record has been saved. *)
Lemma pretool_main_ordered env :
  ordered is_SaveSyncState is_ConsoleLog (PretoolSync.main env).
Proof.
  unfold PretoolSync.main.
  destruct (Js.or_null (LETTA_API_KEY env)) as [apiKey|]; [|apply silent_ordered; silent].
  apply ordered_try_catch; [|intros ?; silent]. cbv beta zeta.
  destruct (Js.or_null _) as [session_id|]; [|apply silent_ordered; silent].
  destruct (Js.or_null _) as [cwd|]; [|apply silent_ordered; silent].
  apply ordered_bind; [silent|intros state].
  destruct (_ && _); [apply silent_ordered; silent|].
  apply ordered_bind; [silent|intros agentId].
  apply ordered_bind; [silent|intros conversationId].
  apply ordered_bind; [silent|intros [agent [newMessages lastMessageId]]].
  destruct newMessages, (PretoolSync.detectChangedBlocks _ _);
    [apply silent_ordered; silent|..];
    (apply ordered_bind; [silent|intros _]);
    (apply ordered_fired_bind; [apply fired_saveSyncState|intros _; silent]).
Qed.

Lemma ordered_run (p q : event → bool) {A} (m : M A) r d :
  ordered p q m → before p q (run_trace m (init_world r d)) = true.
Proof. intros H. destruct (H (init_world r d)) as (evs & E & Hevs). unfold run_trace. by rewrite E. Qed.

End Orchestrators.

(** ** A failed message fetch is an empty feed *)

Section Degraded.















End Degraded.



Section DegradedOrchestrators.





End DegradedOrchestrators.

Section OrchestratorClaims.

(** C2, as amended. The two hooks order emission and persistence
    differently. In the UserPromptSubmit hook ([main] of
    [sync_letta_memory.ts]) the session record, [lastBlockValues]
    included, is saved only after the delta has been written to stdout
    (persist-after-emit). In the PreToolUse hook ([main] of
    [pretool_sync.ts]) it is the reverse: the delta is written to stdout
    only after the updated session record has been saved
    (persist-before-emit). *)
Theorem C2_emit_and_persist_order (env : Env) (r : Remote) (d : gmap string file) :
  emit_before_persist (run_trace (SyncLettaMemory.main env) (init_world r d)) = true ∧
  persist_before_emit (run_trace (PretoolSync.main env) (init_world r d)) = true.
Proof.
  split.
  - apply ordered_run, sync_main_ordered.
  - apply ordered_run, pretool_main_ordered.
Qed.

(** C2, as stated, fails in the PreToolUse hook: for a session synced
    before, whose remote agent now has a longer block and two newer
    messages, an invocation that produces a delta saves the updated
    record first and writes the delta to stdout after it. *)
Lemma C2_persist_after_emit_refuted :
  run_trace (PretoolSync.main Sample.env) (init_world Sample.remote_news Sample.disk_synced)
  = [ GetAgent "agent-B";
      GetMessages "conv-A";
      SaveSyncState Sample.state_path
        (Sample.state (Some "conv-A")
           (Some {[ "persona" := "likes cats" +:+ Sample.nl +:+ "likes dogs" ]})
           (Some "m5"));
      ConsoleLog {| delta_messages := [Sample.info "m5"; Sample.info "m4"];
                    delta_blocks :=
                      [ {| br_label := "persona"; br_status := StatusModified;
                           br_body := DiffLines [] ["likes dogs"] |} ] |} ] ∧
  emit_before_persist
    (run_trace (PretoolSync.main Sample.env)
               (init_world Sample.remote_news Sample.disk_synced)) = false.
Proof. split; vm_compute; reflexivity. Qed.


Lemma after_after w evs1 evs2 : after (after w evs1) evs2 = after w (evs1 ++ evs2).
Proof. unfold after. simpl. by rewrite (assoc_L (++)). Qed.

End OrchestratorClaims.

(** ** The conversation resolver *)

Section Resolver.

Lemma loadConversationsMap_run cwd w :
  ConversationUtils.loadConversationsMap cwd w = (Return (conversations_of w cwd), w).
Proof.
  unfold ConversationUtils.loadConversationsMap, conversations_of, read_file.
  rewrite bind_run. by destruct (disk w !! _) as [[]|].
Qed.

Lemma set_conversationId_same c state :
  conversationId state = Some c → set_conversationId (Some c) state = state.
Proof. destruct state. simpl. by intros ->. Qed.

(** The fast path: a record that carries a conversation is answered
    from the record, and nothing else happens. *)
Lemma getOrCreateConversation_fast k a s cwd state c w :
  Js.or_null (conversationId state) = Some c →
  ConversationUtils.getOrCreateConversation k a s cwd state w = (Return (c, state), w).
Proof. intros H. unfold ConversationUtils.getOrCreateConversation. by rewrite H. Qed.

(** A binding recorded for the configured agent is reused. *)
Lemma getOrCreateConversation_reuse k a s cwd state e w :
  Js.or_null (conversationId state) = None →
  conversations_of w cwd !! s = Some (Current e) →
  Js.truthy (ce_agentId e) = true →
  ce_agentId e = a →
  ConversationUtils.getOrCreateConversation k a s cwd state w
  = (Return (ce_conversationId e, set_conversationId (Some (ce_conversationId e)) state), w).
Proof.
  intros Hstate Hentry Ht Ha. unfold ConversationUtils.getOrCreateConversation.
  rewrite Hstate, bind_run, loadConversationsMap_run, Hentry. simpl.
  rewrite Ht. simpl. subst a. by rewrite bool_decide_eq_true_2.
Qed.



End Resolver.

Section ResolverClaims.




(** C5, as amended. When the session record already carries a
    conversationId that is a non-empty string, or, failing that, the
    binding table holds for the session an entry whose recorded agent is
    a non-empty string and is the configured agentId, resolve
    ([getOrCreateConversation]) returns that existing conversationId and
    leaves the world as it found it: no request is made, so no remote
    conversation is created, and no file is written. *)
Theorem C5_existing_conversation_is_reused
    (k a s cwd c : string) (state : SyncState) (w : World) :
  existing_conversation a s cwd state w = Some c →
  ConversationUtils.getOrCreateConversation k a s cwd state w
    = (Return (c, set_conversationId (Some c) state), w) ∧
  existsb is_PostConversation
    (run_trace (ConversationUtils.getOrCreateConversation k a s cwd state)
               (init_world (remote w) (disk w))) = false.
Proof.
  unfold existing_conversation. intros H.
  destruct (Js.or_null (conversationId state)) as [c'|] eqn:Hstate.
  - injection H as ->.
    pose proof Hstate as [Hc _]%or_null_Some.
    rewrite (set_conversationId_same c state Hc).
    split; [by apply getOrCreateConversation_fast|].
    unfold run_trace. by rewrite (getOrCreateConversation_fast k a s cwd state c).
  - destruct (conversations_of w cwd !! s) as [[?|e]|] eqn:Hentry; [done| |done].
    destruct (Js.truthy (ce_agentId e)) eqn:Ht; [|done].
    destruct (bool_decide (ce_agentId e = a)) eqn:Ha; [|done].
    apply bool_decide_eq_true in Ha. injection H as <-.
    split; [by apply getOrCreateConversation_reuse|].
    unfold run_trace. by rewrite (getOrCreateConversation_reuse k a s cwd state e).
Qed.

Lemma C5_existing_conversation_is_reused_witness :
  let w := init_world Sample.remote_news (Sample.disk_table Sample.table_B) in
  (ConversationUtils.getOrCreateConversation "key" "agent-B" "s1" "/proj" Sample.unbound w
     = (Return ("conv-B", set_conversationId (Some "conv-B") Sample.unbound), w) ∧
   existsb is_PostConversation
     (run_trace (ConversationUtils.getOrCreateConversation
                   "key" "agent-B" "s1" "/proj" Sample.unbound)
                (init_world (remote w) (disk w))) = false) ∧
  (ConversationUtils.getOrCreateConversation "key" "agent-B" "s1" "/proj" Sample.bound_A w
     = (Return ("conv-A", set_conversationId (Some "conv-A") Sample.bound_A), w) ∧
   existsb is_PostConversation
     (run_trace (ConversationUtils.getOrCreateConversation
                   "key" "agent-B" "s1" "/proj" Sample.bound_A)
                (init_world (remote w) (disk w))) = false).
Proof.
  split.
  - apply (C5_existing_conversation_is_reused
             "key" "agent-B" "s1" "/proj" "conv-B" Sample.unbound
             (init_world Sample.remote_news (Sample.disk_table Sample.table_B))).
    reflexivity.
  - apply (C5_existing_conversation_is_reused
             "key" "agent-B" "s1" "/proj" "conv-A" Sample.bound_A
             (init_world Sample.remote_news (Sample.disk_table Sample.table_B))).
    reflexivity.
Defined.

(** C5, as stated, fails where an identifier is the empty string, which
    the script takes for a missing one. A session record that carries
    the conversationId [""] is not returned unchanged: a conversation is
    created and bound. And an entry of the binding table whose recorded
    agent is [""] is not reused when the configured agentId is [""] as
    well: it is taken for an entry of the old format, and a conversation
    is created in place of the recorded [conv-A]. *)
Lemma C5_empty_identifier_refuted :
  let carried := Sample.state (Some "") None None in
  let entry := Current {| ce_conversationId := "conv-A"; ce_agentId := "" |} in
  (ConversationUtils.getOrCreateConversation "key" "agent-B" "s1" "/proj" carried
     (init_world Sample.remote_news ∅)
   = (Return ("conv-new", set_conversationId (Some "conv-new") carried),
      {| remote := Sample.remote_news;
         disk := {[ Sample.conversations_path :=
                      ConversationsFile
                        {[ "s1" := Current {| ce_conversationId := "conv-new";
                                              ce_agentId := "agent-B" |} ]} ]};
         trace := [ PostConversation "agent-B";
                    SaveConversationsMap Sample.conversations_path
                      {[ "s1" := Current {| ce_conversationId := "conv-new";
                                            ce_agentId := "agent-B" |} ]} ] |})) ∧
  run_result (ConversationUtils.getOrCreateConversation "key" "" "s1" "/proj" Sample.unbound)
             (init_world Sample.remote_news (Sample.disk_table {[ "s1" := entry ]}))
    = Return ("conv-new", set_conversationId (Some "conv-new") Sample.unbound) ∧
  run_trace (ConversationUtils.getOrCreateConversation "key" "" "s1" "/proj" Sample.unbound)
            (init_world Sample.remote_news (Sample.disk_table {[ "s1" := entry ]}))
    = [ PostConversation "";
        SaveConversationsMap Sample.conversations_path
          {[ "s1" := Current {| ce_conversationId := "conv-new"; ce_agentId := "" |} ]} ].
Proof. split_and!; vm_compute; reflexivity. Qed.

End ResolverClaims.

(** ** The memory diff engine *)

Section DiffEngine.


Lemma truthy_nonempty (s : string) : Js.truthy s = true ↔ s ≠ "".
Proof. by destruct s. Qed.

(** The lines a diff compares: the non-empty trimmed pieces. *)
Lemma diff_lines_spec (v l : string) :
  l ∈ diff_lines v ↔ l ≠ "" ∧ ∃ raw, raw ∈ Js.split_lines v ∧ l = Js.trim raw.
Proof.
  unfold diff_lines. rewrite list_elem_of_filter, list_elem_of_fmap.
  rewrite Is_true_true, truthy_nonempty.
  split; intros (Hl & raw & H1 & H2); eauto.
Qed.

Lemma computeDiff_added oldValue newValue :
  SyncLettaMemory.added (SyncLettaMemory.computeDiff oldValue newValue)
  = filter (λ l, l ∉ diff_lines oldValue) (diff_lines newValue).
Proof.
  unfold SyncLettaMemory.computeDiff. simpl.
  apply list_filter_iff. intros l. by rewrite elem_of_list_to_set.
Qed.

Lemma computeDiff_removed oldValue newValue :
  SyncLettaMemory.removed (SyncLettaMemory.computeDiff oldValue newValue)
  = filter (λ l, l ∉ diff_lines newValue) (diff_lines oldValue).
Proof.
  unfold SyncLettaMemory.computeDiff. simpl.
  apply list_filter_iff. intros l. by rewrite elem_of_list_to_set.
Qed.

Lemma filter_not_in_difference (xs ys : list string) :
  (list_to_set (filter (λ l, l ∉ ys) xs) : gset string)
  = list_to_set xs ∖ list_to_set ys.
Proof.
  apply set_eq. intros l.
  rewrite elem_of_difference, !elem_of_list_to_set, list_elem_of_filter. tauto.
Qed.

(** What is reported is drawn from the current snapshot, in its order. *)
Lemma detectChangedBlocks_sublist current previous :
  sublist (SyncLettaMemory.detectChangedBlocks current previous) current.
Proof.
  destruct previous as [m|]; simpl; [apply sublist_filter|apply sublist_nil_l].
Qed.

(** A block is reported when its label is new or its value differs. *)
Lemma detectChangedBlocks_spec current (previous : gmap string string) block :
  block ∈ SyncLettaMemory.detectChangedBlocks current (Some previous)
  ↔ block ∈ current ∧ previous !! label block ≠ Some (value block).
Proof.
  unfold SyncLettaMemory.detectChangedBlocks. rewrite list_elem_of_filter.
  destruct (previous !! label block) as [v|]; simpl.
  - rewrite negb_True, bool_decide_spec.
    split.
    + intros [H1 H2]. split; [done|congruence].
    + intros [H1 H2]. split; [congruence|done].
  - split; intros [H1 H2]; by split.
Qed.

Lemma formatChangedBlocksForStdout_labels changed previous :
  br_label <$> SyncLettaMemory.formatChangedBlocksForStdout changed previous
  = label <$> changed.
Proof.
  unfold SyncLettaMemory.formatChangedBlocksForStdout.
  rewrite <- list_fmap_compose. apply list_fmap_ext. intros _ block _. simpl.
  destruct (previous ≫= _) as [previousValue|]; [|done].
  by repeat case_match.
Qed.

Lemma formatOutput_labels messages changed previous :
  br_label <$> delta_blocks (PretoolSync.formatOutput messages changed previous)
  = label <$> changed.
Proof.
  unfold PretoolSync.formatOutput. simpl.
  rewrite <- list_fmap_compose. apply list_fmap_ext. intros _ block _. simpl.
  destruct (previous ≫= _) as [previousValue|]; [|done].
  by repeat case_match.
Qed.

Lemma detectChangedBlocks_filter (bs : list MemoryBlock) (previous : gmap string string) :
  SyncLettaMemory.detectChangedBlocks bs (Some previous)
  = filter (λ b, previous !! label b ≠ Some (value b)) bs.
Proof.
  unfold SyncLettaMemory.detectChangedBlocks. apply list_filter_iff. intros b.
  destruct (previous !! label b) as [v|]; simpl.
  - rewrite negb_True, bool_decide_spec. split; congruence.
  - done.
Qed.

End DiffEngine.

Section DiffEngineClaims.

(** C7. [computeDiff] compares the line sets of the two values, a value
    being split at line feeds, each piece trimmed of surrounding white
    space and empty pieces discarded: as a set, [added] is exactly the
    lines of the new value that are not lines of the old one, and
    [removed] exactly the lines of the old value that are not lines of
    the new one (each a selection, in order, of the lines of its value).
    The old value [likes cats] and the new value [likes cats], [likes
    dogs] give [added = [likes dogs]] and [removed = []]. *)
Theorem C7_computeDiff_line_sets (oldValue newValue : string) :
  let d := SyncLettaMemory.computeDiff oldValue newValue in
  let oldLines := diff_lines oldValue in
  let newLines := diff_lines newValue in
  (∀ v l, l ∈ diff_lines v ↔ l ≠ "" ∧ ∃ raw, raw ∈ Js.split_lines v ∧ l = Js.trim raw) ∧
  (∀ v l, l ∈ diff_lines v →
     starts_with_space l = false ∧ ends_with_space l = false ∧
     has_char Js.newline l = false) ∧
  (list_to_set (SyncLettaMemory.added d) : gset string)
    = list_to_set newLines ∖ list_to_set oldLines ∧
  (list_to_set (SyncLettaMemory.removed d) : gset string)
    = list_to_set oldLines ∖ list_to_set newLines ∧
  SyncLettaMemory.added d = filter (λ l, l ∉ oldLines) newLines ∧
  SyncLettaMemory.removed d = filter (λ l, l ∉ newLines) oldLines ∧
  SyncLettaMemory.computeDiff "likes cats" ("likes cats" +:+ Sample.nl +:+ "likes dogs")
    = {| SyncLettaMemory.added := ["likes dogs"]; SyncLettaMemory.removed := [] |}.
Proof.
  cbv zeta. split_and!.
  - apply diff_lines_spec.
  - intros v l (_ & raw & Hraw & ->)%diff_lines_spec.
    destruct (trim_no_surrounding_space raw) as [Hs He].
    split_and!; [done|done|].
    apply trim_no_newline. by apply (split_lines_no_newline v).
  - rewrite computeDiff_added. apply filter_not_in_difference.
  - rewrite computeDiff_removed. apply filter_not_in_difference.
  - apply computeDiff_added.
  - apply computeDiff_removed.
  - reflexivity.
Qed.

(** C8. Without a previous block-value mapping (first sync of the
    session) [detectChangedBlocks] returns the empty changed set whatever
    the current snapshot, in both scripts, and no block is reported: a
    first run of the UserPromptSubmit hook, with no session record on
    disk, prints a delta without blocks whatever blocks the agent has. *)
Theorem C8_first_sync_silence (current : list MemoryBlock) :
  SyncLettaMemory.detectChangedBlocks current None = [] ∧
  PretoolSync.detectChangedBlocks current None = [] ∧
  SyncLettaMemory.formatChangedBlocksForStdout
    (SyncLettaMemory.detectChangedBlocks current None) None = [] ∧
  filter (λ e, is_ConsoleLog e)
    (run_trace (SyncLettaMemory.main Sample.env)
       (init_world (Sample.remote_of (Sample.agent current) (HttpOk Sample.feed5)) ∅))
  = [ConsoleLog {| delta_messages := []; delta_blocks := [] |}].
Proof. split_and!; reflexivity. Qed.

(** C10. A label present in the previous mapping but absent from the
    current snapshot never appears in the changed set: in both scripts
    [detectChangedBlocks] selects among the current blocks only, so the
    deletion of a whole block is reported neither in the changed set nor
    in the delta built from it. *)
Theorem C10_deleted_blocks_are_not_reported
    (previous : gmap string string) (current : list MemoryBlock) (l : string)
    (messages : list MessageInfo) :
  l ∈ dom previous →
  l ∉ label <$> current →
  sublist (SyncLettaMemory.detectChangedBlocks current (Some previous)) current ∧
  sublist (PretoolSync.detectChangedBlocks current (Some previous)) current ∧
  (l ∉ label <$> SyncLettaMemory.detectChangedBlocks current (Some previous)) ∧
  (l ∉ label <$> PretoolSync.detectChangedBlocks current (Some previous)) ∧
  (l ∉ br_label <$> SyncLettaMemory.formatChangedBlocksForStdout
                      (SyncLettaMemory.detectChangedBlocks current (Some previous))
                      (Some previous)) ∧
  (l ∉ br_label <$> delta_blocks
                      (PretoolSync.formatOutput messages
                         (PretoolSync.detectChangedBlocks current (Some previous))
                         (Some previous))).
Proof.
  intros _ Habsent.
  pose proof (detectChangedBlocks_sublist current (Some previous)) as Hsub.
  assert (l ∉ label <$> SyncLettaMemory.detectChangedBlocks current (Some previous)) as H.
  { intros Hin. apply Habsent. eapply elem_of_sublist; [exact Hin|]. by apply fmap_sublist. }
  rewrite formatChangedBlocksForStdout_labels, formatOutput_labels.
  by split_and!.
Qed.

Lemma C10_deleted_blocks_are_not_reported_witness :
  sublist (SyncLettaMemory.detectChangedBlocks Sample.current_one (Some Sample.previous_two))
          Sample.current_one ∧
  sublist (PretoolSync.detectChangedBlocks Sample.current_one (Some Sample.previous_two))
          Sample.current_one ∧
  ("scratch" ∉ label <$> SyncLettaMemory.detectChangedBlocks
                           Sample.current_one (Some Sample.previous_two)) ∧
  ("scratch" ∉ label <$> PretoolSync.detectChangedBlocks
                           Sample.current_one (Some Sample.previous_two)) ∧
  ("scratch" ∉ br_label <$> SyncLettaMemory.formatChangedBlocksForStdout
                      (SyncLettaMemory.detectChangedBlocks
                         Sample.current_one (Some Sample.previous_two))
                      (Some Sample.previous_two)) ∧
  ("scratch" ∉ br_label <$> delta_blocks
                      (PretoolSync.formatOutput []
                         (PretoolSync.detectChangedBlocks
                            Sample.current_one (Some Sample.previous_two))
                         (Some Sample.previous_two))).
Proof.
  apply (C10_deleted_blocks_are_not_reported
           Sample.previous_two Sample.current_one "scratch" []).
  - apply (bool_decide_unpack _). vm_compute. exact I.
  - apply (bool_decide_unpack _). vm_compute. exact I.
Defined.

End DiffEngineClaims.

(** ** A sync run whose message fetch fails *)

Section DegradedRunClaims.
















(** The run of the UserPromptSubmit hook behind that instance: the
    message fetch fails, the changed block is reported all the same, and
    the cursor stays at [m3]. *)
Example sync_main_with_failed_fetch :
  run_result (SyncLettaMemory.main Sample.env)
             (init_world Sample.remote_down Sample.disk_synced) = Return () ∧
  run_trace (SyncLettaMemory.main Sample.env)
            (init_world Sample.remote_down Sample.disk_synced)
  = [ GetAgent "agent-B";
      GetMessages "conv-A";
      UpdateClaudeMd "/proj"
        (Sample.agent [Sample.persona ("likes cats" +:+ Sample.nl +:+ "likes dogs")])
        (Some "conv-A");
      ConsoleLog {| delta_messages := [];
                    delta_blocks :=
                      [ {| br_label := "persona"; br_status := StatusModified;
                           br_body := DiffLines [] ["likes dogs"] |} ] |};
      SaveSyncState Sample.state_path
        (Sample.state (Some "conv-A")
           (Some {[ "persona" := "likes cats" +:+ Sample.nl +:+ "likes dogs" ]})
           (Some "m3")) ].
Proof. split; vm_compute; reflexivity. Qed.

End DegradedRunClaims.

(** * Further properties of the scripts *)

(** ** The tracker across successive fetches *)

Section TrackerDelivery.

(** With a cursor that occurs in the visible feed, the new messages are
    those of the part of the visible feed before its first occurrence. *)
Lemma newSince_found feed x :
  Js.truthy x = true →
  x ∈ id <$> visible feed →
  ∃ pre msg post,
    visible feed = pre ++ msg :: post ∧ id msg = x ∧ (x ∉ id <$> pre) ∧
    fst (SyncLettaMemory.newSince feed (Some x))
    = omap SyncLettaMemory.toMessageInfo pre.
Proof.
  intros Hx Hin. unfold SyncLettaMemory.newSince. fold (visible feed).
  simpl Js.truthy_opt. rewrite Hx. cbn [fst].
  destruct (Js.findIndex _ (visible feed)) as [i|] eqn:E.
  - unfold Js.findIndex in E. apply fmap_Some in E as ([j msg] & E & ->). simpl.
    apply list_find_Some in E as (Hl & Hp & Hmin).
    apply bool_decide_eq_true in Hp as [= Hid].
    exists (take j (visible feed)), msg, (drop (S j) (visible feed)).
    split_and!; [by rewrite take_drop_middle|done| |done].
    intros (y & Hy & Hyin)%list_elem_of_fmap.
    apply elem_of_take in Hyin as (n & Hn & Hlt).
    apply (Hmin n y Hn Hlt). apply bool_decide_eq_true. by rewrite <- Hy.
  - exfalso. apply findIndex_None in E.
    apply list_elem_of_fmap in Hin as (y & -> & Hy).
    rewrite Forall_forall in E. specialize (E y Hy).
    by rewrite bool_decide_eq_true_2 in E.
Qed.

(** The message at a non-empty cursor is never delivered again: with a
    cursor that is a non-empty string and occurs in the visible window,
    the tracker returns the messages with a text among those that come
    before the first occurrence of the cursor, and only those: none of
    them has the id of the cursor, each has a non-empty text, and they
    are fewer than the window has messages. (An empty cursor is taken
    for none, and the whole window is returned.) *)
Theorem tracker_never_redelivers_cursor
    (k c x : string) (feed : list LettaMessage) (w : World) :
  Js.truthy c = true →
  get_messages (remote w) c = HttpOk feed →
  Js.truthy x = true →
  x ∈ id <$> visible feed →
  ∃ msgs last pre msg post,
    run_result (SyncLettaMemory.fetchAssistantMessages k (Some c) (Some x)) w
      = Return (msgs, last) ∧
    run_result (PretoolSync.fetchNewMessages k (Some c) (Some x)) w
      = Return (msgs, last) ∧
    visible feed = pre ++ msg :: post ∧ id msg = x ∧ (x ∉ id <$> pre) ∧
    msgs = omap SyncLettaMemory.toMessageInfo pre ∧
    (x ∉ mi_id <$> msgs) ∧
    Forall (λ m, Js.truthy (mi_text m) = true) msgs ∧
    length msgs < length (visible feed).
Proof.
  intros Hc Hfeed Hx Hin.
  destruct (newSince_found feed x Hx Hin) as (pre & msg & post & Hv & Hid & Hpre & Hmsgs).
  destruct (SyncLettaMemory.newSince feed (Some x)) as [msgs last] eqn:E.
  cbn [fst] in Hmsgs.
  exists msgs, last, pre, msg, post.
  change (PretoolSync.fetchNewMessages k (Some c) (Some x))
    with (SyncLettaMemory.fetchAssistantMessages k (Some c) (Some x)).
  unfold run_result. rewrite (fetchAssistantMessages_ok k c _ feed w Hc Hfeed), E.
  split_and!; [done..| | |].
  - intros Hbad. apply Hpre.
    eapply elem_of_sublist; [exact Hbad|]. rewrite Hmsgs.
    apply omap_toMessageInfo_sublist.
  - rewrite Hmsgs. apply Forall_forall. intros m (y & _ & Hy)%list_elem_of_omap.
    unfold SyncLettaMemory.toMessageInfo in Hy.
    destruct (Js.or_null _) as [t|] eqn:Ht; [|done].
    injection Hy as <-. simpl. by apply or_null_Some in Ht as [_ ?].
  - rewrite Hmsgs, Hv, length_app. simpl.
    pose proof (sublist_length _ _ (omap_toMessageInfo_sublist pre)) as Hlen.
    rewrite !length_fmap in Hlen. lia.
Qed.

Lemma tracker_never_redelivers_cursor_witness :
  ∃ msgs last pre msg post,
    run_result (SyncLettaMemory.fetchAssistantMessages "key" (Some "conv-A") (Some "m3"))
               (init_world Sample.remote_news ∅) = Return (msgs, last) ∧
    run_result (PretoolSync.fetchNewMessages "key" (Some "conv-A") (Some "m3"))
               (init_world Sample.remote_news ∅) = Return (msgs, last) ∧
    visible Sample.feed5 = pre ++ msg :: post ∧ id msg = "m3" ∧ ("m3" ∉ id <$> pre) ∧
    msgs = omap SyncLettaMemory.toMessageInfo pre ∧
    ("m3" ∉ mi_id <$> msgs) ∧
    Forall (λ m, Js.truthy (mi_text m) = true) msgs ∧
    length msgs < length (visible Sample.feed5).
Proof.
  apply (tracker_never_redelivers_cursor
           "key" "conv-A" "m3" Sample.feed5 (init_world Sample.remote_news ∅));
    [reflexivity|reflexivity|reflexivity|].
  apply (bool_decide_unpack _). vm_compute. exact I.
Defined.

(** Successive fetches deliver every message once. When the feed has
    grown at its newest end by [feed_new], the cursor is the id of the
    newest visible message of the earlier feed (the cursor the tracker
    returned for it), that id is a non-empty string and no visible
    message of [feed_new] has it, the tracker returns exactly the visible
    messages of [feed_new] that carry a text, and moves the cursor to
    the newest of them. *)
Theorem tracker_delivers_exactly_the_new
    (k c : string) (feed_new feed_old : list LettaMessage)
    (msg : LettaMessage) (rest : list LettaMessage) (w : World) :
  Js.truthy c = true →
  get_messages (remote w) c = HttpOk (feed_new ++ feed_old) →
  visible feed_old = msg :: rest →
  Js.truthy (id msg) = true →
  id msg ∉ id <$> visible feed_new →
  snd (SyncLettaMemory.newSince feed_old None) = Some (id msg) ∧
  run_result (SyncLettaMemory.fetchAssistantMessages k (Some c) (Some (id msg))) w
    = Return (omap SyncLettaMemory.toMessageInfo (visible feed_new),
              match visible feed_new with
              | newest :: _ => Some (id newest)
              | [] => Some (id msg)
              end) ∧
  run_result (PretoolSync.fetchNewMessages k (Some c) (Some (id msg))) w
    = run_result (SyncLettaMemory.fetchAssistantMessages k (Some c) (Some (id msg))) w.
Proof.
  intros Hc Hfeed Hold Hid Hfresh.
  split; [by rewrite newSince_cursor, Hold|]. split; [|done].
  unfold run_result. rewrite (fetchAssistantMessages_ok k c _ _ w Hc Hfeed). cbn [fst].
  f_equal.
  assert (visible (feed_new ++ feed_old) = visible feed_new ++ msg :: rest) as Hv.
  { unfold visible. rewrite filter_app. fold (visible feed_new) (visible feed_old).
    by rewrite Hold. }
  rewrite (surjective_pairing (SyncLettaMemory.newSince _ _)). f_equal.
  - destruct (newSince_found (feed_new ++ feed_old) (id msg) Hid)
      as (pre & m' & post & Hv' & Hid' & Hpre & ->).
    { rewrite Hv, fmap_app, fmap_cons. apply elem_of_app. right. by left. }
    f_equal. rewrite Hv in Hv'.
    (* both decompositions split at the first message with the id of the cursor *)
    clear -Hv' Hid' Hpre Hfresh.
    revert pre Hv' Hpre. induction (visible feed_new) as [|n l IH]; intros pre Hv' Hpre.
    + destruct pre as [|p pre]; [done|]. simpl in Hv'. injection Hv' as <- _.
      exfalso. apply Hpre. rewrite fmap_cons. by left.
    + destruct pre as [|p pre]; simpl in Hv'.
      * injection Hv' as -> _. exfalso. apply Hfresh. rewrite fmap_cons, Hid'. by left.
      * injection Hv' as -> Hv'. f_equal. apply IH.
        -- intros Hbad. apply Hfresh. rewrite fmap_cons. by right.
        -- done.
        -- intros Hbad. apply Hpre. rewrite fmap_cons. by right.
  - rewrite newSince_cursor, Hv. by destruct (visible feed_new).
Qed.

Lemma tracker_delivers_exactly_the_new_witness :
  snd (SyncLettaMemory.newSince [Sample.msg "m3"; Sample.msg "m2"; Sample.msg "m1"] None)
    = Some "m3" ∧
  run_result (SyncLettaMemory.fetchAssistantMessages "key" (Some "conv-A") (Some "m3"))
             (init_world Sample.remote_news ∅)
    = Return (omap SyncLettaMemory.toMessageInfo
                   (visible [Sample.msg "m5"; Sample.msg "m4"]),
              match visible [Sample.msg "m5"; Sample.msg "m4"] with
              | newest :: _ => Some (id newest)
              | [] => Some "m3"
              end) ∧
  run_result (PretoolSync.fetchNewMessages "key" (Some "conv-A") (Some "m3"))
             (init_world Sample.remote_news ∅)
    = run_result (SyncLettaMemory.fetchAssistantMessages "key" (Some "conv-A") (Some "m3"))
                 (init_world Sample.remote_news ∅).
Proof.
  apply (tracker_delivers_exactly_the_new
           "key" "conv-A" [Sample.msg "m5"; Sample.msg "m4"]
           [Sample.msg "m3"; Sample.msg "m2"; Sample.msg "m1"]
           (Sample.msg "m3") [Sample.msg "m2"; Sample.msg "m1"]
           (init_world Sample.remote_news ∅));
    [reflexivity|reflexivity|reflexivity|reflexivity|].
  apply (bool_decide_unpack _). vm_compute. exact I.
Defined.

End TrackerDelivery.

(** ** The state store *)

Section StateStore.


(** [loadSyncState] fails open: when the file of the session is missing
    or does not decode to a session record, it returns the zero record of
    the session (index [-1], no conversation, no block values, no cursor)
    without failing and without touching the world. *)
Theorem loadSyncState_fails_open (cwd sid : string) (w : World) :
  (∀ st, disk w !! ConversationUtils.getSyncStateFile cwd sid ≠ Some (StateFile st)) →
  ConversationUtils.loadSyncState cwd sid w
  = (Return {| lastProcessedIndex := (-1)%Z; sessionId := sid; conversationId := None;
               lastBlockValues := None; lastSeenMessageId := None |}, w).
Proof.
  intros H. unfold ConversationUtils.loadSyncState, read_file. rewrite bind_run.
  destruct (disk w !! _) as [[st| | |]|] eqn:E; try done.
  by destruct (H st).
Qed.

Lemma loadSyncState_fails_open_witness :
  ConversationUtils.loadSyncState "/proj" "s1"
    (init_world Sample.remote_news {[ Sample.state_path := Garbage ]})
  = (Return {| lastProcessedIndex := (-1)%Z; sessionId := "s1"; conversationId := None;
               lastBlockValues := None; lastSeenMessageId := None |},
     init_world Sample.remote_news {[ Sample.state_path := Garbage ]}).
Proof.
  apply (loadSyncState_fails_open "/proj" "s1"
           (init_world Sample.remote_news {[ Sample.state_path := Garbage ]})).
  intros st. vm_compute. discriminate.
Defined.

End StateStore.

(** ** The binding table *)

Section BindingTable.

Lemma existing_conversation_None_unbound a s cwd state w :
  existing_conversation a s cwd state w = None →
  Js.or_null (conversationId state) = None.
Proof. unfold existing_conversation. by destruct (Js.or_null _). Qed.

(** A session bound already is answered without any effect. *)
Lemma getOrCreateConversation_existing k a s cwd c state w :
  existing_conversation a s cwd state w = Some c →
  ConversationUtils.getOrCreateConversation k a s cwd state w
  = (Return (c, set_conversationId (Some c) state), w).
Proof.
  unfold existing_conversation. intros H.
  destruct (Js.or_null (conversationId state)) as [c'|] eqn:Hstate.
  - injection H as ->. pose proof Hstate as [Hc _]%or_null_Some.
    rewrite (set_conversationId_same c state Hc).
    by apply getOrCreateConversation_fast.
  - destruct (conversations_of w cwd !! s) as [[?|e]|] eqn:Hentry; [done| |done].
    destruct (Js.truthy (ce_agentId e)) eqn:Ht; [|done].
    destruct (bool_decide (ce_agentId e = a)) eqn:Ha; [|done].
    apply bool_decide_eq_true in Ha. injection H as <-.
    by apply getOrCreateConversation_reuse.
Qed.

(** A session not bound yet goes through the creation of a conversation,
    recorded over the table as it was found. *)
Lemma getOrCreateConversation_unbound k a s cwd state w :
  existing_conversation a s cwd state w = None →
  ConversationUtils.getOrCreateConversation k a s cwd state w
  = (conversationId0 ← ConversationUtils.createConversation k a;
     _ ← ConversationUtils.saveConversationsMap cwd
           (<[s := Current {| ce_conversationId := conversationId0; ce_agentId := a |}]>
              (conversations_of w cwd));
     mret (conversationId0, set_conversationId (Some conversationId0) state)) w.
Proof.
  intros H. pose proof (existing_conversation_None_unbound _ _ _ _ _ H) as Hstate.
  unfold existing_conversation in H. rewrite Hstate in H.
  unfold ConversationUtils.getOrCreateConversation.
  rewrite Hstate, bind_run, loadConversationsMap_run. cbv zeta.
  assert (∀ m : gmap string ConversationsMapValue,
    (∀ x, <[s := x]> m = <[s := x]> (conversations_of w cwd)) →
    (conversationId0 ← ConversationUtils.createConversation k a;
     _ ← ConversationUtils.saveConversationsMap cwd
           (<[s := Current {| ce_conversationId := conversationId0; ce_agentId := a |}]> m);
     mret (conversationId0, set_conversationId (Some conversationId0) state)) w
    = (conversationId0 ← ConversationUtils.createConversation k a;
       _ ← ConversationUtils.saveConversationsMap cwd
             (<[s := Current {| ce_conversationId := conversationId0; ce_agentId := a |}]>
                (conversations_of w cwd));
       mret (conversationId0, set_conversationId (Some conversationId0) state)) w) as Hsame.
  { intros m Hm. rewrite !bind_run.
    destruct (ConversationUtils.createConversation k a w) as [[c| |] w1]; [|done..].
    by rewrite Hm. }
  destruct (conversations_of w cwd !! s) as [[c|e]|] eqn:Hentry; simpl.
  - destruct (Js.truthy c); simpl; apply Hsame; [|done].
    intros x. by rewrite insert_delete_eq.
  - destruct (Js.truthy (ce_agentId e)) eqn:Ht; simpl.
    + destruct (decide (ce_agentId e = a)) as [Heq|Hne].
      * rewrite bool_decide_eq_true_2 in H by done. done.
      * rewrite (bool_decide_eq_false_2 (Some (ce_agentId e) = Some a)) by congruence.
        simpl. apply Hsame. intros x. by rewrite insert_delete_eq.
    + apply Hsame. intros x. by rewrite insert_delete_eq.
  - by apply Hsame.
Qed.

Lemma createConversation_run k a w :
  ConversationUtils.createConversation k a w
  = match post_conversation (remote w) a with
    | HttpOk newId => (Return newId, after w [PostConversation a])
    | HttpError _ => (Throw "Failed to create conversation", after w [PostConversation a])
    | NetworkError => (Throw "fetch failed", after w [PostConversation a])
    end.
Proof.
  unfold ConversationUtils.createConversation, fetch, emit, ask_remote, after.
  rewrite !bind_run. simpl. by destruct (post_conversation (remote w) a).
Qed.

(** The world after a conversation has been created and bound. *)
Lemma getOrCreateConversation_unbound_ok k a s cwd state newId w :
  existing_conversation a s cwd state w = None →
  post_conversation (remote w) a = HttpOk newId →
  ConversationUtils.getOrCreateConversation k a s cwd state w
  = (Return (newId, set_conversationId (Some newId) state),
     let table :=
       <[s := Current {| ce_conversationId := newId; ce_agentId := a |}]>
         (conversations_of w cwd) in
     {| remote := remote w;
        disk := <[ConversationUtils.getConversationsFile cwd := ConversationsFile table]>
                  (disk w);
        trace := trace w ++ [PostConversation a;
                             SaveConversationsMap
                               (ConversationUtils.getConversationsFile cwd) table] |}).
Proof.
  intros H Hpost. rewrite (getOrCreateConversation_unbound k a s cwd state w H).
  rewrite bind_run, createConversation_run, Hpost.
  unfold ConversationUtils.saveConversationsMap, write_file, emit, after.
  rewrite !bind_run. simpl. by rewrite <- (assoc_L (++)).
Qed.

Lemma getOrCreateConversation_unbound_failed k a s cwd state w :
  existing_conversation a s cwd state w = None →
  (∀ newId, post_conversation (remote w) a ≠ HttpOk newId) →
  ∃ e, ConversationUtils.getOrCreateConversation k a s cwd state w
       = (Throw e, after w [PostConversation a]).
Proof.
  intros H Hpost. rewrite (getOrCreateConversation_unbound k a s cwd state w H).
  rewrite bind_run, createConversation_run.
  destruct (post_conversation (remote w) a) as [|status|newId]; eauto.
  by destruct (Hpost newId).
Qed.

End BindingTable.

Section BindingTableProperties.



(** When the create request fails (a status that is not 2xx, or no reply
    at all), [getOrCreateConversation] throws and leaves everything as it
    was: the entry it was about to replace is still in the table, no file
    is written, and the only trace is the request. *)
Theorem getOrCreateConversation_create_failure_changes_nothing
    (k a s cwd : string) (state : SyncState) (w : World) :
  existing_conversation a s cwd state w = None →
  (∀ newId, post_conversation (remote w) a ≠ HttpOk newId) →
  let w' := snd (ConversationUtils.getOrCreateConversation k a s cwd state w) in
  (∃ e, run_result (ConversationUtils.getOrCreateConversation k a s cwd state) w = Throw e) ∧
  disk w' = disk w ∧
  conversations_of w' cwd = conversations_of w cwd ∧
  trace w' = trace w ++ [PostConversation a].
Proof.
  intros H Hpost. cbv zeta. unfold run_result.
  destruct (getOrCreateConversation_unbound_failed k a s cwd state w H Hpost) as [e ->].
  split_and!; eauto.
Qed.

Lemma getOrCreateConversation_create_failure_changes_nothing_witness :
  let w := init_world (Sample.remote_failing_create) (Sample.disk_table Sample.table_A) in
  let w' := snd (ConversationUtils.getOrCreateConversation
                   "key" "agent-B" "s1" "/proj" Sample.unbound w) in
  (∃ e, run_result (ConversationUtils.getOrCreateConversation
                      "key" "agent-B" "s1" "/proj" Sample.unbound) w = Throw e) ∧
  disk w' = disk w ∧
  conversations_of w' "/proj" = conversations_of w "/proj" ∧
  trace w' = trace w ++ [PostConversation "agent-B"].
Proof.
  apply (getOrCreateConversation_create_failure_changes_nothing
           "key" "agent-B" "s1" "/proj" Sample.unbound
           (init_world Sample.remote_failing_create (Sample.disk_table Sample.table_A))).
  - reflexivity.
  - intros newId. vm_compute. discriminate.
Defined.

(** The three ways [getOrCreateConversation] can end. *)
Lemma getOrCreateConversation_cases k a s cwd state w :
  (∃ c, existing_conversation a s cwd state w = Some c ∧
        ConversationUtils.getOrCreateConversation k a s cwd state w
        = (Return (c, set_conversationId (Some c) state), w)) ∨
  (∃ newId, existing_conversation a s cwd state w = None ∧
        post_conversation (remote w) a = HttpOk newId ∧
        ConversationUtils.getOrCreateConversation k a s cwd state w
        = (Return (newId, set_conversationId (Some newId) state),
           {| remote := remote w;
              disk := <[ConversationUtils.getConversationsFile cwd :=
                          ConversationsFile
                            (<[s := Current {| ce_conversationId := newId;
                                               ce_agentId := a |}]>
                               (conversations_of w cwd))]> (disk w);
              trace := trace w ++ [PostConversation a;
                                   SaveConversationsMap
                                     (ConversationUtils.getConversationsFile cwd)
                                     (<[s := Current {| ce_conversationId := newId;
                                                        ce_agentId := a |}]>
                                        (conversations_of w cwd))] |})) ∨
  (∃ e, existing_conversation a s cwd state w = None ∧
        (∀ newId, post_conversation (remote w) a ≠ HttpOk newId) ∧
        ConversationUtils.getOrCreateConversation k a s cwd state w
        = (Throw e, after w [PostConversation a])).
Proof.
  destruct (existing_conversation a s cwd state w) as [c|] eqn:H.
  - left. exists c. split; [done|]. by apply getOrCreateConversation_existing.
  - destruct (post_conversation (remote w) a) as [|status|newId] eqn:Hpost.
    + right. right.
      destruct (getOrCreateConversation_unbound_failed k a s cwd state w H) as [e He].
      { intros newId. by rewrite Hpost. }
      exists e. by split_and!.
    + right. right.
      destruct (getOrCreateConversation_unbound_failed k a s cwd state w H) as [e He].
      { intros newId. by rewrite Hpost. }
      exists e. by split_and!.
    + right. left. exists newId. split_and!; [done|done|].
      by apply getOrCreateConversation_unbound_ok.
Qed.

(** Resolving one session never touches the binding of another, nor any
    file but the conversations file of the project: whatever the
    outcome. *)
Theorem getOrCreateConversation_keeps_other_bindings
    (k a s cwd : string) (state : SyncState) (w : World) :
  let w' := snd (ConversationUtils.getOrCreateConversation k a s cwd state w) in
  (∀ s', s' ≠ s → conversations_of w' cwd !! s' = conversations_of w cwd !! s') ∧
  (∀ p, p ≠ ConversationUtils.getConversationsFile cwd → disk w' !! p = disk w !! p).
Proof.
  cbv zeta.
  destruct (getOrCreateConversation_cases k a s cwd state w)
    as [(c & _ & ->)|[(newId & _ & _ & ->)|(e & _ & _ & ->)]]; simpl.
  - done.
  - split.
    + intros s' Hs'. unfold conversations_of at 1. simpl.
      by rewrite lookup_insert_eq, lookup_insert_ne.
    + intros p Hp. by rewrite lookup_insert_ne.
  - done.
Qed.

(** What [getOrCreateConversation] returns is what the session record
    carries afterwards, the rest of the record being left as it was; and
    it fails only when a conversation had to be created and could not
    be. It never ends the process. *)
Theorem getOrCreateConversation_records_what_it_returns
    (k a s cwd : string) (state : SyncState) (w : World) :
  match run_result (ConversationUtils.getOrCreateConversation k a s cwd state) w with
  | Return (c, state') =>
      conversationId state' = Some c ∧
      sessionId state' = sessionId state ∧
      lastProcessedIndex state' = lastProcessedIndex state ∧
      lastBlockValues state' = lastBlockValues state ∧
      lastSeenMessageId state' = lastSeenMessageId state
  | Throw _ =>
      existing_conversation a s cwd state w = None ∧
      ∀ newId, post_conversation (remote w) a ≠ HttpOk newId
  | Exit _ => False
  end.
Proof.
  unfold run_result.
  destruct (getOrCreateConversation_cases k a s cwd state w)
    as [(c & _ & ->)|[(newId & _ & _ & ->)|(e & ? & ? & ->)]]; simpl; done.
Qed.

(** Resolving again gives the same conversation. Once
    [getOrCreateConversation] has returned a non-empty id, calling it
    again with the record it returned gives that id back with no effect
    at all, whatever agent is configured by then. *)
Theorem getOrCreateConversation_is_stable
    (k a a' s cwd c : string) (state state' : SyncState) (w : World) :
  run_result (ConversationUtils.getOrCreateConversation k a s cwd state) w
    = Return (c, state') →
  Js.truthy c = true →
  let w' := snd (ConversationUtils.getOrCreateConversation k a s cwd state w) in
  ConversationUtils.getOrCreateConversation k a' s cwd state' w' = (Return (c, state'), w').
Proof.
  intros Hrun Hc. cbv zeta.
  pose proof (getOrCreateConversation_records_what_it_returns k a s cwd state w) as Hrec.
  rewrite Hrun in Hrec. destruct Hrec as (Hconv & _).
  apply getOrCreateConversation_fast. by apply or_null_Some.
Qed.

Lemma getOrCreateConversation_is_stable_witness :
  let w := init_world Sample.remote_news (Sample.disk_table Sample.table_A) in
  let w' := snd (ConversationUtils.getOrCreateConversation
                   "key" "agent-B" "s1" "/proj" Sample.unbound w) in
  ConversationUtils.getOrCreateConversation
    "key" "agent-A" "s1" "/proj" (set_conversationId (Some "conv-new") Sample.unbound) w'
  = (Return ("conv-new", set_conversationId (Some "conv-new") Sample.unbound), w').
Proof.
  apply (getOrCreateConversation_is_stable
           "key" "agent-B" "agent-A" "s1" "/proj" "conv-new" Sample.unbound
           (set_conversationId (Some "conv-new") Sample.unbound)
           (init_world Sample.remote_news (Sample.disk_table Sample.table_A)));
    reflexivity.
Defined.



(** [lookupConversation] does not look at the recorded agent, and what it
    finds is what resolve then keeps. For any non-empty id held by the
    table for the session, as a legacy string or under any agent,
    [lookupConversation] returns that id with no effect; and once a
    caller has put it into the session record, as [main] of
    [sync_letta_memory.ts] does, [getOrCreateConversation] returns it
    under every configured agent, creating nothing. *)
Theorem lookupConversation_ignores_the_agent
    (k a s cwd c : string) (v : ConversationsMapValue) (state : SyncState) (w : World) :
  conversations_of w cwd !! s = Some v →
  fst (ConversationUtils.entry_of v) = c →
  Js.truthy c = true →
  ConversationUtils.lookupConversation cwd s w = (Return (Some c), w) ∧
  ConversationUtils.getOrCreateConversation k a s cwd (set_conversationId (Some c) state) w
  = (Return (c, set_conversationId (Some c) state), w).
Proof.
  intros Hentry Hv Hc. split.
  - unfold ConversationUtils.lookupConversation, read_file. rewrite bind_run.
    unfold conversations_of in Hentry.
    destruct (disk w !! _) as [[| m | |]|]; try done. rewrite Hentry.
    destruct v as [c'|e]; simpl in *; subst; [by rewrite Hc|done].
  - apply getOrCreateConversation_fast. by apply or_null_Some.
Qed.

Lemma lookupConversation_ignores_the_agent_witness :
  let w := init_world Sample.remote_news (Sample.disk_table Sample.table_A) in
  ConversationUtils.lookupConversation "/proj" "s1" w = (Return (Some "conv-A"), w) ∧
  ConversationUtils.getOrCreateConversation
    "key" "agent-B" "s1" "/proj" (set_conversationId (Some "conv-A") Sample.unbound) w
  = (Return ("conv-A", set_conversationId (Some "conv-A") Sample.unbound), w).
Proof.
  apply (lookupConversation_ignores_the_agent
           "key" "agent-B" "s1" "/proj" "conv-A"
           (Current {| ce_conversationId := "conv-A"; ce_agentId := "agent-A" |})
           Sample.unbound
           (init_world Sample.remote_news (Sample.disk_table Sample.table_A)));
    reflexivity.
Defined.

End BindingTableProperties.

(** ** Snapshots and their diffs *)

Section Snapshots.

Lemma block_values_snoc (bs : list MemoryBlock) (b : MemoryBlock) :
  block_values (bs ++ [b])
  = if decide (label b = "__proto__") then block_values bs
    else <[label b := value b]> (block_values bs).
Proof. unfold block_values. by rewrite foldl_snoc. Qed.

Lemma filter_none {A} (P : A → Prop) `{!∀ x, Decision (P x)} (l : list A) :
  (∀ x, x ∈ l → ¬ P x) → filter P l = [].
Proof.
  induction l as [|x l IH]; intros Hall; [done|].
  rewrite filter_cons_False by (apply Hall; by left).
  apply IH. intros y Hy. apply Hall. by right.
Qed.

Lemma filter_ext_elem_of {A} (P Q : A → Prop)
    `{!∀ x, Decision (P x)} `{!∀ x, Decision (Q x)} (l : list A) :
  (∀ x, x ∈ l → P x ↔ Q x) → filter P l = filter Q l.
Proof.
  induction l as [|x l IH]; intros Hall; [done|].
  assert (filter P l = filter Q l) as Hl.
  { apply IH. intros y Hy. apply Hall. by right. }
  destruct (decide (P x)) as [HP|HP].
  - rewrite !filter_cons_True; [by rewrite Hl| |done]. apply Hall; [by left|done].
  - rewrite !filter_cons_False; [done| |done]. intros HQ. apply HP, Hall; [by left|done].
Qed.

Lemma block_values_proto (bs : list MemoryBlock) : block_values bs !! "__proto__" = None.
Proof.
  induction bs as [|b bs IH] using rev_ind; [done|].
  rewrite block_values_snoc. case_decide as Hb; [done|].
  by rewrite lookup_insert_ne.
Qed.

(** The mapping recorded for a snapshot holds, for every label but
    [__proto__], the value of the last block of the snapshot with that
    label, later blocks overwriting earlier ones, and nothing for a label
    the snapshot does not have. For [__proto__] it holds nothing, whatever
    the snapshot. *)
Theorem block_values_last_wins (bs : list MemoryBlock) (l : string) :
  block_values bs !! l
  = (if decide (l = "__proto__") then None
     else value <$> last (filter (λ b, label b = l) bs)) ∧
  dom (block_values bs)
  = (list_to_set (label <$> bs) : gset string) ∖ {["__proto__"]}.
Proof.
  split.
  - case_decide as Hl; [subst l; apply block_values_proto|].
    induction bs as [|b bs IH] using rev_ind; [done|].
    rewrite block_values_snoc, filter_app.
    destruct (decide (label b = l)) as [Hb|Hb].
    + rewrite (filter_cons_True _ b []) by done. rewrite filter_nil, last_snoc.
      rewrite decide_False by congruence. subst l. by rewrite lookup_insert_eq.
    + rewrite (filter_cons_False _ b []) by done. rewrite filter_nil, app_nil_r.
      case_decide; [done|]. by rewrite lookup_insert_ne.
  - induction bs as [|b bs IH] using rev_ind.
    { change (block_values []) with (∅ : gmap string string).
      rewrite dom_empty_L. apply set_eq. intros x.
      rewrite elem_of_difference, fmap_nil, list_to_set_nil, elem_of_empty. tauto. }
    rewrite block_values_snoc, fmap_app, list_to_set_app_L. simpl.
    rewrite (right_id_L ∅ (∪)). apply set_eq. intros x.
    case_decide as Hb.
    + rewrite IH, Hb, !elem_of_difference, elem_of_union, !elem_of_singleton. tauto.
    + rewrite dom_insert_L, IH, elem_of_union, !elem_of_difference, elem_of_union,
        !elem_of_singleton.
      split; [|tauto]. intros [->|?]; [|tauto]. tauto.
Qed.

Lemma block_values_unique (bs : list MemoryBlock) (b : MemoryBlock) :
  NoDup (label <$> bs) → b ∈ bs → label b ≠ "__proto__" →
  block_values bs !! label b = Some (value b).
Proof.
  induction bs as [|x bs IH] using rev_ind; intros Hnd Hb Hproto;
    [by apply elem_of_nil in Hb|].
  rewrite fmap_app in Hnd. apply NoDup_app in Hnd as (Hnd & Hx & _).
  rewrite block_values_snoc.
  apply elem_of_app in Hb as [Hb|Hb].
  - assert (label x ≠ label b) as Hne.
    { intros Heq. apply (Hx (label b)); [by apply list_elem_of_fmap_2|].
      rewrite <- Heq. simpl. by left. }
    case_decide; [by apply IH|]. rewrite lookup_insert_ne; [by apply IH|done].
  - apply list_elem_of_singleton in Hb as ->.
    rewrite decide_False by done. by rewrite lookup_insert_eq.
Qed.

Lemma detectChangedBlocks_after_sync (bs : list MemoryBlock) :
  NoDup (label <$> bs) →
  SyncLettaMemory.detectChangedBlocks bs (Some (block_values bs))
  = filter (λ b, label b = "__proto__") bs.
Proof.
  intros Hnd. rewrite detectChangedBlocks_filter. apply filter_ext_elem_of.
  intros b Hb. split.
  - intros Hne. destruct (decide (label b = "__proto__")) as [|Hproto]; [done|].
    destruct Hne. by apply block_values_unique.
  - intros ->. by rewrite block_values_proto.
Qed.

(** A snapshot with unique labels, compared with the mapping recorded
    from it, shows as changed the block labelled [__proto__], if it has
    one, and no other, in both scripts: without such a block, an
    unchanged agent is seen as unchanged. *)
Theorem detectChangedBlocks_after_sync_is_empty (bs : list MemoryBlock) :
  NoDup (label <$> bs) →
  SyncLettaMemory.detectChangedBlocks bs (Some (block_values bs))
    = filter (λ b, label b = "__proto__") bs ∧
  PretoolSync.detectChangedBlocks bs (Some (block_values bs))
    = filter (λ b, label b = "__proto__") bs ∧
  ("__proto__" ∉ label <$> bs →
   SyncLettaMemory.detectChangedBlocks bs (Some (block_values bs)) = [] ∧
   PretoolSync.detectChangedBlocks bs (Some (block_values bs)) = []).
Proof.
  intros Hnd. pose proof (detectChangedBlocks_after_sync bs Hnd) as H.
  split_and!; [done|done|]. intros Hproto.
  assert (SyncLettaMemory.detectChangedBlocks bs (Some (block_values bs)) = []) as H0.
  { rewrite H. apply filter_none. intros b Hb Hl. apply Hproto.
    rewrite <- Hl. by apply list_elem_of_fmap_2. }
  by split.
Qed.

Lemma detectChangedBlocks_after_sync_is_empty_witness :
  SyncLettaMemory.detectChangedBlocks Sample.current_two
    (Some (block_values Sample.current_two))
    = filter (λ b, label b = "__proto__") Sample.current_two ∧
  PretoolSync.detectChangedBlocks Sample.current_two
    (Some (block_values Sample.current_two))
    = filter (λ b, label b = "__proto__") Sample.current_two ∧
  ("__proto__" ∉ label <$> Sample.current_two →
   SyncLettaMemory.detectChangedBlocks Sample.current_two
     (Some (block_values Sample.current_two)) = [] ∧
   PretoolSync.detectChangedBlocks Sample.current_two
     (Some (block_values Sample.current_two)) = []).
Proof.
  apply (detectChangedBlocks_after_sync_is_empty Sample.current_two).
  apply (bool_decide_unpack _). vm_compute. exact I.
Defined.

(** With repeated labels the recorded mapping keeps the last value only,
    so an earlier block with another value is reported as changed on
    every later sync although nothing changed. *)
Example detectChangedBlocks_repeated_label :
  SyncLettaMemory.detectChangedBlocks
    [Sample.persona "likes cats"; Sample.persona "likes dogs"]
    (Some (block_values [Sample.persona "likes cats"; Sample.persona "likes dogs"]))
  = [Sample.persona "likes cats"].
Proof. reflexivity. Qed.

(** A block labelled [__proto__] is never recorded, and so is reported as
    changed at every run. *)
Example detectChangedBlocks_proto_label :
  let proto := {| label := "__proto__"; description := ""; value := "v" |} in
  block_values [proto; Sample.persona "likes cats"] = {[ "persona" := "likes cats" ]} ∧
  SyncLettaMemory.detectChangedBlocks [proto; Sample.persona "likes cats"]
    (Some (block_values [proto; Sample.persona "likes cats"])) = [proto] ∧
  SyncLettaMemory.formatChangedBlocksForStdout_throws [proto]
    (Some (block_values [proto; Sample.persona "likes cats"])) = true.
Proof. split_and!; reflexivity. Qed.

Lemma reads_inherited_own (previous : gmap string string) (b : MemoryBlock) (v : string) :
  previous !! label b = Some v → reads_inherited (Some previous) b = false.
Proof. intros H. unfold reads_inherited. by rewrite H. Qed.

(** When one block of a snapshot with unique labels, none of them
    [__proto__], gets another value and the rest stays as it was, exactly
    that block is reported; the formatters do not fail on it and report
    it as modified. *)
Theorem detectChangedBlocks_single_modification
    (pre post : list MemoryBlock) (b b' : MemoryBlock) :
  NoDup (label <$> pre ++ b :: post) →
  "__proto__" ∉ label <$> pre ++ b :: post →
  label b' = label b →
  value b' ≠ value b →
  let previous := block_values (pre ++ b :: post) in
  SyncLettaMemory.detectChangedBlocks (pre ++ b' :: post) (Some previous) = [b'] ∧
  PretoolSync.detectChangedBlocks (pre ++ b' :: post) (Some previous) = [b'] ∧
  SyncLettaMemory.formatChangedBlocksForStdout_throws [b'] (Some previous) = false ∧
  PretoolSync.formatOutput_throws [b'] (Some previous) = false ∧
  br_status <$> SyncLettaMemory.formatChangedBlocksForStdout [b'] (Some previous)
    = [StatusModified] ∧
  br_status <$> delta_blocks (PretoolSync.formatOutput [] [b'] (Some previous))
    = [StatusModified].
Proof.
  intros Hnd Hproto Hl Hv. cbv zeta.
  assert (∀ x, x ∈ pre ++ b :: post →
               block_values (pre ++ b :: post) !! label x = Some (value x)) as Hrec.
  { intros x Hx. apply block_values_unique; [done|done|].
    intros Hp. apply Hproto. rewrite <- Hp. by apply list_elem_of_fmap_2. }
  assert (block_values (pre ++ b :: post) !! label b' = Some (value b)) as Hb.
  { rewrite Hl. apply Hrec. apply elem_of_app. right. by left. }
  assert (SyncLettaMemory.detectChangedBlocks (pre ++ b' :: post)
            (Some (block_values (pre ++ b :: post))) = [b']) as H.
  { rewrite detectChangedBlocks_filter, filter_app, filter_cons_True by congruence.
    rewrite !filter_none; [done| |].
    - intros x Hx Hne. apply Hne, Hrec. apply elem_of_app. right. by right.
    - intros x Hx Hne. apply Hne, Hrec. apply elem_of_app. by left. }
  assert (SyncLettaMemory.formatChangedBlocksForStdout_throws [b']
            (Some (block_values (pre ++ b :: post))) = false) as Hthrows.
  { unfold SyncLettaMemory.formatChangedBlocksForStdout_throws. cbn [existsb].
    by rewrite (reads_inherited_own _ _ _ Hb). }
  split_and!; [done|done|done|done| |].
  - unfold SyncLettaMemory.formatChangedBlocksForStdout. simpl. rewrite Hb.
    by repeat case_match.
  - unfold PretoolSync.formatOutput. simpl. rewrite Hb. by repeat case_match.
Qed.

Lemma detectChangedBlocks_single_modification_witness :
  let previous := block_values ([Sample.scratch "to do"] ++ Sample.persona "likes cats" :: []) in
  SyncLettaMemory.detectChangedBlocks
    ([Sample.scratch "to do"] ++ Sample.persona "likes dogs" :: []) (Some previous)
    = [Sample.persona "likes dogs"] ∧
  PretoolSync.detectChangedBlocks
    ([Sample.scratch "to do"] ++ Sample.persona "likes dogs" :: []) (Some previous)
    = [Sample.persona "likes dogs"] ∧
  SyncLettaMemory.formatChangedBlocksForStdout_throws
    [Sample.persona "likes dogs"] (Some previous) = false ∧
  PretoolSync.formatOutput_throws [Sample.persona "likes dogs"] (Some previous) = false ∧
  br_status <$> SyncLettaMemory.formatChangedBlocksForStdout
                  [Sample.persona "likes dogs"] (Some previous) = [StatusModified] ∧
  br_status <$> delta_blocks (PretoolSync.formatOutput []
                  [Sample.persona "likes dogs"] (Some previous)) = [StatusModified].
Proof.
  apply (detectChangedBlocks_single_modification
           [Sample.scratch "to do"] [] (Sample.persona "likes cats")
           (Sample.persona "likes dogs")).
  - apply (bool_decide_unpack _). vm_compute. exact I.
  - apply (bool_decide_unpack _). vm_compute. exact I.
  - reflexivity.
  - vm_compute. discriminate.
Defined.

Lemma existsb_false_elem_of {A} (f : A → bool) (l : list A) (x : A) :
  existsb f l = false → x ∈ l → f x = false.
Proof.
  induction l as [|y l IH]; intros H Hx; [by apply elem_of_nil in Hx|].
  simpl in H. apply orb_false_iff in H as [Hy Hl].
  apply elem_of_cons in Hx as [->|Hx]; [done|by apply IH].
Qed.

Lemma existsb_true_elem_of {A} (f : A → bool) (l : list A) (x : A) :
  x ∈ l → f x = true → existsb f l = true.
Proof.
  induction l as [|y l IH]; intros Hx Hf; [by apply elem_of_nil in Hx|].
  simpl. apply orb_true_iff.
  apply elem_of_cons in Hx as [->|Hx]; [by left|right; by apply IH].
Qed.

(** A block whose label is no key of the previous mapping is always in
    the changed set, whatever its value, in both scripts. When its label
    names a property of [Object.prototype], the formatters fail on the
    changed set. When the formatters do not fail, it is reported with
    status new and its full value as body, escaped by the
    UserPromptSubmit hook and as it is by the PreToolUse hook. *)
Theorem new_block_is_always_reported
    (current : list MemoryBlock) (previous : gmap string string) (b : MemoryBlock) :
  b ∈ current →
  previous !! label b = None →
  let changed := SyncLettaMemory.detectChangedBlocks current (Some previous) in
  b ∈ changed ∧
  b ∈ PretoolSync.detectChangedBlocks current (Some previous) ∧
  (Js.inherited (label b) = true →
   SyncLettaMemory.formatChangedBlocksForStdout_throws changed (Some previous) = true ∧
   PretoolSync.formatOutput_throws changed (Some previous) = true) ∧
  (SyncLettaMemory.formatChangedBlocksForStdout_throws changed (Some previous) = false →
   Js.inherited (label b) = false ∧
   {| br_label := label b; br_status := StatusNew;
      br_body := FullValue (Xml.escapeXmlContent (value b)) |}
     ∈ SyncLettaMemory.formatChangedBlocksForStdout changed (Some previous) ∧
   {| br_label := label b; br_status := StatusNew; br_body := FullValue (value b) |}
     ∈ delta_blocks (PretoolSync.formatOutput [] changed (Some previous))).
Proof.
  intros Hb Hnew changed.
  assert (b ∈ changed) as H.
  { apply detectChangedBlocks_spec. split; [done|]. by rewrite Hnew. }
  assert (reads_inherited (Some previous) b = Js.inherited (label b)) as Hread.
  { unfold reads_inherited. by rewrite Hnew. }
  split_and!; [done|done| |].
  - intros Hin.
    assert (SyncLettaMemory.formatChangedBlocksForStdout_throws changed (Some previous)
            = true) as Ht.
    { apply (existsb_true_elem_of _ _ b); [done|]. by rewrite Hread. }
    by split.
  - intros Hthrows.
    pose proof (existsb_false_elem_of _ _ b Hthrows H) as Hb'. rewrite Hread in Hb'.
    split_and!; [done| |].
    + unfold SyncLettaMemory.formatChangedBlocksForStdout.
      apply list_elem_of_fmap. exists b. split; [|done]. simpl. by rewrite Hnew.
    + unfold PretoolSync.formatOutput. simpl.
      apply list_elem_of_fmap. exists b. split; [|done]. simpl. by rewrite Hnew.
Qed.

Lemma new_block_is_always_reported_witness :
  let previous : gmap string string := {[ "persona" := "likes cats" ]} in
  let b := Sample.scratch "a < b" in
  let changed :=
    SyncLettaMemory.detectChangedBlocks [Sample.persona "likes cats"; b] (Some previous) in
  b ∈ changed ∧
  b ∈ PretoolSync.detectChangedBlocks [Sample.persona "likes cats"; b] (Some previous) ∧
  (Js.inherited (label b) = true →
   SyncLettaMemory.formatChangedBlocksForStdout_throws changed (Some previous) = true ∧
   PretoolSync.formatOutput_throws changed (Some previous) = true) ∧
  (SyncLettaMemory.formatChangedBlocksForStdout_throws changed (Some previous) = false →
   Js.inherited (label b) = false ∧
   {| br_label := label b; br_status := StatusNew;
      br_body := FullValue (Xml.escapeXmlContent (value b)) |}
     ∈ SyncLettaMemory.formatChangedBlocksForStdout changed (Some previous) ∧
   {| br_label := label b; br_status := StatusNew; br_body := FullValue (value b) |}
     ∈ delta_blocks (PretoolSync.formatOutput [] changed (Some previous))).
Proof.
  apply (new_block_is_always_reported [Sample.persona "likes cats"; Sample.scratch "a < b"]
           {[ "persona" := "likes cats" ]} (Sample.scratch "a < b")).
  - apply (bool_decide_unpack _). vm_compute. exact I.
  - reflexivity.
Defined.

(** The block [scratch] with value [a < b], new to the mapping, as the two
    hooks report it. *)
Example new_block_reports :
  SyncLettaMemory.formatChangedBlocksForStdout [Sample.scratch "a < b"]
    (Some {[ "persona" := "likes cats" ]})
  = [ {| br_label := "scratch"; br_status := StatusNew;
         br_body := FullValue "a &lt; b" |} ] ∧
  delta_blocks (PretoolSync.formatOutput [] [Sample.scratch "a < b"]
                  (Some {[ "persona" := "likes cats" ]}))
  = [ {| br_label := "scratch"; br_status := StatusNew; br_body := FullValue "a < b" |} ].
Proof. split; reflexivity. Qed.

End Snapshots.

(** ** Line diffs and the reports built from them *)

Section LineDiffs.

Lemma list_to_set_empty_inv (l : list string) :
  (list_to_set l : gset string) = ∅ → l = [].
Proof.
  destruct l as [|x l]; [done|]. simpl. intros H.
  assert (x ∈ (∅ : gset string)) as Hx.
  { rewrite <- H. apply elem_of_union_l. by apply elem_of_singleton. }
  by apply not_elem_of_empty in Hx.
Qed.

(** Swapping the two values swaps what is added and what is removed. *)
Theorem computeDiff_swap (oldValue newValue : string) :
  SyncLettaMemory.added (SyncLettaMemory.computeDiff oldValue newValue)
    = SyncLettaMemory.removed (SyncLettaMemory.computeDiff newValue oldValue) ∧
  SyncLettaMemory.removed (SyncLettaMemory.computeDiff oldValue newValue)
    = SyncLettaMemory.added (SyncLettaMemory.computeDiff newValue oldValue).
Proof. by rewrite !computeDiff_added, !computeDiff_removed. Qed.

(** The diff is empty exactly when the two values have the same set of
    trimmed non-empty lines: changes of indentation, of blank lines, of
    the order of lines or of their repetition are not seen. In particular
    the diff of a value with itself is empty. *)
Theorem computeDiff_empty_iff_same_lines (oldValue newValue : string) :
  (SyncLettaMemory.computeDiff oldValue newValue
     = {| SyncLettaMemory.added := []; SyncLettaMemory.removed := [] |}
   ↔ (list_to_set (diff_lines oldValue) : gset string) = list_to_set (diff_lines newValue)) ∧
  SyncLettaMemory.computeDiff oldValue oldValue
    = {| SyncLettaMemory.added := []; SyncLettaMemory.removed := [] |}.
Proof.
  assert (∀ a b,
    SyncLettaMemory.computeDiff a b
      = {| SyncLettaMemory.added := []; SyncLettaMemory.removed := [] |}
    ↔ (list_to_set (diff_lines a) : gset string) = list_to_set (diff_lines b)) as Hiff.
  { intros a b.
    pose proof (filter_not_in_difference (diff_lines b) (diff_lines a)) as Hadd.
    pose proof (filter_not_in_difference (diff_lines a) (diff_lines b)) as Hrem.
    rewrite <- computeDiff_added in Hadd. rewrite <- computeDiff_removed in Hrem.
    destruct (SyncLettaMemory.computeDiff a b) as [added removed]. simpl in *.
    split.
    - intros [= -> ->]. simpl in *.
      apply set_eq. intros x. split; intros Hx.
      + destruct (decide (x ∈ (list_to_set (diff_lines b) : gset string))); [done|].
        assert (x ∈ (∅ : gset string)) as H0
          by (rewrite Hrem; by apply elem_of_difference).
        by apply not_elem_of_empty in H0.
      + destruct (decide (x ∈ (list_to_set (diff_lines a) : gset string))); [done|].
        assert (x ∈ (∅ : gset string)) as H0
          by (rewrite Hadd; by apply elem_of_difference).
        by apply not_elem_of_empty in H0.
    - intros Heq. rewrite Heq in Hadd, Hrem.
      rewrite difference_diag_L in Hadd, Hrem.
      apply list_to_set_empty_inv in Hadd, Hrem. by subst. }
  split; [apply Hiff|]. by apply Hiff.
Qed.

Lemma set_to_array_filter (P : string → Prop) `{!∀ x, Decision (P x)} (l : list string) :
  Js.set_to_array (filter P l) = filter P (Js.set_to_array l).
Proof.
  induction l as [|x l IH]; [done|]. simpl Js.set_to_array at 2.
  destruct (decide (P x)) as [Hx|Hx].
  - rewrite !filter_cons_True by done. simpl. f_equal.
    rewrite IH, !list_filter_filter. apply list_filter_iff. intros y. tauto.
  - rewrite !filter_cons_False by done. rewrite IH, list_filter_filter.
    apply list_filter_iff. intros y. split; [|tauto].
    intros Hy. split; [done|]. by intros ->.
Qed.

Lemma set_to_array_nil_iff (l : list string) : Js.set_to_array l = [] ↔ l = [].
Proof. by destruct l. Qed.

End LineDiffs.

(** ** XML escaping *)

Section XmlEscaping.

Lemma string_app_cons (c : ascii) (x y : string) : String c x +:+ y = String c (x +:+ y).
Proof. reflexivity. Qed.

Lemma string_app_nil_l (y : string) : "" +:+ y = y.
Proof. reflexivity. Qed.

Lemma string_app_assoc (x y z : string) : (x +:+ y) +:+ z = x +:+ (y +:+ z).
Proof.
  induction x as [|c x IH]; [done|]. by rewrite !string_app_cons, IH.
Qed.

Lemma has_char_app (c : ascii) (x y : string) :
  has_char c (x +:+ y) = has_char c x || has_char c y.
Proof.
  induction x as [|d x IH]; [done|].
  rewrite string_app_cons. simpl. by rewrite IH, orb_assoc.
Qed.

Lemma replace_all_app (c : ascii) (b x y : string) :
  Xml.replace_all c b (x +:+ y) = Xml.replace_all c b x +:+ Xml.replace_all c b y.
Proof.
  induction x as [|d x IH]; [done|].
  rewrite string_app_cons. simpl. case_decide.
  - by rewrite IH, string_app_assoc.
  - by rewrite IH, string_app_cons.
Qed.

Lemma concat_map_app (f : ascii → string) (x y : string) :
  concat_map f (x +:+ y) = concat_map f x +:+ concat_map f y.
Proof.
  induction x as [|d x IH]; [done|].
  rewrite string_app_cons. simpl. by rewrite IH, string_app_assoc.
Qed.

(** One pass of replacement over a string built character by character. *)
Lemma replace_all_concat_map (c : ascii) (b : string) (f : ascii → string) (s : string) :
  Xml.replace_all c b (concat_map f s)
  = concat_map (λ d, Xml.replace_all c b (f d)) s.
Proof.
  induction s as [|d s IH]; [done|]. simpl. by rewrite replace_all_app, IH.
Qed.

Lemma concat_map_ext (f g : ascii → string) (s : string) :
  (∀ c, f c = g c) → concat_map f s = concat_map g s.
Proof. intros H. induction s as [|d s IH]; [done|]. simpl. by rewrite H, IH. Qed.

Lemma concat_map_id (s : string) : concat_map (λ c, String c EmptyString) s = s.
Proof. induction s as [|d s IH]; [done|]. simpl. by rewrite string_app_cons, IH. Qed.

Lemma replace_all_as_concat_map (c : ascii) (b s : string) :
  Xml.replace_all c b s
  = concat_map (λ d, if decide (d = c) then b else String d EmptyString) s.
Proof.
  induction s as [|d s IH]; [done|]. simpl. case_decide; by rewrite IH.
Qed.

(** The passes of [escapeXmlContent] amount to one pass that replaces
    each character by its entity. *)
Lemma escapeXmlContent_concat_map (s : string) :
  Xml.escapeXmlContent s = concat_map content_entity s.
Proof.
  unfold Xml.escapeXmlContent.
  rewrite (replace_all_as_concat_map "&"), !replace_all_concat_map.
  apply concat_map_ext. intros c. unfold content_entity.
  destruct (decide (c = "&"%char)) as [->|H1]; [reflexivity|]. cbn [Xml.replace_all].
  destruct (decide (c = "<"%char)) as [->|H2]; [reflexivity|]. cbn [Xml.replace_all].
  destruct (decide (c = ">"%char)) as [->|H3]; reflexivity.
Qed.

Lemma escapeXmlAttribute_concat_map (s : string) :
  Xml.escapeXmlAttribute s = concat_map attribute_entity s.
Proof.
  unfold Xml.escapeXmlAttribute.
  rewrite (replace_all_as_concat_map "&"), !replace_all_concat_map.
  apply concat_map_ext. intros c. unfold attribute_entity.
  destruct (decide (c = "&"%char)) as [->|H1]; [reflexivity|]. cbn [Xml.replace_all].
  destruct (decide (c = Xml.quote)) as [->|H2]; [reflexivity|]. cbn [Xml.replace_all].
  destruct (decide (c = "'"%char)) as [->|H3]; [reflexivity|]. cbn [Xml.replace_all].
  destruct (decide (c = "<"%char)) as [->|H4]; [reflexivity|]. cbn [Xml.replace_all].
  destruct (decide (c = ">"%char)) as [->|H5]; [reflexivity|]. cbn [Xml.replace_all].
  destruct (decide (c = Js.newline)) as [->|H6]; reflexivity.
Qed.

Lemma has_char_concat_map (c : ascii) (f : ascii → string) (s : string) :
  (∀ d, has_char c (f d) = false) → has_char c (concat_map f s) = false.
Proof.
  intros H. induction s as [|d s IH]; [done|]. simpl. by rewrite has_char_app, H, IH.
Qed.

(** [escapeXmlContent] leaves no angle bracket in its result, every
    ampersand of the result starts one of the entities it writes, so that
    reading the entities back gives the argument again (escaping is
    injective), and escaping a concatenation is concatenating the escaped
    parts. *)
Theorem escapeXmlContent_is_safe_and_lossless (s t : string) :
  has_char "<" (Xml.escapeXmlContent s) = false ∧
  has_char ">" (Xml.escapeXmlContent s) = false ∧
  unescapeXmlContent (Xml.escapeXmlContent s) = s ∧
  (Xml.escapeXmlContent s = Xml.escapeXmlContent t → s = t) ∧
  Xml.escapeXmlContent (s +:+ t) = Xml.escapeXmlContent s +:+ Xml.escapeXmlContent t.
Proof.
  assert (∀ u, unescapeXmlContent (Xml.escapeXmlContent u) = u) as Hback.
  { intros u. rewrite escapeXmlContent_concat_map.
    induction u as [|c u IH]; [done|]. simpl. unfold content_entity at 1.
    repeat case_decide; subst; rewrite ?string_app_cons, ?string_app_nil_l; simpl;
      rewrite ?IH; try done.
    by rewrite decide_False. }
  split_and!.
  - rewrite escapeXmlContent_concat_map. apply has_char_concat_map.
    intros d. unfold content_entity. repeat case_decide; try done.
    simpl. by rewrite bool_decide_eq_false_2.
  - rewrite escapeXmlContent_concat_map. apply has_char_concat_map.
    intros d. unfold content_entity. repeat case_decide; try done.
    simpl. by rewrite bool_decide_eq_false_2.
  - apply Hback.
  - intros H. by rewrite <- (Hback s), <- (Hback t), H.
  - by rewrite !escapeXmlContent_concat_map, concat_map_app.
Qed.

(** [escapeXmlAttribute] leaves in its result no double quote, no
    apostrophe, no angle bracket and no line feed: an escaped value stays
    within the quotes of its attribute and on its line. *)
Theorem escapeXmlAttribute_is_safe (s : string) :
  has_char Xml.quote (Xml.escapeXmlAttribute s) = false ∧
  has_char "'" (Xml.escapeXmlAttribute s) = false ∧
  has_char "<" (Xml.escapeXmlAttribute s) = false ∧
  has_char ">" (Xml.escapeXmlAttribute s) = false ∧
  has_char Js.newline (Xml.escapeXmlAttribute s) = false.
Proof.
  rewrite escapeXmlAttribute_concat_map.
  split_and!; apply has_char_concat_map; intros d; unfold attribute_entity;
    repeat case_decide; try done; simpl; by rewrite bool_decide_eq_false_2.
Qed.

End XmlEscaping.

(** ** The reports of the two hooks *)

Section Reports.

Lemma unescape_escapeXmlContent (s : string) :
  unescapeXmlContent (Xml.escapeXmlContent s) = s.
Proof.
  rewrite escapeXmlContent_concat_map.
  induction s as [|c s IH]; [done|]. simpl. unfold content_entity at 1.
  repeat case_decide; subst; rewrite ?string_app_cons, ?string_app_nil_l; simpl;
    rewrite ?IH; try done.
  by rewrite decide_False.
Qed.

Lemma unescape_escape_lines (ls : list string) :
  unescapeXmlContent <$> (Xml.escapeXmlContent <$> ls) = ls.
Proof.
  induction ls as [|l ls IH]; [done|]. rewrite !fmap_cons, IH.
  by rewrite unescape_escapeXmlContent.
Qed.

Lemma removed_once_report (l v : string) (added added' removed removed' : list string) :
  added = added' → removed = removed' →
  match added with
  | [] =>
      match Js.set_to_array removed with
      | [] => {| br_label := l; br_status := StatusModified; br_body := FullValue v |}
      | _ :: _ => {| br_label := l; br_status := StatusModified;
                     br_body := DiffLines (Js.set_to_array removed) added |}
      end
  | _ :: _ => {| br_label := l; br_status := StatusModified;
                 br_body := DiffLines (Js.set_to_array removed) added |}
  end
  = removed_once (unescaped
      match added' with
      | [] =>
          match removed' with
          | [] => {| br_label := l; br_status := StatusModified;
                     br_body := FullValue (Xml.escapeXmlContent v) |}
          | _ :: _ => {| br_label := l; br_status := StatusModified;
                         br_body := DiffLines (Xml.escapeXmlContent <$> removed')
                                              (Xml.escapeXmlContent <$> added') |}
          end
      | _ :: _ => {| br_label := l; br_status := StatusModified;
                     br_body := DiffLines (Xml.escapeXmlContent <$> removed')
                                          (Xml.escapeXmlContent <$> added') |}
      end).
Proof.
  intros <- <-.
  destruct added, removed; unfold removed_once, unescaped; cbn [br_body br_label br_status];
    rewrite ?unescape_escapeXmlContent, ?unescape_escape_lines; reflexivity.
Qed.

(** The two formatters fail on the same changed sets. When they return,
    they report the same blocks, in the same order and with the same
    status; the report of the PreToolUse hook carries the value, or the
    lines of the diff, as they are, where the report of the
    UserPromptSubmit hook carries them escaped, and it lists every
    removed line once where the other lists it as often as the old value
    has it. *)
Theorem formatOutput_agrees_with_formatChangedBlocksForStdout
    (messages : list MessageInfo) (changed : list MemoryBlock)
    (previous : option (gmap string string)) :
  SyncLettaMemory.formatChangedBlocksForStdout_throws changed previous = false →
  PretoolSync.formatOutput_throws changed previous = false ∧
  delta_blocks (PretoolSync.formatOutput messages changed previous)
  = removed_once <$>
      (unescaped <$> SyncLettaMemory.formatChangedBlocksForStdout changed previous).
Proof.
  intros Hthrows. split; [exact Hthrows|].
  unfold PretoolSync.formatOutput, SyncLettaMemory.formatChangedBlocksForStdout.
  cbn [delta_blocks].
  rewrite <- !list_fmap_compose. apply list_fmap_ext. intros _ block _.
  unfold compose. cbv beta zeta.
  destruct (previous ≫= _) as [previousValue|].
  2: { unfold removed_once, unescaped. cbn [br_body br_label br_status].
       by rewrite unescape_escapeXmlContent. }
  rewrite computeDiff_added, computeDiff_removed.
  assert (filter (λ line, line ∉ diff_lines (value block))
                 (Js.set_to_array (diff_lines previousValue))
          = Js.set_to_array (filter (λ line, line ∉ diff_lines (value block))
                                    (diff_lines previousValue))) as Hrem
    by (by rewrite set_to_array_filter).
  assert (filter (λ line, line ∉ (list_to_set (diff_lines previousValue) : gset string))
                 (diff_lines (value block))
          = filter (λ line, line ∉ diff_lines previousValue) (diff_lines (value block)))
    as Hadd.
  { apply list_filter_iff. intros l. by rewrite elem_of_list_to_set. }
  rewrite Hadd, Hrem.
  apply removed_once_report; apply list_filter_iff; done.
Qed.

Lemma formatOutput_agrees_with_formatChangedBlocksForStdout_witness :
  let changed := [Sample.persona ("a < b" +:+ Sample.nl +:+ "likes dogs")] in
  let previous : option (gmap string string) :=
    Some {[ "persona" := "likes cats" +:+ Sample.nl +:+ "likes cats" ]} in
  PretoolSync.formatOutput_throws changed previous = false ∧
  delta_blocks (PretoolSync.formatOutput [] changed previous)
  = removed_once <$>
      (unescaped <$> SyncLettaMemory.formatChangedBlocksForStdout changed previous).
Proof.
  apply (formatOutput_agrees_with_formatChangedBlocksForStdout []
           [Sample.persona ("a < b" +:+ Sample.nl +:+ "likes dogs")]
           (Some {[ "persona" := "likes cats" +:+ Sample.nl +:+ "likes cats" ]})).
  reflexivity.
Defined.

(** The same changed block as the two hooks report it: escaped and with
    the repeated line twice in the one, as it is and with that line once
    in the other. *)
Example reports_of_the_two_hooks :
  let changed := [Sample.persona ("a < b" +:+ Sample.nl +:+ "likes dogs")] in
  let previous : option (gmap string string) :=
    Some {[ "persona" := "likes cats" +:+ Sample.nl +:+ "likes cats" ]} in
  SyncLettaMemory.formatChangedBlocksForStdout changed previous
  = [ {| br_label := "persona"; br_status := StatusModified;
         br_body := DiffLines ["likes cats"; "likes cats"] ["a &lt; b"; "likes dogs"] |} ] ∧
  delta_blocks (PretoolSync.formatOutput [] changed previous)
  = [ {| br_label := "persona"; br_status := StatusModified;
         br_body := DiffLines ["likes cats"] ["a < b"; "likes dogs"] |} ].
Proof. split; vm_compute; reflexivity. Qed.

(** What a report of the UserPromptSubmit hook says of a changed block,
    when the formatter does not fail. The reports come one per changed
    block, in order. A report has status new exactly when the label is no
    key of the previous mapping (and then names no inherited property
    either, where there is a mapping); it then carries the escaped full
    value. A report of a modified block carries the escaped full value
    when the old and the new value have the same lines, and otherwise
    the escaped removed and added lines of [computeDiff], which are then
    not both empty: no report shows an empty diff. *)
Theorem formatChangedBlocksForStdout_report
    (changed : list MemoryBlock) (previous : option (gmap string string))
    (i : nat) (b : MemoryBlock) :
  SyncLettaMemory.formatChangedBlocksForStdout_throws changed previous = false →
  changed !! i = Some b →
  ∃ r,
    SyncLettaMemory.formatChangedBlocksForStdout changed previous !! i = Some r ∧
    length (SyncLettaMemory.formatChangedBlocksForStdout changed previous)
      = length changed ∧
    br_label r = label b ∧
    br_body r ≠ DiffLines [] [] ∧
    match previous ≫= (λ m, m !! label b) with
    | None =>
        (is_Some previous → Js.inherited (label b) = false) ∧
        br_status r = StatusNew ∧
        br_body r = FullValue (Xml.escapeXmlContent (value b))
    | Some old =>
        br_status r = StatusModified ∧
        br_body r
        = if decide ((list_to_set (diff_lines old) : gset string)
                     = list_to_set (diff_lines (value b)))
          then FullValue (Xml.escapeXmlContent (value b))
          else DiffLines
                 (Xml.escapeXmlContent <$>
                    SyncLettaMemory.removed (SyncLettaMemory.computeDiff old (value b)))
                 (Xml.escapeXmlContent <$>
                    SyncLettaMemory.added (SyncLettaMemory.computeDiff old (value b)))
    end.
Proof.
  intros Hthrows Hb.
  assert (reads_inherited previous b = false) as Hread.
  { apply (existsb_false_elem_of _ changed); [done|]. by eapply list_elem_of_lookup_2. }
  unfold SyncLettaMemory.formatChangedBlocksForStdout.
  rewrite list_lookup_fmap, Hb, length_fmap. cbn [fmap option_fmap option_map].
  eexists. split; [reflexivity|]. split; [done|]. cbv beta zeta.
  destruct (previous ≫= _) as [old|] eqn:Hold.
  2: { split_and!; try done. intros [m ->]. simpl in Hold, Hread.
       rewrite Hold in Hread. by rewrite bool_decide_eq_true_2 in Hread. }
  destruct (computeDiff_empty_iff_same_lines old (value b)) as [Hiff _].
  destruct (SyncLettaMemory.computeDiff old (value b)) as [added removed] eqn:E.
  cbn [SyncLettaMemory.added SyncLettaMemory.removed].
  case_decide as Hsame.
  - apply Hiff in Hsame. injection Hsame as -> ->. done.
  - destruct added as [|a1 added]; destruct removed as [|r1 removed]; try done.
    exfalso. by apply Hsame, Hiff.
Qed.

Lemma formatChangedBlocksForStdout_report_witness :
  ∃ r,
    SyncLettaMemory.formatChangedBlocksForStdout
      [Sample.persona "  likes cats"] (Some {[ "persona" := "likes cats" ]}) !! 0 = Some r ∧
    length (SyncLettaMemory.formatChangedBlocksForStdout
              [Sample.persona "  likes cats"] (Some {[ "persona" := "likes cats" ]}))
      = length [Sample.persona "  likes cats"] ∧
    br_label r = label (Sample.persona "  likes cats") ∧
    br_body r ≠ DiffLines [] [] ∧
    match Some ({[ "persona" := "likes cats" ]} : gmap string string)
            ≫= (λ m, m !! label (Sample.persona "  likes cats")) with
    | None =>
        (is_Some (Some ({[ "persona" := "likes cats" ]} : gmap string string)) →
         Js.inherited (label (Sample.persona "  likes cats")) = false) ∧
        br_status r = StatusNew ∧
        br_body r = FullValue (Xml.escapeXmlContent (value (Sample.persona "  likes cats")))
    | Some old =>
        br_status r = StatusModified ∧
        br_body r
        = if decide ((list_to_set (diff_lines old) : gset string)
                     = list_to_set (diff_lines (value (Sample.persona "  likes cats"))))
          then FullValue (Xml.escapeXmlContent (value (Sample.persona "  likes cats")))
          else DiffLines
                 (Xml.escapeXmlContent <$>
                    SyncLettaMemory.removed
                      (SyncLettaMemory.computeDiff old
                         (value (Sample.persona "  likes cats"))))
                 (Xml.escapeXmlContent <$>
                    SyncLettaMemory.added
                      (SyncLettaMemory.computeDiff old
                         (value (Sample.persona "  likes cats"))))
    end.
Proof.
  apply (formatChangedBlocksForStdout_report
           [Sample.persona "  likes cats"] (Some {[ "persona" := "likes cats" ]})
           0 (Sample.persona "  likes cats")); reflexivity.
Defined.

End Reports.

(** ** Counting the lines of a transcript *)

Section Transcript.

Lemma split_lines_app (a b : string) :
  Js.split_lines (a +:+ String Js.newline b) = Js.split_lines a ++ Js.split_lines b.
Proof.
  induction a as [|c a IH].
  - rewrite string_app_nil_l. cbn [Js.split_lines]. by rewrite decide_True.
  - rewrite string_app_cons. cbn [Js.split_lines]. rewrite IH.
    pose proof (split_lines_nonempty a) as Hne. case_decide; [done|].
    by destruct (Js.split_lines a).
Qed.

Lemma length_nonblank (ls : list string) :
  length (filter (λ line, Js.truthy (Js.trim line)) ls)
  = length (filter (λ l, Js.truthy l) (Js.trim <$> ls)).
Proof.
  induction ls as [|l ls IH]; [done|]. rewrite fmap_cons.
  destruct (Js.truthy (Js.trim l)) eqn:E.
  - rewrite (filter_cons_True _ l ls) by (by rewrite E).
    rewrite (filter_cons_True _ (Js.trim l)); [|by apply Is_true_true].
    cbn [length]. by rewrite IH.
  - rewrite (filter_cons_False _ l ls) by (by apply Is_true_false).
    rewrite (filter_cons_False _ (Js.trim l)); [done|by apply Is_true_false].
Qed.

(** [countTranscriptLines] counts the lines of the transcript that are
    not blank, without touching anything: a missing file counts [0], and
    the count of two texts joined by a line feed is the sum of their
    counts, so that a final line feed or blank lines add nothing. *)
Theorem countTranscriptLines_counts_nonblank_lines
    (path content : string) (w : World) :
  disk w !! path = Some (TextFile content) →
  SyncLettaMemory.countTranscriptLines path w = (Return (length (diff_lines content)), w) ∧
  (∀ a b, content = a +:+ String Js.newline b →
     length (diff_lines content) = length (diff_lines a) + length (diff_lines b)) ∧
  length (diff_lines (content +:+ String Js.newline EmptyString))
    = length (diff_lines content) ∧
  (∀ missing, disk w !! missing = None →
     SyncLettaMemory.countTranscriptLines missing w = (Return 0, w)).
Proof.
  intros Hfile.
  assert (∀ a b, length (diff_lines (a +:+ String Js.newline b))
                 = length (diff_lines a) + length (diff_lines b)) as Hadd.
  { intros a b. unfold diff_lines.
    by rewrite split_lines_app, fmap_app, filter_app, length_app. }
  split_and!.
  - unfold SyncLettaMemory.countTranscriptLines, read_file. rewrite bind_run, Hfile.
    by rewrite length_nonblank.
  - intros a b ->. apply Hadd.
  - rewrite Hadd. simpl. lia.
  - intros missing Hmissing.
    unfold SyncLettaMemory.countTranscriptLines, read_file. by rewrite bind_run, Hmissing.
Qed.

Lemma countTranscriptLines_counts_nonblank_lines_witness :
  let content := "{}" +:+ Sample.nl +:+ Sample.nl +:+ "{}" +:+ Sample.nl in
  let w := init_world Sample.remote_news {[ "/t.jsonl" := TextFile content ]} in
  SyncLettaMemory.countTranscriptLines "/t.jsonl" w
    = (Return (length (diff_lines content)), w) ∧
  (∀ a b, content = a +:+ String Js.newline b →
     length (diff_lines content) = length (diff_lines a) + length (diff_lines b)) ∧
  length (diff_lines (content +:+ String Js.newline EmptyString))
    = length (diff_lines content) ∧
  (∀ missing, disk w !! missing = None →
     SyncLettaMemory.countTranscriptLines missing w = (Return 0, w)).
Proof.
  apply (countTranscriptLines_counts_nonblank_lines "/t.jsonl"
           ("{}" +:+ Sample.nl +:+ Sample.nl +:+ "{}" +:+ Sample.nl)
           (init_world Sample.remote_news
              {[ "/t.jsonl" := TextFile ("{}" +:+ Sample.nl +:+ Sample.nl +:+ "{}"
                                            +:+ Sample.nl) ]})).
  reflexivity.
Defined.

End Transcript.

(** ** The earlier script: the one message it shows *)

Section EarlierScript.

Lemma search_from_end_last (messages : list LettaMessage) :
  SyncLettaMemoryEarlier.search_from_end (reverse messages)
  = (λ msg, {| SyncLettaMemoryEarlier.lm_text :=
                 Js.or_default (Js.or_else (content msg) (text msg)) "";
               SyncLettaMemoryEarlier.lm_date := Js.or_null (date msg) |})
    <$> last (filter (λ msg, has_text msg = true) (visible messages)).
Proof.
  induction messages as [|msg messages IH] using rev_ind; [done|].
  rewrite reverse_app. cbn [reverse rev_append app SyncLettaMemoryEarlier.search_from_end].
  change (rev_append messages []) with (reverse messages).
  unfold visible. rewrite filter_app. fold (visible messages).
  case_decide as Htype.
  - rewrite (filter_cons_True _ msg []) by done. rewrite filter_nil, filter_app.
    destruct (Js.or_null (Js.or_else (content msg) (text msg))) as [t|] eqn:Ht.
    + pose proof Ht as [Ht1 Ht2]%or_null_Some.
      rewrite (filter_cons_True _ msg []) by (unfold has_text; by rewrite Ht1).
      rewrite filter_nil, last_snoc. simpl. rewrite Ht1. simpl. by rewrite Ht2.
    + apply truthy_opt_or_null in Ht.
      rewrite (filter_cons_False _ msg []) by (unfold has_text; by rewrite Ht).
      by rewrite filter_nil, app_nil_r.
  - rewrite (filter_cons_False _ msg []) by done. by rewrite filter_nil, app_nil_r.
Qed.

(** [fetchLastAssistantMessage] searches the fetched array from its end:
    of the assistant messages that carry a text it returns the one that
    comes last in the array, which in a feed delivered newest first is
    the oldest of the window, and nothing when there is none. A reply
    that is not 2xx gives nothing either, and is not a failure. *)
Theorem fetchLastAssistantMessage_returns_the_last_of_the_array
    (k c : string) (reply : response (list LettaMessage)) (w : World) :
  Js.truthy c = true →
  get_messages (remote w) c = reply →
  reply ≠ NetworkError →
  SyncLettaMemoryEarlier.fetchLastAssistantMessage k (Some c) w
  = (Return
       match reply with
       | HttpOk messages =>
           (λ msg, {| SyncLettaMemoryEarlier.lm_text :=
                        Js.or_default (Js.or_else (content msg) (text msg)) "";
                      SyncLettaMemoryEarlier.lm_date := Js.or_null (date msg) |})
           <$> last (filter (λ msg, has_text msg = true) (visible messages))
       | _ => None
       end,
     after w [GetMessages c]).
Proof.
  intros Hc Hreply Hnet. unfold SyncLettaMemoryEarlier.fetchLastAssistantMessage.
  rewrite or_null_truthy by done. rewrite bind_run.
  destruct reply as [|status|messages]; [done| |].
  - by rewrite (fetch_error _ _ _ status).
  - rewrite (fetch_ok _ _ _ messages) by done. by rewrite search_from_end_last.
Qed.

Lemma fetchLastAssistantMessage_returns_the_last_of_the_array_witness :
  SyncLettaMemoryEarlier.fetchLastAssistantMessage "key" (Some "conv-A")
    (init_world Sample.remote_news ∅)
  = (Return
       match HttpOk Sample.feed5 with
       | HttpOk messages =>
           (λ msg, {| SyncLettaMemoryEarlier.lm_text :=
                        Js.or_default (Js.or_else (content msg) (text msg)) "";
                      SyncLettaMemoryEarlier.lm_date := Js.or_null (date msg) |})
           <$> last (filter (λ msg, has_text msg = true) (visible messages))
       | _ => None
       end,
     after (init_world Sample.remote_news ∅) [GetMessages "conv-A"]).
Proof.
  apply (fetchLastAssistantMessage_returns_the_last_of_the_array
           "key" "conv-A" (HttpOk Sample.feed5) (init_world Sample.remote_news ∅));
    [reflexivity|reflexivity|discriminate].
Defined.

(** On the feed [m5, m4, m3, m2, m1] it is [m1] that is shown. *)
Example fetchLastAssistantMessage_on_feed5 :
  run_result (SyncLettaMemoryEarlier.fetchLastAssistantMessage "key" (Some "conv-A"))
             (init_world Sample.remote_news ∅)
  = Return (Some {| SyncLettaMemoryEarlier.lm_text := "text of m1";
                    SyncLettaMemoryEarlier.lm_date := None |}).
Proof. reflexivity. Qed.

End EarlierScript.

(** ** What a script leaves alone *)

Section Confinement.

Context (R : Remote → Prop) (files : string → Prop) (q : event → bool).

Lemma touches_only_refl w : touches_only files q w w.
Proof.
  split_and!; [done|done|]. exists []. split; [by rewrite app_nil_r|apply quiet_nil].
Qed.

Lemma touches_only_trans w1 w2 w3 :
  touches_only files q w1 w2 → touches_only files q w2 w3 → touches_only files q w1 w3.
Proof.
  intros (Hr1 & Hd1 & evs1 & Ht1 & Hq1) (Hr2 & Hd2 & evs2 & Ht2 & Hq2). split_and!.
  - congruence.
  - intros path Hpath. by rewrite Hd2, Hd1.
  - exists (evs1 ++ evs2). rewrite Ht2, Ht1, (assoc_L (++)). split; [done|by apply quiet_app].
Qed.

Lemma confined_pure {A} (m : M A) : (∀ w, snd (m w) = w) → confined R files q m.
Proof. intros H w _. rewrite H. apply touches_only_refl. Qed.

Lemma confined_ret {A} (a : A) : confined R files q (mret a).
Proof. by apply confined_pure. Qed.

Lemma confined_throw {A} msg : confined R files q (@throw A msg).
Proof. by apply confined_pure. Qed.

Lemma confined_process_exit {A} c : confined R files q (@process_exit A c).
Proof. by apply confined_pure. Qed.

Lemma confined_lift_outcome {A} (o : outcome A) : confined R files q (lift_outcome o).
Proof. by apply confined_pure. Qed.

Lemma confined_read_file path : confined R files q (read_file path).
Proof. by apply confined_pure. Qed.

Lemma confined_ask_remote : confined R files q ask_remote.
Proof. by apply confined_pure. Qed.

Lemma confined_emit e : q e = false → confined R files q (emit e).
Proof.
  intros H w _. split_and!; [done|done|]. exists [e]. split; [done|]. by constructor.
Qed.

Lemma confined_write_file path f : files path → confined R files q (write_file path f).
Proof.
  intros H w _. split_and!; [done| |].
  - intros path' Hpath'. simpl. apply lookup_insert_ne. by intros ->.
  - exists []. split; [by rewrite app_nil_r|apply quiet_nil].
Qed.

Lemma confined_bind {A B} (m : M A) (f : A → M B) :
  confined R files q m → (∀ a, confined R files q (f a)) → confined R files q (m ≫= f).
Proof.
  intros Hm Hf w HR. rewrite bind_run. specialize (Hm w HR).
  destruct (m w) as [[a|e|c] w1]; simpl in *; [|done|done].
  eapply touches_only_trans; [exact Hm|]. apply Hf. destruct Hm as [-> _]. done.
Qed.

(** What follows a computation that does not return does not happen. *)
Lemma confined_bind_stuck {A B} (m : M A) (f : A → M B) :
  confined R files q m → stuck_if R m → confined R files q (m ≫= f).
Proof.
  intros Hm Hs w HR. rewrite bind_run. specialize (Hm w HR). specialize (Hs w HR).
  destruct (m w) as [[a|e|c] w1]; simpl in *; [by destruct (Hs a)|done|done].
Qed.

Lemma confined_fmap {A B} (g : A → B) (m : M A) :
  confined R files q m → confined R files q (g <$> m).
Proof. intros Hm. apply confined_bind; [done|]. intros a. apply confined_ret. Qed.

Lemma confined_try_catch {A} (m : M A) (h : string → M A) :
  confined R files q m → (∀ e, confined R files q (h e)) → confined R files q (try_catch m h).
Proof.
  intros Hm Hh w HR. unfold try_catch. specialize (Hm w HR).
  destruct (m w) as [[a|e|c] w1]; simpl in *; [done| |done].
  eapply touches_only_trans; [exact Hm|]. apply Hh. destruct Hm as [-> _]. done.
Qed.

Lemma confined_promise_all {A B} (a : M A) (b : M B) :
  confined R files q a → confined R files q b → confined R files q (promise_all a b).
Proof.
  intros Ha Hb w HR. unfold promise_all. specialize (Ha w HR).
  destruct (a w) as [ra w1]. simpl in *.
  assert (touches_only files q w1 (snd (b w1))) as Hb'.
  { apply Hb. destruct Ha as [-> _]. done. }
  destruct ra as [x|e|c]; [| |done];
    destruct (b w1) as [[y|e'|c'] w2]; simpl in *;
    by eapply touches_only_trans.
Qed.

Lemma stuck_bind_l {A B} (m : M A) (f : A → M B) : stuck_if R m → stuck_if R (m ≫= f).
Proof.
  intros Hm w HR b. rewrite bind_run. specialize (Hm w HR).
  destruct (m w) as [[a|e|c] w1]; simpl in *; [by destruct (Hm a)|done|done].
Qed.

Lemma stuck_bind_r {A B} (m : M A) (f : A → M B) :
  confined R files q m → (∀ a, stuck_if R (f a)) → stuck_if R (m ≫= f).
Proof.
  intros Hm Hf w HR b. rewrite bind_run. specialize (Hm w HR).
  destruct (m w) as [[a|e|c] w1]; simpl in *; [|done|done].
  apply Hf. destruct Hm as [-> _]. done.
Qed.

Lemma stuck_promise_all_l {A B} (a : M A) (b : M B) :
  stuck_if R a → stuck_if R (promise_all a b).
Proof.
  intros Ha w HR xy. unfold promise_all. specialize (Ha w HR).
  destruct (a w) as [[x|e|c] w1]; simpl in *; [by destruct (Ha x)| |done].
  by destruct (b w1) as [[y|e'|c'] w2].
Qed.

End Confinement.

(** One step of a proof that a script is confined, following the
    structure of the script. *)
Ltac confined_step :=
  lazymatch goal with
  | |- confined _ _ _ (mret _) => apply confined_ret
  | |- confined _ _ _ (mbind _ _) => apply confined_bind; [|intros ?]
  | |- confined _ _ _ (fmap _ _) => apply confined_fmap
  | |- confined _ _ _ (try_catch _ _) => apply confined_try_catch; [|intros ?]
  | |- confined _ _ _ (promise_all _ _) => apply confined_promise_all
  | |- confined _ _ _ (emit _) => apply confined_emit; reflexivity
  | |- confined _ _ _ (throw _) => apply confined_throw
  | |- confined _ _ _ (process_exit _) => apply confined_process_exit
  | |- confined _ _ _ (lift_outcome _) => apply confined_lift_outcome
  | |- confined _ _ _ (read_file _) => apply confined_read_file
  | |- confined _ (session_records _) _ (write_file _ _) =>
      apply confined_write_file; eexists; reflexivity
  | |- confined _ _ _ ask_remote => apply confined_ask_remote
  | |- confined _ _ _ (match ?x with _ => _ end) => destruct x
  | |- confined _ _ _ _ => first [progress cbv beta zeta | progress unfold_scripts]
  end.

Ltac confined := repeat confined_step.

Section PretoolConfinement.

Lemma or_default_or_null (o : option string) (s d : string) :
  Js.or_null o = Some s → Js.or_default o d = s.
Proof. intros [-> Hs]%or_null_Some. unfold Js.or_default. by rewrite Hs. Qed.

Lemma pretool_main_confined env :
  confined any_remote (session_records (Js.or_default (readHookInput env ≫= cwd) ""))
           is_foreign_to_pretool (PretoolSync.main env).
Proof.
  unfold PretoolSync.main.
  destruct (Js.or_null (LETTA_API_KEY env)) as [apiKey|]; [|confined].
  apply confined_try_catch; [|intros ?; confined]. cbv beta zeta.
  destruct (Js.or_null (readHookInput env ≫= session_id)) as [session_id|]; [|confined].
  destruct (Js.or_null (readHookInput env ≫= cwd)) as [cwd|] eqn:Hcwd; [|confined].
  rewrite (or_default_or_null _ _ "" Hcwd). confined.
Qed.

(** The PreToolUse hook never creates a conversation, never saves the
    conversations map, never rewrites [CLAUDE.md] and never starts a
    worker; and a file it changes is the session record
    [getSyncStateFile cwd sessionId] of some session id, [cwd] being the
    working directory the hook was given: every other path holds after
    the hook what it held before. *)
Theorem pretool_writes_session_records_only (env : Env) (w : World) :
  let cwd := Js.or_default (readHookInput env ≫= cwd) "" in
  let w' := snd (PretoolSync.main env w) in
  (∃ evs, trace w' = trace w ++ evs ∧ quiet is_foreign_to_pretool evs) ∧
  (∀ path,
     (∀ sessionId, path ≠ ConversationUtils.getSyncStateFile cwd sessionId) →
     disk w' !! path = disk w !! path).
Proof.
  intros cwd w'.
  destruct (pretool_main_confined env w I) as (_ & Hdisk & Htrace).
  split; [done|]. intros path Hpath. apply Hdisk. intros [sessionId ->].
  by apply (Hpath sessionId).
Qed.

(** A session id that walks out of its file name: the session record it
    names is the conversations file of the project. *)
Example session_record_at_the_conversations_file :
  ConversationUtils.getSyncStateFile "/proj" "x/../conversations"
  = "/proj/.letta/claude/conversations.json" ∧
  ConversationUtils.getConversationsFile "/proj"
  = "/proj/.letta/claude/conversations.json" ∧
  ConversationUtils.getSyncStateFile "/proj" "s1"
  = "/proj/.letta/claude/session-s1.json".
Proof. split_and!; vm_compute; reflexivity. Qed.

End PretoolConfinement.

(** ** How the hooks end *)

Section ExitCodes.

Context (P : Z → Prop).

Lemma exits_with_pure {A} (m : M A) : (∀ w c, fst (m w) ≠ Exit c) → exits_with P m.
Proof. intros H w c Hc. by destruct (H w c). Qed.

Lemma exits_with_ret {A} (a : A) : exits_with P (mret a).
Proof. by apply exits_with_pure. Qed.

Lemma exits_with_throw {A} msg : exits_with P (@throw A msg).
Proof. by apply exits_with_pure. Qed.

Lemma exits_with_emit e : exits_with P (emit e).
Proof. by apply exits_with_pure. Qed.

Lemma exits_with_read_file path : exits_with P (read_file path).
Proof. by apply exits_with_pure. Qed.

Lemma exits_with_write_file path f : exits_with P (write_file path f).
Proof. by apply exits_with_pure. Qed.

Lemma exits_with_ask_remote : exits_with P ask_remote.
Proof. by apply exits_with_pure. Qed.

Lemma exits_with_process_exit {A} c : P c → exits_with P (@process_exit A c).
Proof. intros H w c' [= <-]. done. Qed.

Lemma exits_with_lift_outcome {A} (o : outcome A) :
  (∀ c, o = Exit c → P c) → exits_with P (lift_outcome o).
Proof. intros H w c Hc. by apply H. Qed.

Lemma exits_with_bind {A B} (m : M A) (f : A → M B) :
  exits_with P m → (∀ a, exits_with P (f a)) → exits_with P (m ≫= f).
Proof.
  intros Hm Hf w c. rewrite bind_run. specialize (Hm w).
  destruct (m w) as [[a|e|c'] w1]; simpl in *; [apply Hf|done|].
  intros [= <-]. by apply Hm.
Qed.

Lemma exits_with_fmap {A B} (g : A → B) (m : M A) : exits_with P m → exits_with P (g <$> m).
Proof. intros Hm. apply exits_with_bind; [done|]. intros a. apply exits_with_ret. Qed.

Lemma exits_with_try_catch {A} (m : M A) (h : string → M A) :
  exits_with P m → (∀ e, exits_with P (h e)) → exits_with P (try_catch m h).
Proof.
  intros Hm Hh w c. unfold try_catch. specialize (Hm w).
  destruct (m w) as [[a|e|c'] w1]; simpl in *; [done|apply Hh|apply Hm].
Qed.

Lemma exits_with_promise_all {A B} (a : M A) (b : M B) :
  exits_with P a → exits_with P b → exits_with P (promise_all a b).
Proof.
  intros Ha Hb w c. unfold promise_all. specialize (Ha w).
  destruct (a w) as [[x|e|c'] w1]; simpl in *; [| |intros [= <-]; by apply Ha];
    specialize (Hb w1); destruct (b w1) as [[y|e'|c''] w2]; simpl in *;
    try done; intros [= <-]; by apply Hb.
Qed.

(** A handler that ends the process leaves no error behind. *)
Lemma try_catch_never_throws {A} (m : M A) (h : string → M A) :
  (∀ e w msg, fst (h e w) ≠ Throw msg) → ∀ w msg, fst (try_catch m h w) ≠ Throw msg.
Proof.
  intros Hh w msg. unfold try_catch.
  destruct (m w) as [[a|e|c] w1] eqn:E; simpl; [done|apply Hh|done].
Qed.

End ExitCodes.

(** One step of a proof about the exit code of a script, following the
    structure of the script. *)
Ltac exits_step :=
  lazymatch goal with
  | |- exits_with _ (mret _) => apply exits_with_ret
  | |- exits_with _ (mbind _ _) => apply exits_with_bind; [|intros ?]
  | |- exits_with _ (fmap _ _) => apply exits_with_fmap
  | |- exits_with _ (try_catch _ _) => apply exits_with_try_catch; [|intros ?]
  | |- exits_with _ (promise_all _ _) => apply exits_with_promise_all
  | |- exits_with _ (emit _) => apply exits_with_emit
  | |- exits_with _ (throw _) => apply exits_with_throw
  | |- exits_with _ (process_exit _) => apply exits_with_process_exit; reflexivity
  | |- exits_with _ (lift_outcome _) =>
      apply exits_with_lift_outcome;
      let c := fresh "c" in let Hc := fresh "Hc" in
      intros c Hc;
      match goal with H : ∀ k c, getAgentId _ k ≠ Exit c |- _ => by destruct (H _ _ Hc) end
  | |- exits_with _ (read_file _) => apply exits_with_read_file
  | |- exits_with _ (write_file _ _) => apply exits_with_write_file
  | |- exits_with _ ask_remote => apply exits_with_ask_remote
  | |- exits_with _ (match ?x with _ => _ end) => destruct x
  | |- exits_with _ _ => first [progress cbv beta zeta | progress unfold_scripts]
  end.

Ltac exits := repeat exits_step.

Section HookExits.

(** Neither hook fails with an uncaught error, and neither ends with a
    code that blocks: the PreToolUse hook returns or exits with [0], the
    UserPromptSubmit hook returns or exits with [1], as long as the
    resolution of the agent does not end the process itself. *)
Theorem hooks_never_block (env : Env) (w : World) :
  (∀ k c, getAgentId env k ≠ Exit c) →
  (fst (PretoolSync.main env w) = Return () ∨ fst (PretoolSync.main env w) = Exit 0%Z) ∧
  (fst (SyncLettaMemory.main env w) = Return () ∨
   fst (SyncLettaMemory.main env w) = Exit 1%Z).
Proof.
  intros Hagent. split.
  - assert (exits_with (λ c, c = 0%Z) (PretoolSync.main env)) as Hexit.
    { unfold PretoolSync.main. exits. }
    assert (∀ msg, fst (PretoolSync.main env w) ≠ Throw msg) as Hthrow.
    { unfold PretoolSync.main.
      destruct (Js.or_null (LETTA_API_KEY env)); [|done].
      by apply try_catch_never_throws. }
    destruct (fst (PretoolSync.main env w)) as [[]|msg|c] eqn:E.
    + by left.
    + by destruct (Hthrow msg).
    + right. by rewrite (Hexit w c E).
  - assert (exits_with (λ c, c = 1%Z) (SyncLettaMemory.main env)) as Hexit.
    { unfold SyncLettaMemory.main. exits. }
    assert (∀ msg, fst (SyncLettaMemory.main env w) ≠ Throw msg) as Hthrow.
    { unfold SyncLettaMemory.main.
      destruct (Js.or_null (LETTA_API_KEY env)); [|done].
      by apply try_catch_never_throws. }
    destruct (fst (SyncLettaMemory.main env w)) as [[]|msg|c] eqn:E.
    + by left.
    + by destruct (Hthrow msg).
    + right. by rewrite (Hexit w c E).
Qed.

Lemma hooks_never_block_witness :
  let w := init_world Sample.remote_news Sample.disk_synced in
  (fst (PretoolSync.main Sample.env w) = Return () ∨
   fst (PretoolSync.main Sample.env w) = Exit 0%Z) ∧
  (fst (SyncLettaMemory.main Sample.env w) = Return () ∨
   fst (SyncLettaMemory.main Sample.env w) = Exit 1%Z).
Proof.
  apply (hooks_never_block Sample.env (init_world Sample.remote_news Sample.disk_synced)).
  intros k c. discriminate.
Defined.

End HookExits.

(** ** What the PreToolUse hook prints *)

Section PretoolOutput.

Lemma appends_weaken {A} (m : M A) (P Q : list event → Prop) :
  appends m P → (∀ evs, P evs → Q evs) → appends m Q.
Proof. intros Hm HPQ w. destruct (Hm w) as (evs & E & H). eauto. Qed.

Lemma saved_then_printed_app_l evs1 evs2 :
  quiet is_save_or_log evs1 → saved_then_printed evs2 → saved_then_printed (evs1 ++ evs2).
Proof.
  intros H1 [H2|(pre & path & st & d & -> & Hpre & Hd)].
  - left. by apply quiet_app.
  - right. exists (evs1 ++ pre), path, st, d. rewrite (assoc_L (++)).
    split_and!; [done|by apply quiet_app|done].
Qed.

Lemma saved_then_printed_silent {A} (m : M A) :
  silent is_save_or_log m → appends m saved_then_printed.
Proof. intros Hm. eapply appends_weaken; [exact Hm|]. by left. Qed.

Lemma saved_then_printed_bind {A B} (m : M A) (f : A → M B) :
  silent is_save_or_log m → (∀ a, appends (f a) saved_then_printed) →
  appends (m ≫= f) saved_then_printed.
Proof.
  intros Hm Hf. eapply appends_bind; [exact Hm|exact Hf|by left|].
  apply saved_then_printed_app_l.
Qed.

Lemma saved_then_printed_save_print cwd st d :
  delta_messages d ≠ [] ∨ delta_blocks d ≠ [] →
  appends (ConversationUtils.saveSyncState cwd st ≫= λ _, emit (ConsoleLog d))
          saved_then_printed.
Proof.
  intros Hd w. eexists [SaveSyncState _ st; ConsoleLog d]. split.
  - simpl. by rewrite <- (assoc_L (++)).
  - right. exists [], (ConversationUtils.getSyncStateFile cwd (sessionId st)), st, d.
    split_and!; [done|apply quiet_nil|done].
Qed.

(** Whatever the PreToolUse hook finds, it saves and prints nothing, or
    else it ends with one save of the session record directly followed
    by one delta, and that delta is not empty: new messages or changed
    blocks are in it. *)
Theorem pretool_prints_only_what_is_new (env : Env) (w : World) :
  ∃ evs, trace (snd (PretoolSync.main env w)) = trace w ++ evs ∧ saved_then_printed evs.
Proof.
  revert w. change (appends (PretoolSync.main env) saved_then_printed).
  unfold PretoolSync.main.
  destruct (Js.or_null (LETTA_API_KEY env)) as [apiKey|];
    [|apply saved_then_printed_silent; silent].
  eapply (appends_try_catch _ _ saved_then_printed (λ evs, evs = []) saved_then_printed);
    [|intros e w; exists []; by rewrite app_nil_r|done|by intros evs1 ? H ->; rewrite app_nil_r].
  cbv beta zeta.
  destruct (Js.or_null _) as [session_id|]; [|apply saved_then_printed_silent; silent].
  destruct (Js.or_null _) as [cwd|]; [|apply saved_then_printed_silent; silent].
  apply saved_then_printed_bind; [silent|intros state].
  destruct (_ && _); [apply saved_then_printed_silent; silent|].
  apply saved_then_printed_bind; [silent|intros agentId].
  apply saved_then_printed_bind; [silent|intros conversationId].
  apply saved_then_printed_bind; [silent|intros [agent [newMessages lastMessageId]]].
  destruct newMessages as [|m ms], (PretoolSync.detectChangedBlocks _ _) as [|b bs];
    [apply saved_then_printed_silent; silent|..];
    (apply saved_then_printed_bind; [silent|intros _]);
    apply saved_then_printed_save_print; simpl; auto.
Qed.

End PretoolOutput.

(** ** When the PreToolUse hook contacts the server *)

Section PretoolGate.

Lemma lookupConversation_run dir sid w :
  ∃ c, ConversationUtils.lookupConversation dir sid w = (Return c, w).
Proof.
  unfold ConversationUtils.lookupConversation, read_file. rewrite bind_run.
  destruct (disk w !! _) as [[|table| |]|]; try by eexists.
  destruct (table !! sid) as [v|]; [|by eexists].
  destruct (ConversationUtils.cached_truthy _); by eexists.
Qed.

Lemma opens_with_bind e {A B} (m : M A) (f : A → M B) :
  appends m (opens_with e) → (∀ a, silent anything (f a)) →
  appends (m ≫= f) (opens_with e).
Proof.
  intros Hm Hf. eapply appends_bind; [exact Hm|exact Hf|done|].
  intros evs1 evs2 [evs' ->] _. by eexists.
Qed.

Lemma opens_with_promise_all e {A B} (a : M A) (b : M B) :
  appends a (opens_with e) → silent anything b →
  appends (promise_all a b) (opens_with e).
Proof.
  intros Ha Hb w. unfold promise_all.
  destruct (Ha w) as (evs1 & E1 & [evs' ->]).
  destruct (a w) as [ra w1]. simpl in *.
  destruct (Hb w1) as (evs2 & E2 & _).
  destruct ra as [x|msg|c].
  - destruct (b w1) as [[y|msg'|c'] w2]; simpl in *;
      exists ((e :: evs') ++ evs2); rewrite E2, E1, (assoc_L (++)); (split; [done|by eexists]).
  - destruct (b w1) as [[y|msg'|c'] w2]; simpl in *;
      exists ((e :: evs') ++ evs2); rewrite E2, E1, (assoc_L (++)); (split; [done|by eexists]).
  - exists (e :: evs'). split; [done|by eexists].
Qed.

Lemma opens_with_fetchAgent k a :
  appends (PretoolSync.fetchAgent k a) (opens_with (GetAgent a)).
Proof.
  unfold PretoolSync.fetchAgent, fetch.
  apply opens_with_bind; [|intros r; silent].
  apply opens_with_bind; [|intros r; silent].
  intros w. exists [GetAgent a]. split; [done|by eexists].
Qed.

Lemma pretool_main_after_a_sync (env : Env) (k sid dir a : string) (w : World) :
  Js.or_null (LETTA_API_KEY env) = Some k →
  Js.or_null (readHookInput env ≫= session_id) = Some sid →
  Js.or_null (readHookInput env ≫= cwd) = Some dir →
  getAgentId env k = Return a →
  if has_synced w dir sid
  then ∃ evs, trace (snd (PretoolSync.main env w)) = trace w ++ GetAgent a :: evs
  else PretoolSync.main env w = (Exit 0%Z, w).
Proof.
  intros Hkey Hsid Hcwd Hagent.
  unfold PretoolSync.main. rewrite Hkey. cbv beta zeta. rewrite Hsid, Hcwd.
  unfold try_catch. rewrite bind_run.
  unfold has_synced, ConversationUtils.loadSyncState, read_file. rewrite bind_run.
  destruct (disk w !! ConversationUtils.getSyncStateFile dir sid) as [[st| | |]|];
    try done.
  change ((mret st : M SyncState) w) with (Return st, w). cbv beta iota.
  destruct (bool_decide (is_Some (lastBlockValues st))),
    (Js.truthy_opt (lastSeenMessageId st)); cbn [negb andb orb]; try done.
  all: rewrite bind_run, Hagent; unfold lift_outcome; rewrite bind_run.
  all: assert (∃ c, match Js.or_null (conversationId st) with
                    | Some c => mret (Some c)
                    | None => ConversationUtils.lookupConversation dir sid
                    end w = (Return c, w)) as [c ->]
         by (destruct (Js.or_null (conversationId st)); [by eexists|];
             apply lookupConversation_run).
  all: match goal with
       | |- ∃ evs, trace (snd (match ?m _ with _ => _ end)) = _ =>
           assert (appends m (opens_with (GetAgent a))) as Hm
       end.
  all: try (apply opens_with_bind;
            [apply opens_with_promise_all; [apply opens_with_fetchAgent|silent]
            |intros [agent [newMessages lastMessageId]]; silent]).
  all: destruct (Hm w) as (evs & E & [evs' ->]); exists evs'; rewrite <- E.
  all: match goal with
       | |- context [match ?x with _ => _ end] => destruct x as [[?|?|?] ?]; done
       end.
Qed.

Lemma pretool_main_without_an_agent (env : Env) (k sid dir : string) (w : World) :
  Js.or_null (LETTA_API_KEY env) = Some k →
  Js.or_null (readHookInput env ≫= session_id) = Some sid →
  Js.or_null (readHookInput env ≫= cwd) = Some dir →
  (∀ a, getAgentId env k ≠ Return a) →
  PretoolSync.main env w
  = (match getAgentId env k with
     | Exit code => if has_synced w dir sid then Exit code else Exit 0%Z
     | _ => Exit 0%Z
     end, w).
Proof.
  intros Hkey Hsid Hcwd Hagent.
  unfold PretoolSync.main. rewrite Hkey. cbv beta zeta. rewrite Hsid, Hcwd.
  unfold try_catch. rewrite bind_run.
  unfold has_synced, ConversationUtils.loadSyncState, read_file. rewrite bind_run.
  destruct (disk w !! ConversationUtils.getSyncStateFile dir sid) as [[st| | |]|];
    try (by destruct (getAgentId env k)).
  change ((mret st : M SyncState) w) with (Return st, w). cbv beta iota.
  destruct (bool_decide (is_Some (lastBlockValues st))),
    (Js.truthy_opt (lastSeenMessageId st)); cbn [negb andb orb];
    rewrite ?bind_run; unfold lift_outcome;
    destruct (getAgentId env k) as [a|e|code] eqn:E; try done; by destruct (Hagent a).
Qed.

(** With a key, a session and a working directory, the PreToolUse hook
    contacts the server exactly when the session has been synced before
    and the agent id resolves: it then starts by fetching that agent.
    When the session has not been synced, it exits with [0] and leaves
    the world as it found it, and so it does when the resolution of the
    agent id fails; when the resolution ends the process, that is how the
    hook ends. *)
Theorem pretool_waits_for_the_first_sync
    (env : Env) (k sid dir : string) (w : World) :
  Js.or_null (LETTA_API_KEY env) = Some k →
  Js.or_null (readHookInput env ≫= session_id) = Some sid →
  Js.or_null (readHookInput env ≫= cwd) = Some dir →
  if has_synced w dir sid
  then match getAgentId env k with
       | Return a =>
           ∃ evs, trace (snd (PretoolSync.main env w)) = trace w ++ GetAgent a :: evs
       | Throw _ => PretoolSync.main env w = (Exit 0%Z, w)
       | Exit code => PretoolSync.main env w = (Exit code, w)
       end
  else PretoolSync.main env w = (Exit 0%Z, w).
Proof.
  intros Hkey Hsid Hcwd.
  destruct (getAgentId env k) as [a|e|code] eqn:Hagent.
  - apply (pretool_main_after_a_sync env k sid dir a w); done.
  - rewrite (pretool_main_without_an_agent env k sid dir w) by (done || congruence).
    rewrite Hagent. by destruct (has_synced w dir sid).
  - rewrite (pretool_main_without_an_agent env k sid dir w) by (done || congruence).
    rewrite Hagent. by destruct (has_synced w dir sid).
Qed.

Lemma pretool_waits_for_the_first_sync_witness :
  let w := init_world Sample.remote_news Sample.disk_synced in
  if has_synced w "/proj" "s1"
  then match getAgentId Sample.env "key" with
       | Return a =>
           ∃ evs, trace (snd (PretoolSync.main Sample.env w)) = trace w ++ GetAgent a :: evs
       | Throw _ => PretoolSync.main Sample.env w = (Exit 0%Z, w)
       | Exit code => PretoolSync.main Sample.env w = (Exit code, w)
       end
  else PretoolSync.main Sample.env w = (Exit 0%Z, w).
Proof.
  apply (pretool_waits_for_the_first_sync Sample.env "key" "s1" "/proj"
           (init_world Sample.remote_news Sample.disk_synced));
    reflexivity.
Defined.

End PretoolGate.

(** ** When the server cannot be read *)

Section HardFailures.

Lemma fetchAgent_run k a w :
  ConversationUtils.fetchAgent k a w
  = (match get_agent (remote w) a with
     | NetworkError => Throw "fetch failed"
     | HttpError _ => Throw "Letta API error"
     | HttpOk agent => Return agent
     end, after w [GetAgent a]).
Proof.
  unfold ConversationUtils.fetchAgent. rewrite bind_run.
  destruct (get_agent (remote w) a) as [|status|agent] eqn:E.
  - by rewrite fetch_network_error.
  - by rewrite (fetch_error _ _ _ status).
  - by rewrite (fetch_ok _ _ _ agent).
Qed.

Lemma stuck_fetchAgent k a : stuck_if agent_down (ConversationUtils.fetchAgent k a).
Proof.
  intros w Hdown agent. rewrite fetchAgent_run. simpl.
  destruct (get_agent (remote w) a) as [|status|agent'] eqn:E; [done|done|].
  by destruct (Hdown a agent').
Qed.

Lemma try_catch_stuck {A} (R : Remote → Prop) (m : M A) (h : string → M A) (c : Z) w :
  R (remote w) → stuck_if R m → exits_with (λ c', c' = c) m →
  (∀ e w', fst (h e w') = Exit c) →
  fst (try_catch m h w) = Exit c.
Proof.
  intros HR Hstuck Hexit Hh. unfold try_catch.
  specialize (Hstuck w HR). specialize (Hexit w).
  destruct (m w) as [[a|e|c'] w1]; simpl in *.
  - by destruct (Hstuck a).
  - apply Hh.
  - by rewrite (Hexit c').
Qed.

Lemma sync_main_confined_without_agent env :
  confined agent_down no_file is_output (SyncLettaMemory.main env).
Proof.
  unfold SyncLettaMemory.main.
  destruct (Js.or_null (LETTA_API_KEY env)) as [apiKey|]; [|confined].
  apply confined_try_catch; [|intros ?; confined].
  apply confined_bind; [confined|intros agentId]. cbv beta zeta.
  apply confined_bind; [confined|intros state].
  apply confined_bind; [confined|intros [conversationId state']].
  apply confined_bind_stuck; [confined|].
  apply stuck_promise_all_l, stuck_fetchAgent.
Qed.

(** When the server has no 2xx answer for the agent, the
    UserPromptSubmit hook exits with [1] having written nothing to
    stdout, [CLAUDE.md] or the disk and without starting a worker: what
    it adds to the trace are its requests and its error message. *)
Theorem sync_without_the_agent_changes_nothing (env : Env) (w : World) :
  (∀ k c, getAgentId env k ≠ Exit c) →
  agent_down (remote w) →
  let w' := snd (SyncLettaMemory.main env w) in
  fst (SyncLettaMemory.main env w) = Exit 1%Z ∧
  disk w' = disk w ∧
  ∃ evs, trace w' = trace w ++ evs ∧ quiet is_output evs.
Proof.
  intros Hagent Hdown w'.
  destruct (sync_main_confined_without_agent env w Hdown) as (_ & Hdisk & Htrace).
  split_and!; [|apply map_eq; intros path; apply Hdisk; intros []|done].
  unfold SyncLettaMemory.main.
  destruct (Js.or_null (LETTA_API_KEY env)) as [apiKey|]; [|done].
  apply (try_catch_stuck agent_down); [done| | |done].
  - eapply (stuck_bind_r _ no_file is_output); [confined|intros agentId]. cbv beta zeta.
    eapply (stuck_bind_r _ no_file is_output); [confined|intros state].
    eapply (stuck_bind_r _ no_file is_output); [confined|intros [conversationId state']].
    apply stuck_bind_l, stuck_promise_all_l, stuck_fetchAgent.
  - exits.
Qed.

Lemma sync_without_the_agent_changes_nothing_witness :
  let w := init_world remote_without_agent Sample.disk_synced in
  let w' := snd (SyncLettaMemory.main Sample.env w) in
  fst (SyncLettaMemory.main Sample.env w) = Exit 1%Z ∧
  disk w' = disk w ∧
  ∃ evs, trace w' = trace w ++ evs ∧ quiet is_output evs.
Proof.
  apply (sync_without_the_agent_changes_nothing Sample.env
           (init_world remote_without_agent Sample.disk_synced)).
  - intros k c. discriminate.
  - intros a agent. discriminate.
Defined.

Lemma promise_all_message_rejected k a c cursor w :
  Js.truthy c = true →
  get_messages (remote w) c = NetworkError →
  ∃ msg,
    promise_all (ConversationUtils.fetchAgent k a)
                (SyncLettaMemory.fetchAssistantMessages k (Some c) cursor) w
    = (Throw msg, after w [GetAgent a; GetMessages c]).
Proof.
  intros Hc Hfeed. unfold promise_all. rewrite fetchAgent_run.
  unfold SyncLettaMemory.fetchAssistantMessages. rewrite or_null_truthy by done.
  rewrite bind_run, fetch_network_error by done. rewrite after_after.
  destruct (get_agent (remote w) a); by eexists.
Qed.

(** A message fetch that is rejected, unlike one that is answered by an
    error status, fails the UserPromptSubmit hook as a whole: for a
    session bound to a conversation it exits with [1] after its two
    requests and its error message, with nothing written to stdout and
    nothing saved. *)
Theorem sync_fails_when_the_message_fetch_is_rejected
    (env : Env) (k a sid c : string) (st : SyncState) (w : World) :
  Js.or_null (LETTA_API_KEY env) = Some k →
  getAgentId env k = Return a →
  Js.or_null (readHookInput env ≫= session_id) = Some sid →
  disk w !! ConversationUtils.getSyncStateFile
              (Js.or_default (readHookInput env ≫= cwd) (projectDir env)) sid
    = Some (StateFile st) →
  Js.or_null (conversationId st) = Some c →
  get_messages (remote w) c = NetworkError →
  ∃ msg,
    SyncLettaMemory.main env w
    = (Exit 1%Z, after w [GetAgent a; GetMessages c; ConsoleError msg]).
Proof.
  intros Hkey Hagent Hsid Hdisk Hc Hfeed.
  pose proof Hc as [_ Htruthy]%or_null_Some.
  unfold SyncLettaMemory.main. rewrite Hkey. unfold try_catch.
  rewrite bind_run, Hagent. unfold lift_outcome. cbv beta iota zeta.
  rewrite Hsid.
  assert ((Some <$> ConversationUtils.loadSyncState
             (Js.or_default (readHookInput env ≫= cwd) (projectDir env)) sid) w
          = (Return (Some st), w)) as Hload.
  { unfold fmap, M_fmap. rewrite bind_run.
    unfold ConversationUtils.loadSyncState, read_file. by rewrite bind_run, Hdisk. }
  rewrite bind_run, Hload. cbv beta iota.
  change (Some st ≫= conversationId) with (conversationId st).
  rewrite Hc, (or_null_truthy c Htruthy). rewrite bind_run.
  change ((mret (Some c, Some st) : M _) w) with (Return (Some c, Some st), w).
  cbv beta iota. rewrite bind_run.
  destruct (promise_all_message_rejected k a c
              (Js.or_null (Some st ≫= lastSeenMessageId)) w Htruthy Hfeed) as [msg ->].
  eexists. rewrite bind_run. unfold emit, process_exit, after. simpl.
  by rewrite <- (assoc_L (++)).
Qed.

Lemma sync_fails_when_the_message_fetch_is_rejected_witness :
  ∃ msg,
    SyncLettaMemory.main Sample.env (init_world remote_unreachable_feed Sample.disk_synced)
    = (Exit 1%Z,
       after (init_world remote_unreachable_feed Sample.disk_synced)
             [GetAgent "agent-B"; GetMessages "conv-A"; ConsoleError msg]).
Proof.
  apply (sync_fails_when_the_message_fetch_is_rejected Sample.env
           "key" "agent-B" "s1" "conv-A" Sample.synced
           (init_world remote_unreachable_feed Sample.disk_synced));
    reflexivity.
Defined.

End HardFailures.

(** ** What the UserPromptSubmit hook prints and saves *)

Section SyncOutput.

Lemma quiet_save_or_log_save evs : quiet is_save_or_log evs → quiet is_SaveSyncState evs.
Proof.
  intros Hq. eapply Forall_impl; [exact Hq|]. intros e H. unfold is_save_or_log in H.
  by apply orb_false_iff in H as [? _].
Qed.

Lemma ends_with_bind_quiet {A B} (m : M A) (f : A → M B)
    (Q : outcome B → list event → Prop) :
  silent is_save_or_log m →
  (∀ a, ends_with (f a) Q) →
  (∀ o evs1 evs2, quiet is_save_or_log evs1 → Q o evs2 → Q o (evs1 ++ evs2)) →
  (∀ e evs, quiet is_save_or_log evs → Q (Throw e) evs) →
  (∀ c evs, quiet is_save_or_log evs → Q (Exit c) evs) →
  ends_with (m ≫= f) Q.
Proof.
  intros Hm Hf Happ Hthrow Hexit w. rewrite bind_run.
  destruct (Hm w) as (evs1 & E1 & H1).
  destruct (m w) as [[a|e|c] w1]; simpl in *.
  - destruct (Hf a w1) as (evs2 & E2 & H2).
    exists (evs1 ++ evs2). rewrite E2, E1, (assoc_L (++)). split; [done|by apply Happ].
  - exists evs1. split; [done|by apply Hthrow].
  - exists evs1. split; [done|by apply Hexit].
Qed.

Lemma saved_last_app_l evs1 evs2 :
  quiet is_save_or_log evs1 → saved_last evs2 → saved_last (evs1 ++ evs2).
Proof.
  intros H1 [H2|(mid & path & st & -> & Hmid)].
  - left. by apply quiet_app.
  - right. exists (evs1 ++ mid), path, st. rewrite (assoc_L (++)).
    split; [done|by apply quiet_app].
Qed.

Lemma after_the_delta_app_l {A} (o : outcome A) evs1 evs2 :
  quiet is_save_or_log evs1 → after_the_delta o evs2 → after_the_delta o (evs1 ++ evs2).
Proof.
  intros H1 H2. destruct o; simpl in *;
    [by apply saved_last_app_l|apply quiet_app; [by apply quiet_save_or_log_save|done]..].
Qed.

Lemma printed_then_saved_app_l {A} (o : outcome A) evs1 evs2 :
  quiet is_save_or_log evs1 → printed_then_saved o evs2 →
  printed_then_saved o (evs1 ++ evs2).
Proof.
  intros H1 H2. destruct o; simpl in *;
    [|apply quiet_app; [by apply quiet_save_or_log_save|done]..].
  destruct H2 as (pre & d & mid & -> & Hpre & Hmid).
  exists (evs1 ++ pre), d, mid. rewrite (assoc_L (++)).
  split_and!; [done|by apply quiet_app|done].
Qed.

Lemma printed_then_saved_bind {A B} (m : M A) (f : A → M B) :
  silent is_save_or_log m →
  (∀ a, ends_with (f a) printed_then_saved) →
  ends_with (m ≫= f) printed_then_saved.
Proof.
  intros Hm Hf. apply ends_with_bind_quiet; [done|done|..].
  - intros o. apply printed_then_saved_app_l.
  - intros e evs. apply quiet_save_or_log_save.
  - intros c evs. apply quiet_save_or_log_save.
Qed.

Lemma after_the_delta_bind {A B} (m : M A) (f : A → M B) :
  silent is_save_or_log m →
  (∀ a, ends_with (f a) after_the_delta) →
  ends_with (m ≫= f) after_the_delta.
Proof.
  intros Hm Hf. apply ends_with_bind_quiet; [done|done|..].
  - intros o. apply after_the_delta_app_l.
  - intros e evs. apply quiet_save_or_log_save.
  - intros c evs. apply quiet_save_or_log_save.
Qed.

Lemma printed_then_saved_emit {A} d (rest : M A) :
  ends_with rest after_the_delta →
  ends_with (emit (ConsoleLog d) ≫= λ _, rest) printed_then_saved.
Proof.
  intros Hrest w. rewrite bind_run. unfold emit.
  destruct (Hrest {| remote := remote w; disk := disk w;
                     trace := trace w ++ [ConsoleLog d] |}) as (mid & E & H).
  exists (ConsoleLog d :: mid). split.
  - rewrite E. simpl. by rewrite <- (assoc_L (++)).
  - destruct (fst (rest _)); simpl in *.
    + exists [], d, mid. split_and!; [done|apply quiet_nil|done].
    + by constructor.
    + by constructor.
Qed.

Lemma after_the_delta_saveSyncState cwd st :
  ends_with (ConversationUtils.saveSyncState cwd st) after_the_delta.
Proof.
  intros w. eexists [SaveSyncState _ st]. split; [reflexivity|].
  right. eexists [], _, st. split; [done|apply quiet_nil].
Qed.

Lemma after_the_delta_ret {A} (a : A) : ends_with (mret a) after_the_delta.
Proof.
  intros w. exists []. split; [by rewrite app_nil_r|]. left. apply quiet_nil.
Qed.

Lemma printed_then_saved_try_catch {A} (m : M A) (h : string → M A) :
  (∀ e w, ∃ evs c, h e w = (Exit c, after w evs) ∧ quiet is_SaveSyncState evs) →
  ends_with m printed_then_saved →
  ends_with (try_catch m h) printed_then_saved.
Proof.
  intros Hh Hm w. unfold try_catch. destruct (Hm w) as (evs & E & H).
  destruct (m w) as [[u|e|c] w1]; simpl in *.
  - by exists evs.
  - destruct (Hh e w1) as (evs' & c & -> & Hevs'). exists (evs ++ evs'). split.
    + simpl. by rewrite E, (assoc_L (++)).
    + by apply quiet_app.
  - by exists evs.
Qed.

(** When the UserPromptSubmit hook returns, it has written exactly one
    delta to stdout, and the session record, if it was saved at all, was
    saved once, as the last thing the hook did. When the hook does not
    return, the session record was not saved. *)
Theorem sync_prints_once_and_saves_last (env : Env) (w : World) :
  ∃ evs, trace (snd (SyncLettaMemory.main env w)) = trace w ++ evs ∧
         printed_then_saved (fst (SyncLettaMemory.main env w)) evs.
Proof.
  revert w. change (ends_with (SyncLettaMemory.main env) printed_then_saved).
  unfold SyncLettaMemory.main.
  destruct (Js.or_null (LETTA_API_KEY env)) as [apiKey|].
  2: { intros w. eexists [ConsoleError _]. split; [reflexivity|]. by constructor. }
  apply printed_then_saved_try_catch.
  { intros e w. eexists [ConsoleError _], _. split; [reflexivity|]. by constructor. }
  { apply printed_then_saved_bind; [silent|intros agentId]. cbv beta zeta.
    apply printed_then_saved_bind; [silent|intros state].
    apply printed_then_saved_bind; [silent|intros [conversationId state']].
    apply printed_then_saved_bind; [silent|intros [agent [newMessages lastMessageId]]].
    apply printed_then_saved_bind; [silent|intros _].
    apply printed_then_saved_bind; [silent|intros _].
    apply printed_then_saved_emit.
    apply after_the_delta_bind; [silent|intros state''].
    destruct state'' as [st|]; [|apply after_the_delta_ret].
    destruct (Js.or_null _) as [sessionId|];
      [apply after_the_delta_saveSyncState|apply after_the_delta_ret]. }
Qed.

End SyncOutput.
